(** * ConfigForge-V2Ray: a shallow embedding of [main.py]

    The development follows the source file top-down: Python strings and
    exceptions, the base64 helpers, the JSON and URL collaborators, the link
    classifier, the latency prober, the aggregator and ranker, the renamer and
    the writer.  Python [str] values are sequences of code points, [bytes]
    values sequences of octets; an operation that can raise returns [res]. *)

From Stdlib Require Import String Ascii.
From Stdlib Require Import List NArith ZArith Bool Lia Permutation SpecFloat.
Import ListNotations.

Local Open Scope N_scope.
Local Open Scope list_scope.

(** ** Python values: code points, strings, exceptions *)

Definition char := N.
Definition str := list char.
Definition bytes := list N.

(** An ASCII literal of the source, as a Python [str]. *)
Definition u (s : string) : str := map N_of_ascii (list_ascii_of_string s).
Arguments u s%_string.

(** The exception classes the modelled code can meet; all derive from
    [Exception], so every [except Exception] clause of the source catches
    each of them. *)
Inductive exn : Type :=
| ValueError | IndexError | TypeError | AttributeError | KeyError
| UnicodeError | BinasciiError | JSONDecodeError | ReError | RecursionError
| OverflowError.

Inductive res (A : Type) : Type :=
| Ok (a : A)
| Raise (e : exn).
Arguments Ok {A} a.
Arguments Raise {A} e.

Definition bind {A B} (m : res A) (k : A -> res B) : res B :=
  match m with Ok a => k a | Raise e => Raise e end.

Notation "x <- m ;; k" := (bind m (fun x => k))
  (at level 61, m at next level, right associativity).
Notation "' p <- m ;; k" := (bind m (fun x => match x with p => k end))
  (at level 61, p pattern, m at next level, right associativity).

(** [try: ... except Exception: handler] *)
Definition try_except {A} (body : res A) (handler : A) : A :=
  match body with Ok a => a | Raise _ => handler end.

Definition raises {A} (m : res A) : bool :=
  match m with Ok _ => false | Raise _ => true end.

(** ** String operations *)

Fixpoint eqb_str (a b : str) : bool :=
  match a, b with
  | [], [] => true
  | x :: a', y :: b' => (x =? y) && eqb_str a' b'
  | _, _ => false
  end.

Fixpoint starts_with (p s : str) : bool :=
  match p, s with
  | [], _ => true
  | x :: p', y :: s' => (x =? y) && starts_with p' s'
  | _ :: _, [] => false
  end.

(** [s.find(p)] *)
Fixpoint find (p s : str) : option nat :=
  if starts_with p s then Some O
  else match s with
       | [] => None
       | _ :: s' => option_map S (find p s')
       end.

(** [s.rfind(p)] *)
Fixpoint rfind (p s : str) : option nat :=
  match s with
  | [] => if starts_with p s then Some O else None
  | _ :: s' =>
      match rfind p s' with
      | Some i => Some (S i)
      | None => if starts_with p s then Some O else None
      end
  end.

(** [p in s] *)
Definition contains (p s : str) : bool :=
  match find p s with Some _ => true | None => false end.

(** [s.split(sep, 1)]: one or two pieces. *)
Definition split1 (sep s : str) : list str :=
  match find sep s with
  | Some i => [firstn i s; skipn (i + length sep) s]
  | None => [s]
  end.

(** [s.rsplit(sep, 1)] *)
Definition rsplit1 (sep s : str) : list str :=
  match rfind sep s with
  | Some i => [firstn i s; skipn (i + length sep) s]
  | None => [s]
  end.

(** [xs[1]] on the result of a split. *)
Definition second (l : list str) : res str :=
  match l with
  | _ :: b :: _ => Ok b
  | _ => Raise IndexError
  end.

(** [a, b = xs] *)
Definition unpack2 {A} (l : list A) : res (A * A) :=
  match l with
  | [a; b] => Ok (a, b)
  | _ => Raise ValueError
  end.

(** [str.isspace] on one code point. *)
Definition is_space (c : char) : bool :=
  ((9 <=? c) && (c <=? 13)) || ((28 <=? c) && (c <=? 32))
  || (c =? 133) || (c =? 160) || (c =? 5760)
  || ((8192 <=? c) && (c <=? 8202))
  || (c =? 8232) || (c =? 8233) || (c =? 8239) || (c =? 8287) || (c =? 12288).

Fixpoint lstrip (s : str) : str :=
  match s with
  | c :: s' => if is_space c then lstrip s' else s
  | [] => []
  end.

(** [s.strip()] *)
Definition strip (s : str) : str := rev (lstrip (rev (lstrip s))).

(** [sep.join(xs)] *)
Fixpoint join (sep : str) (xs : list str) : str :=
  match xs with
  | [] => []
  | [x] => x
  | x :: rest => x ++ sep ++ join sep rest
  end.

Definition is_ascii (c : char) : bool := c <? 128.

(** ** UTF-8 *)

(** [s.encode()]: strict UTF-8; a surrogate code point cannot be encoded. *)
Definition utf8_char (c : char) : res bytes :=
  if c <? 128 then Ok [c]
  else if c <? 2048 then Ok [192 + c / 64; 128 + c mod 64]
  else if (55296 <=? c) && (c <=? 57343) then Raise UnicodeError
  else if c <? 65536 then
    Ok [224 + c / 4096; 128 + (c / 64) mod 64; 128 + c mod 64]
  else
    Ok [240 + c / 262144; 128 + (c / 4096) mod 64;
        128 + (c / 64) mod 64; 128 + c mod 64].

Fixpoint utf8_encode (s : str) : res bytes :=
  match s with
  | [] => Ok []
  | c :: s' => b <- utf8_char c ;; r <- utf8_encode s' ;; Ok (b ++ r)
  end.

Definition is_cont (b : N) : bool := (128 <=? b) && (b <? 192).

(** [b.decode(errors="ignore")]: CPython's UTF-8 decoder, whose error
    handler drops the offending bytes: one byte for an invalid start byte,
    the bytes before the first invalid continuation byte otherwise, and the
    whole tail for a sequence cut short by the end of the data. *)
Fixpoint utf8_decode_ignore (bs : bytes) : str :=
  match bs with
  | [] => []
  | b :: r1 =>
      if b <? 128 then b :: utf8_decode_ignore r1
      else if b <? 194 then utf8_decode_ignore r1
      else if b <? 224 then
        match r1 with
        | [] => []
        | b2 :: r2 =>
            if is_cont b2
            then ((b - 192) * 64 + (b2 - 128)) :: utf8_decode_ignore r2
            else utf8_decode_ignore r1
        end
      else if b <? 240 then
        match r1 with
        | [] => []
        | b2 :: r2 =>
            if negb (is_cont b2) || (if b2 <? 160 then b =? 224 else b =? 237)
            then utf8_decode_ignore r1
            else match r2 with
                 | [] => []
                 | b3 :: r3 =>
                     if is_cont b3
                     then ((b - 224) * 4096 + (b2 - 128) * 64 + (b3 - 128))
                            :: utf8_decode_ignore r3
                     else utf8_decode_ignore r2
                 end
        end
      else if b <? 245 then
        match r1 with
        | [] => []
        | b2 :: r2 =>
            if negb (is_cont b2) || (if b2 <? 144 then b =? 240 else b =? 244)
            then utf8_decode_ignore r1
            else match r2 with
                 | [] => []
                 | b3 :: r3 =>
                     if negb (is_cont b3) then utf8_decode_ignore r2
                     else match r3 with
                          | [] => []
                          | b4 :: r4 =>
                              if is_cont b4
                              then ((b - 240) * 262144 + (b2 - 128) * 4096
                                    + (b3 - 128) * 64 + (b4 - 128))
                                     :: utf8_decode_ignore r4
                              else utf8_decode_ignore r3
                          end
                 end
        end
      else utf8_decode_ignore r1
  end.

(** ** Base64 ([binascii], [base64]) *)

Definition b64_char (n : N) : char :=
  if n <? 26 then 65 + n
  else if n <? 52 then 71 + n
  else if n <? 62 then n - 4
  else if n =? 62 then 43 else 47.

Definition b64_val (c : char) : option N :=
  if (65 <=? c) && (c <=? 90) then Some (c - 65)
  else if (97 <=? c) && (c <=? 122) then Some (c - 71)
  else if (48 <=? c) && (c <=? 57) then Some (c + 4)
  else if c =? 43 then Some 62
  else if c =? 47 then Some 63
  else None.

(** [binascii.b2a_base64(bs, newline=False)] *)
Fixpoint b2a_base64 (bs : bytes) : str :=
  match bs with
  | [] => []
  | [a] => [b64_char (a / 4); b64_char ((a mod 4) * 16); 61; 61]
  | [a; b] =>
      [b64_char (a / 4); b64_char ((a mod 4) * 16 + b / 16);
       b64_char ((b mod 16) * 4); 61]
  | a :: b :: c :: rest =>
      b64_char (a / 4) :: b64_char ((a mod 4) * 16 + b / 16)
        :: b64_char ((b mod 16) * 4 + c / 64) :: b64_char (c mod 64)
        :: b2a_base64 rest
  end.

(** [binascii.a2b_base64] in its default, non-strict mode: characters
    outside the alphabet are skipped, a pad character that completes a quad
    ends the decoding (whatever follows is not read), and the data must not
    stop inside a quad.  [quad_pos] counts the alphabet characters of the
    current quad, [leftchar] holds its pending bits, [pads] the pad
    characters seen since the last alphabet character. *)
Fixpoint a2b_base64 (s : str) (quad_pos : nat) (leftchar : N) (pads : nat)
  : res bytes :=
  match s with
  | [] => match quad_pos with O => Ok [] | _ => Raise BinasciiError end
  | c :: s' =>
      if c =? 61 then
        if (2 <=? quad_pos)%nat then
          if (4 <=? quad_pos + S pads)%nat then Ok []
          else a2b_base64 s' quad_pos leftchar (S pads)
        else a2b_base64 s' quad_pos leftchar pads
      else
        match b64_val c with
        | None => a2b_base64 s' quad_pos leftchar pads
        | Some v =>
            match quad_pos with
            | 0%nat => a2b_base64 s' 1%nat v O
            | 1%nat =>
                r <- a2b_base64 s' 2%nat (v mod 16) O ;;
                Ok ((leftchar * 4 + v / 16) :: r)
            | 2%nat =>
                r <- a2b_base64 s' 3%nat (v mod 4) O ;;
                Ok ((leftchar * 16 + v / 4) :: r)
            | _ =>
                r <- a2b_base64 s' O 0 O ;;
                Ok ((leftchar * 64 + v) :: r)
            end
        end
  end.

(** [base64.b64decode(s)] on a [str]: the argument is first encoded as
    ASCII, which fails on any other character. *)
Definition b64decode (s : str) : res bytes :=
  if forallb is_ascii s then a2b_base64 s O 0 O else Raise ValueError.

(** [base64.b64encode(bs).decode()] *)
Definition b64encode (bs : bytes) : str := b2a_base64 bs.

(** ** Helpers of [main.py]: base64 and port strip *)

(** ["=" * ((4 - len(s) % 4) % 4)] *)
Definition pad_for (s : str) : str :=
  repeat 61 ((4 - length s mod 4) mod 4)%nat.

Definition b64_decode (s : str) : res str :=
  b <- b64decode (s ++ pad_for s) ;;
  Ok (utf8_decode_ignore b).

Definition b64_encode (s : str) : res str :=
  b <- utf8_encode s ;;
  Ok (b64encode b).

Definition strip_port (host : str) : str :=
  match split1 (u ":") host with
  | x :: _ => x
  | [] => []
  end.

Definition maybe_base64_decode (s : str) : str :=
  let s := strip s in
  match b64_decode s with
  | Ok decoded => if contains (u "://") decoded then strip decoded else s
  | Raise _ => s
  end.

(** ** Numbers: [int] and [float]

    A Python [float] is an IEEE 754 binary64 number: a signed zero, a
    signed infinity, NaN, or [m * 2 ^ e] with a sign.  The operations round
    to the nearest float, ties to even. *)
Definition float := spec_float.

Definition prec : Z := 53.
Definition emax : Z := 1024.

(** [float("inf")] *)
Definition float_inf : float := S754_infinity false.

Definition is_nan (f : float) : bool :=
  match f with S754_nan => true | _ => false end.

Definition is_infinite (f : float) : bool :=
  match f with S754_infinity _ => true | _ => false end.

(** [a + b], [a / b] and [a < b] on floats *)
Definition float_add : float -> float -> float := SFadd prec emax.
Definition float_div : float -> float -> float := SFdiv prec emax.
Definition float_ltb : float -> float -> bool := SFltb.

(** The float nearest to an [int], which is an infinity when the [int] is
    out of range. *)
Definition round_int (z : Z) : float := binary_normalize prec emax z 0 false.

(** The float nearest to [a / b], for [0 < b]: the quotient is taken with
    more bits than a float holds, and one more bit tells whether anything
    was left over. *)
Definition round_ratio (a b : Z) : float :=
  if (a =? 0)%Z then S754_zero false
  else
    let k := Z.max 0 (56 + Z.log2 b - Z.log2 (Z.abs a)) in
    let n := (Z.abs a * 2 ^ k)%Z in
    let q := (n / b)%Z in
    let sticky := if (n mod b =? 0)%Z then 0%Z else 1%Z in
    binary_normalize prec emax (Z.sgn a * (2 * q + sticky)) (- k - 1) false.

(** What a decimal literal stands for: the digits [d] scaled by a power of
    ten.  A literal that is out of range reads as an infinity. *)
Definition float_of_decimal (neg : bool) (d : N) (e10 : Z) : float :=
  if d =? 0 then S754_zero neg
  else
    let z := if neg then Z.opp (Z.of_N d) else Z.of_N d in
    if (0 <=? e10)%Z then round_int (z * 10 ^ e10)
    else round_ratio z (10 ^ (- e10)).

(** [float(z)] where Python converts an [int] operand: out of range, it
    raises. *)
Definition float_of_int (z : Z) : res float :=
  let f := round_int z in
  if is_infinite f then Raise OverflowError else Ok f.

(** A number: [int] (and [bool]) or [float]. *)
Inductive num : Type :=
| NumInt (z : Z)
| NumFloat (f : float).

(** [a + b] *)
Definition num_add (a b : num) : res num :=
  match a, b with
  | NumInt x, NumInt y => Ok (NumInt (x + y))
  | NumInt x, NumFloat g => f <- float_of_int x ;; Ok (NumFloat (float_add f g))
  | NumFloat f, NumInt y => g <- float_of_int y ;; Ok (NumFloat (float_add f g))
  | NumFloat f, NumFloat g => Ok (NumFloat (float_add f g))
  end.

(** [a / n] for an [int] [n] above zero: the quotient of two [int]s is
    rounded once, and raises when it is out of range. *)
Definition true_divide (a : num) (n : Z) : res float :=
  match a with
  | NumInt z =>
      let f := round_ratio z n in
      if is_infinite f then Raise OverflowError else Ok f
  | NumFloat f => d <- float_of_int n ;; Ok (float_div f d)
  end.

(** The longest decimal text that [int] and [str] convert
    ([sys.get_int_max_str_digits()]). *)
Definition max_str_digits : nat := 4300.

(** ** JSON values and Python dictionaries *)

(** The values [json.loads] builds.  A number with a fraction or an exponent
    (and [NaN], [Infinity], [-Infinity]) is a Python [float], any other
    number an [int], of at most [max_str_digits] digits. *)
#[warnings="-register-all"]
Inductive json : Type :=
| JNull
| JBool (b : bool)
| JInt (z : Z)
| JFloat (f : float)
| JStr (s : str)
| JArr (items : list json)
| JObj (pairs : list (str * json)).

(** A [dict] with [str] keys, in insertion order. *)
Definition dict (V : Type) := list (str * V).

(** [d.get(k)] *)
Fixpoint dict_get {V} (k : str) (d : dict V) : option V :=
  match d with
  | [] => None
  | (k', v) :: d' => if eqb_str k k' then Some v else dict_get k d'
  end.

(** [d[k] = v]: an existing key keeps its place, a new key goes last. *)
Fixpoint dict_set {V} (k : str) (v : V) (d : dict V) : dict V :=
  match d with
  | [] => [(k, v)]
  | (k', v') :: d' =>
      if eqb_str k k' then (k', v) :: d' else (k', v') :: dict_set k v d'
  end.

(** [dict(pairs)] and [d.update(pairs)] *)
Definition dict_update {V} (d : dict V) (pairs : list (str * V)) : dict V :=
  fold_left (fun acc kv => dict_set (fst kv) (snd kv) acc) pairs d.

Definition dict_of_pairs {V} (pairs : list (str * V)) : dict V :=
  dict_update [] pairs.

Definition dict_keys {V} (d : dict V) : list str := map fst d.

(** ** The run-time system and the network

    What the program obtains from the Python run-time system, from
    [urllib] and from remote services, and what is not computed here.  The
    network oracles take the number of the call, so that the same question
    may be answered differently at different times. *)
Inductive dns_answer : Type :=
| Resolved (ip : str)
| GaiError
| OtherError (e : exn).

Class Runtime : Type := {
  (** [float.__repr__], as [str.format] prints a float, and the text
      [json.dumps] writes for it *)
  float_repr : float -> str;
  float_json : float -> str;
  (** [repr] of a list or a dict *)
  container_repr : json -> str;
  (** [str.lower] and [str.upper] of one code point outside ASCII *)
  unicode_lower : char -> str;
  unicode_upper : char -> str;
  (** [str.isalpha] of one code point outside ASCII *)
  unicode_isalpha : char -> bool;
  (** decimal value of a code point outside ASCII in Unicode category Nd *)
  unicode_decimal : char -> option N;
  (** an [re.sub] replacement template that holds a backslash: compiling
      it may fail; once compiled it maps the text of group 1 to the
      replacement *)
  re_template : str -> res (option str -> str);
  (** [urlsplit(link).netloc] *)
  urlsplit_netloc : str -> res str;
  (** [socket.gethostbyname] *)
  gethostbyname : nat -> str -> dns_answer;
  (** the [country_code] field of a 200 answer of the geolocation service,
      or [None] for any failure inside the [try] block *)
  geo_lookup : nat -> str -> option str;
  (** [random.randint(100000, 999999)] *)
  randint : nat -> N;
  (** [list(s)] for a set [s] of strings: the slot of the hash table in
      which an element lies, given the elements in the order in which they
      were added; the list runs through the slots *)
  set_slot : list str -> str -> N;
  (** [sorted] on keys that [<] does not order, a NaN being among them:
      the place the sort gives to the item at each position, given the keys
      in the order of the items *)
  nan_sort_place : list float -> nat -> N
}.

(** ** Decimal numbers *)

Fixpoint dec_aux (fuel : nat) (n : N) (acc : str) : str :=
  match fuel with
  | O => acc
  | S f =>
      let acc' := (48 + n mod 10) :: acc in
      if n <? 10 then acc' else dec_aux f (n / 10) acc'
  end.

(** [str(n)] for a natural number *)
Definition dec_of_N (n : N) : str := dec_aux (S (N.to_nat (N.log2 n))) n [].

(** [str(z)] for an [int] *)
Definition dec_of_Z (z : Z) : str :=
  match z with
  | Z0 => u "0"
  | Zpos p => dec_of_N (Npos p)
  | Zneg p => 45 :: dec_of_N (Npos p)
  end.

Definition is_digit (c : char) : bool := (48 <=? c) && (c <=? 57).

(** Value of a run of ASCII digits, most significant first. *)
Fixpoint digits_val (ds : str) (acc : N) : N :=
  match ds with
  | [] => acc
  | d :: ds' => digits_val ds' (acc * 10 + (d - 48))
  end.

(** Longest prefix of characters that satisfy [p], and the rest. *)
Fixpoint span (p : char -> bool) (s : str) : str * str :=
  match s with
  | c :: s' =>
      if p c then let (a, b) := span p s' in (c :: a, b) else ([], s)
  | [] => ([], [])
  end.

(** ** [json.dumps] with its default settings *)

Definition hex_digit (n : N) : char := if n <? 10 then 48 + n else 87 + n.

Definition hex4 (n : N) : str :=
  [hex_digit (n / 4096); hex_digit ((n / 256) mod 16);
   hex_digit ((n / 16) mod 16); hex_digit (n mod 16)].

(** One character of a string under [ensure_ascii=True]. *)
Definition escape_char (c : char) : str :=
  if c =? 34 then [92; 34]
  else if c =? 92 then [92; 92]
  else if c =? 10 then [92; 110]
  else if c =? 13 then [92; 114]
  else if c =? 9 then [92; 116]
  else if c =? 8 then [92; 98]
  else if c =? 12 then [92; 102]
  else if (32 <=? c) && (c <=? 126) then [c]
  else if c <? 65536 then 92 :: 117 :: hex4 c
  else
    let v := c - 65536 in
    (92 :: 117 :: hex4 (55296 + v / 1024))
      ++ (92 :: 117 :: hex4 (56320 + v mod 1024)).

Definition encode_string (s : str) : str :=
  34 :: flat_map escape_char s ++ [34].

Fixpoint json_dumps {rt : Runtime} (v : json) {struct v} : str :=
  match v with
  | JNull => u "null"
  | JBool true => u "true"
  | JBool false => u "false"
  | JInt z => dec_of_Z z
  | JFloat f => float_json f
  | JStr s => encode_string s
  | JArr items => 91 :: join (u ", ") (map json_dumps items) ++ [93]
  | JObj pairs =>
      123 :: join (u ", ")
               (map (fun kv => let '(k, x) := kv in
                               encode_string k ++ u ": " ++ json_dumps x)
                    pairs)
          ++ [125]
  end.

(** ** [json.loads] (the C scanner) *)

Definition is_json_ws (c : char) : bool :=
  (c =? 32) || (c =? 9) || (c =? 10) || (c =? 13).

Fixpoint skip_ws (s : str) : str :=
  match s with
  | c :: s' => if is_json_ws c then skip_ws s' else s
  | [] => []
  end.

Definition hex_val (c : char) : option N :=
  if (48 <=? c) && (c <=? 57) then Some (c - 48)
  else if (97 <=? c) && (c <=? 102) then Some (c - 87)
  else if (65 <=? c) && (c <=? 70) then Some (c - 55)
  else None.

Definition hex4_val (a b c d : char) : option N :=
  match hex_val a, hex_val b, hex_val c, hex_val d with
  | Some x, Some y, Some z, Some w => Some (x * 4096 + y * 256 + z * 16 + w)
  | _, _, _, _ => None
  end.

Definition simple_escape (c : char) : option char :=
  if c =? 34 then Some 34
  else if c =? 92 then Some 92
  else if c =? 47 then Some 47
  else if c =? 98 then Some 8
  else if c =? 102 then Some 12
  else if c =? 110 then Some 10
  else if c =? 114 then Some 13
  else if c =? 116 then Some 9
  else None.

Definition is_high_surrogate (n : N) : bool := (55296 <=? n) && (n <=? 56319).
Definition is_low_surrogate (n : N) : bool := (56320 <=? n) && (n <=? 57343).
Definition join_surrogates (hi lo : N) : N :=
  65536 + (hi - 55296) * 1024 + (lo - 56320).

(** [scanstring] in strict mode, entered after the opening quote: the text
    of the string and what follows its closing quote. *)
Fixpoint scanstring (s : str) : res (str * str) :=
  match s with
  | [] => Raise JSONDecodeError
  | c :: r =>
      if c =? 34 then Ok ([], r)
      else if c =? 92 then
        match r with
        | [] => Raise JSONDecodeError
        | 117 :: h1 :: h2 :: h3 :: h4 :: r2 =>
            match hex4_val h1 h2 h3 h4 with
            | None => Raise JSONDecodeError
            | Some n =>
                let single := ' (t, k) <- scanstring r2 ;; Ok (n :: t, k) in
                if is_high_surrogate n then
                  match r2 with
                  | 92 :: 117 :: g1 :: g2 :: g3 :: g4 :: r4 =>
                      match hex4_val g1 g2 g3 g4 with
                      | None => Raise JSONDecodeError
                      | Some m =>
                          if is_low_surrogate m then
                            ' (t, k) <- scanstring r4 ;;
                            Ok (join_surrogates n m :: t, k)
                          else single
                      end
                  | _ => single
                  end
                else single
            end
        | e :: r1 =>
            match simple_escape e with
            | Some x => ' (t, k) <- scanstring r1 ;; Ok (x :: t, k)
            | None => Raise JSONDecodeError
            end
        end
      else if c <=? 31 then Raise JSONDecodeError
      else ' (t, k) <- scanstring r ;; Ok (c :: t, k)
  end.

(** The number scanner: the literal matched and the rest, or nothing when
    no integer part is found.  [is_float] tells whether a fraction or an
    exponent was read. *)
Definition match_int_part (s : str) : option (str * str) :=
  match s with
  | c :: r =>
      if (49 <=? c) && (c <=? 57) then
        let (ds, r') := span is_digit r in Some (c :: ds, r')
      else if c =? 48 then Some ([c], r)
      else None
  | [] => None
  end.

Definition match_frac (s : str) : str * str :=
  match s with
  | 46 :: d :: r =>
      if is_digit d then let (ds, r') := span is_digit r in (46 :: d :: ds, r')
      else ([], s)
  | _ => ([], s)
  end.

Definition match_exp (s : str) : str * str :=
  match s with
  | e :: r =>
      if (e =? 101) || (e =? 69) then
        let (sign, r1) :=
          match r with
          | c :: r' => if (c =? 45) || (c =? 43) then ([c], r') else ([], r)
          | [] => ([], r)
          end in
        match span is_digit r1 with
        | ([], _) => ([], s)
        | (ds, r2) => (e :: sign ++ ds, r2)
        end
      else ([], s)
  | [] => ([], s)
  end.

(** The power of ten an exponent part stands for. *)
Definition exponent_of (ep : str) : Z :=
  match ep with
  | _ :: 45 :: ds => Z.opp (Z.of_N (digits_val ds 0))
  | _ :: 43 :: ds => Z.of_N (digits_val ds 0)
  | _ :: ds => Z.of_N (digits_val ds 0)
  | [] => 0%Z
  end.

(** The float a literal stands for, from its integer part, its fraction
    (with the point) and its exponent part. *)
Definition float_of_literal (neg : bool) (ip fp ep : str) : float :=
  let frac := tl fp in
  float_of_decimal neg (digits_val (ip ++ frac) 0)
    (exponent_of ep - Z.of_nat (length frac)).

(** An integer literal of more than [max_str_digits] digits is refused
    with [ValueError]. *)
Definition match_number (s : str) : res (json * str) :=
  let (neg, s1) :=
    match s with
    | 45 :: r => (true, r)
    | _ => (false, s)
    end in
  match match_int_part s1 with
  | None => Raise JSONDecodeError
  | Some (ip, r1) =>
      let (fp, r2) := match_frac r1 in
      let (ep, r3) := match_exp r2 in
      match fp, ep with
      | [], [] =>
          if (max_str_digits <? length ip)%nat then Raise ValueError
          else
            let n := Z.of_N (digits_val ip 0) in
            Ok (JInt (if neg then Z.opp n else n), r3)
      | _, _ => Ok (JFloat (float_of_literal neg ip fp ep), r3)
      end
  end.

(** The rest of [s] behind its first character, when that is [c]. *)
Definition next_is (c : char) (s : str) : option str :=
  match s with
  | x :: r => if x =? c then Some r else None
  | [] => None
  end.

(** [scan_once] with the object and array loops.  [fuel] bounds the number
    of nested calls; [json_loads] supplies more than the text can use. *)
Fixpoint scan_once (fuel : nat) (s : str) {struct fuel} : res (json * str) :=
  match fuel with
  | O => Raise RecursionError
  | S f =>
      match s with
      | [] => Raise JSONDecodeError
      | c :: r =>
          if c =? 34 then ' (t, k) <- scanstring r ;; Ok (JStr t, k)
          else if c =? 123 then
            match next_is 125 (skip_ws r) with
            | Some k => Ok (JObj [], k)
            | None =>
                ' (kv, k) <- parse_object f (skip_ws r) ;;
                Ok (JObj (dict_of_pairs kv), k)
            end
          else if c =? 91 then
            match next_is 93 (skip_ws r) with
            | Some k => Ok (JArr [], k)
            | None =>
                ' (vs, k) <- parse_array f (skip_ws r) ;; Ok (JArr vs, k)
            end
          else if starts_with (u "null") s then Ok (JNull, skipn 4 s)
          else if starts_with (u "true") s then Ok (JBool true, skipn 4 s)
          else if starts_with (u "false") s then Ok (JBool false, skipn 5 s)
          else if starts_with (u "NaN") s then Ok (JFloat S754_nan, skipn 3 s)
          else if starts_with (u "Infinity") s
               then Ok (JFloat (S754_infinity false), skipn 8 s)
          else if starts_with (u "-Infinity") s
               then Ok (JFloat (S754_infinity true), skipn 9 s)
          else match_number s
      end
  end
with parse_object (fuel : nat) (s : str) {struct fuel}
  : res (list (str * json) * str) :=
  match fuel with
  | O => Raise RecursionError
  | S f =>
      match next_is 34 s with
      | Some r =>
          ' (key, r1) <- scanstring r ;;
          match next_is 58 (skip_ws r1) with
          | Some r2 =>
              ' (val, r3) <- scan_once f (skip_ws r2) ;;
              match next_is 125 (skip_ws r3) with
              | Some k => Ok ([(key, val)], k)
              | None =>
                  match next_is 44 (skip_ws r3) with
                  | Some r4 =>
                      ' (rest, k) <- parse_object f (skip_ws r4) ;;
                      Ok ((key, val) :: rest, k)
                  | None => Raise JSONDecodeError
                  end
              end
          | None => Raise JSONDecodeError
          end
      | None => Raise JSONDecodeError
      end
  end
with parse_array (fuel : nat) (s : str) {struct fuel}
  : res (list json * str) :=
  match fuel with
  | O => Raise RecursionError
  | S f =>
      ' (val, r1) <- scan_once f s ;;
      match next_is 93 (skip_ws r1) with
      | Some k => Ok ([val], k)
      | None =>
          match next_is 44 (skip_ws r1) with
          | Some r2 =>
              ' (rest, k) <- parse_array f (skip_ws r2) ;;
              Ok (val :: rest, k)
          | None => Raise JSONDecodeError
          end
      end
  end.

(** [json.loads(s)] *)
Definition json_loads (s : str) : res json :=
  if starts_with [65279] s then Raise JSONDecodeError
  else
    ' (v, r) <- scan_once (S (length s)) (skip_ws s) ;;
    match skip_ws r with
    | [] => Ok v
    | _ => Raise JSONDecodeError
    end.

(** ** Other library functions: [quote], [str.format], [int], case *)

Definition hex_upper (n : N) : char := if n <? 10 then 48 + n else 55 + n.

Definition is_alnum_ascii (c : char) : bool :=
  ((48 <=? c) && (c <=? 57)) || ((65 <=? c) && (c <=? 90))
  || ((97 <=? c) && (c <=? 122)).

(** Bytes [quote] leaves alone: letters, digits, [_.-~] and the default
    safe character [/]. *)
Definition quote_safe (b : N) : bool :=
  is_alnum_ascii b || (b =? 95) || (b =? 46) || (b =? 45) || (b =? 126)
  || (b =? 47).

Definition quote_byte (b : N) : str :=
  if quote_safe b then [b] else [37; hex_upper (b / 16); hex_upper (b mod 16)].

(** [urllib.parse.quote(s)] *)
Definition quote (s : str) : res str :=
  b <- utf8_encode s ;; Ok (flat_map quote_byte b).

(** [str(v)], as an f-string formats a value read from JSON.  (Neither
    [str] nor [json.dumps] prints an [int] of more than [max_str_digits]
    digits; [json.loads] and [int] build none.) *)
Definition py_str {rt : Runtime} (v : json) : str :=
  match v with
  | JNull => u "None"
  | JBool true => u "True"
  | JBool false => u "False"
  | JInt z => dec_of_Z z
  | JFloat f => float_repr f
  | JStr s => s
  | JArr _ | JObj _ => container_repr v
  end.

(** Blank characters for [int]: the C ones below 127, the Unicode ones
    above. *)
Definition is_int_space (c : char) : bool :=
  if c <? 127 then ((9 <=? c) && (c <=? 13)) || (c =? 32) else is_space c.

Definition digit_of {rt : Runtime} (c : char) : option N :=
  if is_digit c then Some (c - 48)
  else if c <? 127 then None
  else unicode_decimal c.

(** The digits of an [int] literal: single underscores may separate them.
    [count] is the number of digits read. *)
Fixpoint int_body {rt : Runtime} (s : str) (acc : N) (count : nat)
  (after_digit : bool) : option (N * nat * str) :=
  match s with
  | [] => if after_digit then Some (acc, count, []) else None
  | c :: r =>
      match digit_of c with
      | Some d => int_body r (acc * 10 + d) (S count) true
      | None =>
          if c =? 95
          then (if after_digit then int_body r acc count false else None)
          else if after_digit then Some (acc, count, s) else None
      end
  end.

Fixpoint drop_while (p : char -> bool) (s : str) : str :=
  match s with
  | c :: s' => if p c then drop_while p s' else s
  | [] => []
  end.

(** [int(s)] in base 10: a text of more than [max_str_digits] digits,
    leading zeros counted, is refused like one that is no number. *)
Definition py_int {rt : Runtime} (s : str) : res Z :=
  let s1 := drop_while is_int_space s in
  let (neg, s2) :=
    match s1 with
    | 45 :: r => (true, r)
    | 43 :: r => (false, r)
    | _ => (false, s1)
    end in
  match int_body s2 0 O false with
  | Some (n, count, rest) =>
      match drop_while is_int_space rest with
      | [] =>
          if (max_str_digits <? count)%nat then Raise ValueError
          else Ok (if neg then Z.opp (Z.of_N n) else Z.of_N n)
      | _ => Raise ValueError
      end
  | None => Raise ValueError
  end.

(** [s.lower()] and [s.upper()], code point by code point. *)
Definition py_lower {rt : Runtime} (s : str) : str :=
  flat_map (fun c => if c <? 128
                     then [if (65 <=? c) && (c <=? 90) then c + 32 else c]
                     else unicode_lower c) s.

Definition py_upper {rt : Runtime} (s : str) : str :=
  flat_map (fun c => if c <? 128
                     then [if (97 <=? c) && (c <=? 122) then c - 32 else c]
                     else unicode_upper c) s.

Definition char_isalpha {rt : Runtime} (c : char) : bool :=
  if c <? 128 then ((65 <=? c) && (c <=? 90)) || ((97 <=? c) && (c <=? 122))
  else unicode_isalpha c.

(** [s.isalpha()] *)
Definition py_isalpha {rt : Runtime} (s : str) : bool :=
  match s with
  | [] => false
  | _ => forallb char_isalpha s
  end.

(** [chr(n)] *)
Definition py_chr (n : N) : res char :=
  if n <=? 1114111 then Ok n else Raise ValueError.

(** ** Geolocation helpers of [main.py] *)

Definition white_flag : str := [127987; 65039].

Definition country_flag {rt : Runtime} (code : str) : res str :=
  match code with
  | [] => Ok white_flag
  | _ =>
      let c := py_upper (strip code) in
      if eqb_str c (u "UNKNOWN") || negb (length c =? 2)%nat
         || negb (py_isalpha c)
      then Ok white_flag
      else
        match c with
        | [c0; c1] =>
            a <- py_chr (c0 + 127397) ;;
            b <- py_chr (c1 + 127397) ;;
            Ok [a; b]
        | _ => Ok white_flag
        end
  end.

(** The state of a run: the process-wide [geo_cache] and the number of
    calls made so far to the outside world. *)
Record world : Type := {
  geo_cache : dict str;
  clock : nat
}.

Definition tick (w : world) : world :=
  {| geo_cache := geo_cache w; clock := S (clock w) |}.

Definition cache_put (ip code : str) (w : world) : world :=
  {| geo_cache := dict_set ip code (geo_cache w); clock := clock w |}.

Definition get_country_by_ip {rt : Runtime} (ip : str) (w : world)
  : str * world :=
  match dict_get ip (geo_cache w) with
  | Some code => (code, w)
  | None =>
      let w1 := tick w in
      match geo_lookup (clock w) ip with
      | Some raw =>
          let code := py_lower raw in
          (code, cache_put ip code w1)
      | None => (u "unknown", cache_put ip (u "unknown") w1)
      end
  end.

(** ** Parser: [detect_protocol] and [extract_host] *)

(** The class [[a-z0-9+.-]] *)
Definition is_scheme_char (c : char) : bool :=
  ((97 <=? c) && (c <=? 122)) || is_digit c
  || (c =? 43) || (c =? 46) || (c =? 45).

Definition detect_protocol {rt : Runtime} (link : str) : str :=
  let (proto, rest) := span is_scheme_char (py_lower (strip link)) in
  match proto with
  | [] => u "unknown"
  | _ =>
      if starts_with (u "://") rest then
        if eqb_str proto (u "ss") then u "shadowsocks" else proto
      else u "unknown"
  end.

(** [cfg.get(key, default)], which only a [dict] has. *)
Definition json_get (cfg : json) (key : str) (default : json) : res json :=
  match cfg with
  | JObj d => Ok (match dict_get key d with Some v => v | None => default end)
  | _ => Raise AttributeError
  end.

Definition extract_host_body {rt : Runtime} (link proto : str) : res str :=
  if eqb_str proto (u "vmess") then
    d <- b64_decode (skipn 8 link) ;;
    cfg <- json_loads d ;;
    a <- json_get cfg (u "add") (JStr []) ;;
    p <- json_get cfg (u "port") (JStr []) ;;
    Ok (py_str a ++ u ":" ++ py_str p)
  else
    netloc <- urlsplit_netloc link ;;
    if eqb_str proto (u "shadowsocks") && contains (u "@") netloc
    then second (split1 (u "@") netloc)
    else Ok netloc.

Definition extract_host {rt : Runtime} (link proto : str) : str :=
  try_except (extract_host_body link proto) [].

(** ** The latency prober: [run_ping_once]

    One probe talks to the checking service alone; its answers are a script
    indexed by the submission attempt and, within an attempt, by the poll.
    The admission gate shared by concurrent probes is not part of this
    sequential model. *)
Inductive submit_reply : Type :=
| Status503
| SubmitFails
| Submitted (request_id : option str).

(** An answer to a poll: the request itself fails, or it brings a status
    code and a body that [r2.json()] reads (or fails to read). *)
Inductive poll_reply : Type :=
| PollFails
| PollReply (status : N) (body : res json).

Record check_host : Type := {
  submit : nat -> submit_reply;
  poll : str -> nat -> nat -> poll_reply
}.

Inductive event : Type :=
| EvSubmit (attempt : nat)
| EvPoll (attempt : nat) (i : nat)
| EvSleepJitter
| EvSleep2.

Inductive poll_outcome : Type :=
| PollReturned (body : json)
| PollExhausted
| PollRaised.

(** Truth value of a value read from JSON. *)
Definition json_truthy {rt : Runtime} (v : json) : bool :=
  match v with
  | JNull => false
  | JBool b => b
  | JInt z => negb (z =? 0)%Z
  | JFloat f => match f with S754_zero _ => false | _ => true end
  | JStr s => negb (length s =? 0)%nat
  | JArr l => negb (length l =? 0)%nat
  | JObj d => negb (length d =? 0)%nat
  end.

(** [for _ in range(10)]: sleep, ask, return the first usable body. *)
Fixpoint poll_loop {rt : Runtime} (env : check_host) (req_id : str)
  (attempt : nat) (remaining i : nat) : poll_outcome * list event :=
  match remaining with
  | O => (PollExhausted, [])
  | S k =>
      let continue :=
        let (o, t) := poll_loop env req_id attempt k (S i) in
        (o, EvSleep2 :: EvPoll attempt i :: t) in
      match poll env req_id attempt i with
      | PollFails => (PollRaised, [EvSleep2; EvPoll attempt i])
      | PollReply status body =>
          if status =? 200 then
            match body with
            | Raise _ => (PollRaised, [EvSleep2; EvPoll attempt i])
            | Ok b =>
                if json_truthy b
                then (PollReturned b, [EvSleep2; EvPoll attempt i])
                else continue
            end
          else continue
      end
  end.

Definition empty_result : json := JObj [].

(** [for attempt in range(1, retries + 1)] *)
Fixpoint attempts {rt : Runtime} (env : check_host) (remaining attempt : nat)
  : json * list event :=
  match remaining with
  | O => (empty_result, [])
  | S k =>
      match submit env attempt with
      | Status503 =>
          let (r, t) := attempts env k (S attempt) in
          (r, EvSubmit attempt :: EvSleepJitter :: t)
      | SubmitFails =>
          let (r, t) := attempts env k (S attempt) in
          (r, EvSubmit attempt :: EvSleep2 :: t)
      | Submitted None => (empty_result, [EvSubmit attempt])
      | Submitted (Some req_id) =>
          match poll_loop env req_id attempt 10 0 with
          | (PollReturned body, t) => (body, EvSubmit attempt :: t)
          | (PollExhausted, t) => (empty_result, EvSubmit attempt :: t)
          | (PollRaised, t) =>
              let (r, t') := attempts env k (S attempt) in
              (r, EvSubmit attempt :: t ++ EvSleep2 :: t')
          end
      end
  end.

Definition run_ping_once {rt : Runtime} (env : check_host) (host : str)
  (retries : nat)
  : json * list event :=
  match host with
  | [] => (empty_result, [])
  | _ => attempts env retries 1
  end.

Definition default_retries : nat := 3.

(** ** The aggregator: [extract_latency_by_country] *)

(** A latency is a [float]. *)
Definition lat := float.

(** [x[0]] *)
Definition json_first (x : json) : res json :=
  match x with
  | JArr (a :: _) => Ok a
  | JArr [] => Raise IndexError
  | JStr (c :: _) => Ok (JStr [c])
  | JStr [] => Raise IndexError
  | JObj _ => Raise KeyError
  | _ => Raise TypeError
  end.

(** [iter(x)]: the elements of a list, the characters of a string, the
    keys of a dict. *)
Definition json_iter (x : json) : res (list json) :=
  match x with
  | JArr items => Ok items
  | JStr s => Ok (map (fun c => JStr [c]) s)
  | JObj d => Ok (map (fun kv => JStr (fst kv)) d)
  | _ => Raise TypeError
  end.

(** [status, ping = item] *)
Definition unpack_pair (item : json) : res (json * json) :=
  xs <- json_iter item ;; unpack2 xs.

Definition is_OK (status : json) : bool :=
  match status with
  | JStr s => eqb_str s (u "OK")
  | _ => false
  end.

(** The body of the [try] block: the samples appended before an exception
    stay in [pings]. *)
Fixpoint scan_samples (items : list json) (pings : list json) : list json :=
  match items with
  | [] => pings
  | item :: rest =>
      match unpack_pair item with
      | Ok (status, ping) =>
          scan_samples rest (if is_OK status then pings ++ [ping] else pings)
      | Raise _ => pings
      end
  end.

(** [results.get(node, [])] *)
Definition results_get (results : json) (node : str) : res json :=
  json_get results node (JArr []).

(** One turn of [for node in nodes]. *)
Definition node_samples (results : json) (node : str) (pings : list json)
  : res (list json) :=
  entries <- results_get results node ;;
  match (first <- json_first entries ;; json_iter first) with
  | Ok items => Ok (scan_samples items pings)
  | Raise _ => Ok pings
  end.

Fixpoint nodes_samples (results : json) (nodes : list str)
  (pings : list json) : res (list json) :=
  match nodes with
  | [] => Ok pings
  | node :: rest =>
      p <- node_samples results node pings ;;
      nodes_samples results rest p
  end.

(** A sample as a number: [int], [bool] and [float] add up, anything else
    makes [sum] raise. *)
Definition json_number (v : json) : res num :=
  match v with
  | JInt z => Ok (NumInt z)
  | JBool b => Ok (NumInt (if b then 1 else 0))
  | JFloat f => Ok (NumFloat f)
  | _ => Raise TypeError
  end.

(** [sum(pings)]: the samples are added one by one, from the left, to the
    [int] 0.  (The interpreters from 3.12 on add floats with a compensation
    term, which is not modelled.) *)
Fixpoint py_sum (pings : list json) (acc : num) : res num :=
  match pings with
  | [] => Ok acc
  | p :: rest => q <- json_number p ;; s <- num_add acc q ;; py_sum rest s
  end.

(** [sum(pings) / len(pings) if pings else float("inf")] *)
Definition mean_or_inf (pings : list json) : res lat :=
  match pings with
  | [] => Ok float_inf
  | _ =>
      s <- py_sum pings (NumInt 0) ;;
      true_divide s (Z.of_nat (length pings))
  end.

Fixpoint extract_latency_loop (results : json)
  (country_nodes : dict (list str)) (latencies : dict lat)
  : res (dict lat) :=
  match country_nodes with
  | [] => Ok latencies
  | (country, nodes) :: rest =>
      pings <- nodes_samples results nodes [] ;;
      l <- mean_or_inf pings ;;
      extract_latency_loop results rest (dict_set country l latencies)
  end.

Definition extract_latency_by_country (results : json)
  (country_nodes : dict (list str)) : res (dict lat) :=
  extract_latency_loop results country_nodes [].

(** ** Output: [save_to_file] *)

Definition files := dict str.

Definition LF : str := [10].

Definition save_to_file (path : str) (lines : list str) (fs : files) : files :=
  match lines with
  | [] => fs
  | _ => dict_set path (join LF lines) fs
  end.

(** ** Renaming helpers *)

Definition rename_vmess_body {rt : Runtime} (link ip port tag : str)
  : res str :=
  raw <- second (split1 (u "://") link) ;;
  d <- b64_decode raw ;;
  cfg <- json_loads d ;;
  match cfg with
  | JObj pairs =>
      n <- py_int port ;;
      let cfg' :=
        JObj (dict_update pairs
                [(u "add", JStr ip); (u "port", JInt n); (u "ps", JStr tag)]) in
      e <- b64_encode (json_dumps cfg') ;;
      q <- quote tag ;;
      Ok (u "vmess://" ++ e ++ u "#" ++ q)
  | _ => Raise AttributeError
  end.

Definition rename_vmess {rt : Runtime} (link ip port tag : str) : str :=
  try_except (rename_vmess_body link ip port tag) link.

(** [method, pwd = s.split(":", 1)] *)
Definition split_creds (s : str) : res (str * str) :=
  unpack2 (split1 (u ":") s).

Definition rename_shadowsocks_body (link ip port tag : str) : res str :=
  body <- second (split1 (u "ss://") link) ;;
  let body :=
    if contains (u "#") body
    then match split1 (u "#") body with b :: _ => b | [] => body end
    else body in
  ' (method, pwd) <-
    (if contains (u "@") body then
       let creds :=
         match split1 (u "@") body with c :: _ => c | [] => body end in
       match (d <- b64_decode creds ;; split_creds d) with
       | Ok mp => Ok mp
       | Raise _ => split_creds creds
       end
     else d <- b64_decode body ;; split_creds d) ;;
  new_creds <- b64_encode (method ++ u ":" ++ pwd) ;;
  q <- quote tag ;;
  Ok (u "ss://" ++ new_creds ++ u "@" ++ ip ++ u ":" ++ port ++ u "#" ++ q).

Definition rename_shadowsocks (link ip port tag : str) : str :=
  try_except (rename_shadowsocks_body link ip port tag) link.

(** *** The two regular expressions of [rename_generic] *)

(** The class [[^:/#]] *)
Definition not_delim (c : char) : bool :=
  negb ((c =? 58) || (c =? 47) || (c =? 35)).

(** The class [\d] *)
Definition re_digit {rt : Runtime} (c : char) : bool :=
  match digit_of c with Some _ => true | None => false end.

(** [[^:/#]+(:\d+)?] at the head of [s]: the text of group 1 and what
    follows the match. *)
Definition match_hostport {rt : Runtime} (s : str)
  : option (option str * str) :=
  match span not_delim s with
  | ([], _) => None
  | (_, r) =>
      match r with
      | 58 :: r' =>
          match span re_digit r' with
          | ([], _) => Some (None, r)
          | (ds, r'') => Some (Some (58 :: ds), r'')
          end
      | _ => Some (None, r)
      end
  end.

(** The replacement as [re.sub] reads it: literal unless it holds a
    backslash. *)
Definition compile_template {rt : Runtime} (repl : str)
  : res (option str -> str) :=
  if contains [92] repl then re_template repl else Ok (fun _ => repl).

(** All non-overlapping matches of [lead[^:/#]+(:\d+)?], left to right. *)
Fixpoint sub_loop {rt : Runtime} (fuel : nat) (lead : str)
  (expand : option str -> str) (s : str) : str :=
  match fuel with
  | O => s
  | S f =>
      match s with
      | [] => []
      | c :: s' =>
          if starts_with lead s then
            match match_hostport (skipn (length lead) s) with
            | Some (g1, r) => expand g1 ++ sub_loop f lead expand r
            | None => c :: sub_loop f lead expand s'
            end
          else c :: sub_loop f lead expand s'
      end
  end.

(** [re.sub(lead + r"[^:/#]+(:\d+)?", repl, s)] *)
Definition sub_hostport {rt : Runtime} (lead repl s : str) : res str :=
  expand <- compile_template repl ;;
  Ok (sub_loop (S (length s)) lead expand s).

(** Whether [.*$] matches at the head of [t]: no line feed, except one at
    the very end. *)
Fixpoint to_end_of_text (t : str) : bool :=
  match t with
  | [] => true
  | [c] => true
  | c :: t' => negb (c =? 10) && to_end_of_text t'
  end.

Definition final_newline (t : str) : str :=
  match rev t with
  | 10 :: _ => LF
  | _ => []
  end.

(** [re.sub(r"#.*$", repl, s)] for a literal [repl] *)
Fixpoint sub_fragment (repl s : str) : str :=
  match s with
  | [] => []
  | c :: s' =>
      if (c =? 35) && to_end_of_text s' then repl ++ final_newline s'
      else c :: sub_fragment repl s'
  end.

Definition rename_generic_body {rt : Runtime} (link ip port tag : str)
  : res str :=
  out <-
    (if contains (u "@") link
     then sub_hostport (u "@") (u "@" ++ ip ++ u ":" ++ port) link
     else sub_hostport (u "://") (u "://" ++ ip ++ u ":" ++ port) link) ;;
  q <- quote tag ;;
  if contains (u "#") out
  then Ok (sub_fragment (u "#" ++ q) out)
  else Ok (out ++ u "#" ++ q).

Definition rename_generic {rt : Runtime} (link ip port tag : str) : str :=
  try_except (rename_generic_body link ip port tag) link.

(** ** [rename_line] *)

Definition rename_by_proto {rt : Runtime} (proto link ip port tag : str)
  : str :=
  if eqb_str proto (u "vmess") then rename_vmess link ip port tag
  else if eqb_str proto (u "shadowsocks")
       then rename_shadowsocks link ip port tag
  else rename_generic link ip port tag.

(** The host and the port of [host_port], with the default port. *)
Definition split_host_port (host_port : str) : str * str :=
  if contains (u ":") host_port then
    match rsplit1 (u ":") host_port with
    | [host; port] => (host, port)
    | _ => (host_port, [])
    end
  else (host_port, u "443").

(** [socket.gethostbyname] under [except socket.gaierror] *)
Definition resolve_ip {rt : Runtime} (host : str) (w : world)
  : res str * world :=
  match gethostbyname (clock w) host with
  | Resolved ip => (Ok ip, tick w)
  | GaiError => (Ok host, tick w)
  | OtherError e => (Raise e, tick w)
  end.

Definition make_tag {rt : Runtime} (flag : str) (w : world) : str * world :=
  (flag ++ u " ShatalVPN " ++ dec_of_N (randint (clock w)), tick w).

Definition rename_line {rt : Runtime} (link : str) (w : world)
  : res str * world :=
  let proto := detect_protocol link in
  let host_port := extract_host link proto in
  match host_port with
  | [] => (Ok link, w)
  | _ =>
      let (host, port) := split_host_port host_port in
      match resolve_ip host w with
      | (Raise e, w1) => (Raise e, w1)
      | (Ok ip, w1) =>
          let (country, w2) := get_country_by_ip ip w1 in
          match country_flag country with
          | Raise e => (Raise e, w2)
          | Ok flag =>
              let (tag, w3) := make_tag flag w2 in
              (Ok (rename_by_proto proto link ip port tag), w3)
          end
      end
  end.

(** [[rename_line(l) for l in links]] *)
Fixpoint rename_all {rt : Runtime} (links : list str) (w : world)
  : res (list str) * world :=
  match links with
  | [] => (Ok [], w)
  | l :: rest =>
      match rename_line l w with
      | (Raise e, w1) => (Raise e, w1)
      | (Ok r, w1) =>
          match rename_all rest w1 with
          | (Raise e, w2) => (Raise e, w2)
          | (Ok rs, w2) => (Ok (r :: rs), w2)
          end
      end
  end.

(** ** Main flow: categorising, ranking, writing *)

Definition pair := (str * str)%type.

(** [d.setdefault(k, default)] followed by an update of the value *)
Definition dict_modify {V} (k : str) (default : V) (f : V -> V)
  (d : dict V) : dict V :=
  match dict_get k d with
  | Some v => dict_set k (f v) d
  | None => dict_set k (f default) d
  end.

Definition categorized_t := dict (dict (list pair)).

(** [for country in country_nodes: ...append((link, host))] *)
Definition add_to_countries (countries : list str) (proto : str) (p : pair)
  (categorized : categorized_t) : categorized_t :=
  fold_left
    (fun acc country =>
       dict_modify country [] (dict_modify proto [] (fun l => l ++ [p])) acc)
    countries categorized.

(** [for link in configs] *)
Fixpoint categorize {rt : Runtime} (configs : list str)
  (countries : list str) (acc : categorized_t * list pair)
  : categorized_t * list pair :=
  match configs with
  | [] => acc
  | link :: rest =>
      let proto := detect_protocol link in
      let host := strip_port (extract_host link proto) in
      match host with
      | [] => categorize rest countries acc
      | _ =>
          let (categorized, all_pairs) := acc in
          categorize rest countries
            (add_to_countries countries proto (link, host) categorized,
             all_pairs ++ [(link, host)])
      end
  end.

(** [<] on latencies: false whenever one of them is NaN. *)
Definition lat_ltb (a b : lat) : bool := float_ltb a b.

(** A stable sort: an insertion sort that moves an element past the
    strictly smaller ones.  ([stable_sort] below.) *)
Fixpoint insert_sorted {A} (key : A -> lat) (x : A) (l : list A) : list A :=
  match l with
  | [] => [x]
  | y :: l' =>
      if lat_ltb (key y) (key x) then y :: insert_sorted key x l'
      else x :: y :: l'
  end.

(** The same with natural numbers for keys. *)
Fixpoint insert_by {A} (rank : A -> N) (x : A) (l : list A) : list A :=
  match l with
  | [] => [x]
  | y :: l' =>
      if rank y <? rank x then y :: insert_by rank x l' else x :: y :: l'
  end.

Definition order_by {A} (rank : A -> N) (l : list A) : list A :=
  fold_right (insert_by rank) [] l.

(** [sorted(xs, key=...)]: Python's sort is stable and compares keys with
    [<] only.  When no key is NaN, [<] orders the keys and every stable
    sort gives the same list.  With a NaN among the keys the outcome
    depends on the comparisons the algorithm happens to make: it is some
    arrangement of the items, which the run-time system gives. *)
Definition stable_sort {A} (key : A -> lat) (l : list A) : list A :=
  fold_right (insert_sorted key) [] l.

Definition sorted {rt : Runtime} {A} (key : A -> lat) (l : list A) : list A :=
  if existsb is_nan (map key l) then
    map snd
      (order_by fst
         (combine (map (nan_sort_place (map key l)) (seq 0 (length l))) l))
  else stable_sort key l.

(** [extract_latency_by_country(res, {country: nodes}).get(country, inf)] *)
Definition country_latency (country : str) (nodes : list str)
  (result : json) : res lat :=
  d <- extract_latency_by_country result [(country, nodes)] ;;
  Ok (match dict_get country d with Some l => l | None => float_inf end).

(** [for link, h in all_pairs: if h == host: latencies[link] = lat] *)
Fixpoint assign_latency (all_pairs : list pair) (host : str) (l : lat)
  (latencies : dict lat) : dict lat :=
  match all_pairs with
  | [] => latencies
  | (link, h) :: rest =>
      assign_latency rest host l
        (if eqb_str h host then dict_set link l latencies else latencies)
  end.

(** [for host, res in results.items()] *)
Fixpoint latency_table (country : str) (nodes : list str)
  (all_pairs : list pair) (results : dict json) (latencies : dict lat)
  : res (dict lat) :=
  match results with
  | [] => Ok latencies
  | (host, result) :: rest =>
      l <- country_latency country nodes result ;;
      latency_table country nodes all_pairs rest
        (assign_latency all_pairs host l latencies)
  end.

(** The ranked links of one country. *)
Definition sorted_links {rt : Runtime} (country : str) (nodes : list str)
  (all_pairs : list pair) (results : dict json) : res (list str) :=
  latencies <- latency_table country nodes all_pairs results [] ;;
  Ok (map fst (sorted snd latencies)).

Definition OUTPUT_DIR : str := u "configs".

(** [os.path.join(a, b)] on a POSIX system *)
Definition path_join (a b : str) : str :=
  if starts_with (u "/") b then b
  else match rev a with
       | [] => b
       | c :: _ => if c =? 47 then a ++ b else a ++ u "/" ++ b
       end.

(** What a step of the writer leaves behind: the exception that stopped it,
    if any, the files written so far and the state of the run. *)
Definition outcome := (option exn * files * world)%type.

(** [for proto, items in groups.items()] *)
Fixpoint write_protocols {rt : Runtime} (dest_dir : str) (protos : list str)
  (ranked : list str) (fs : files) (w : world) : outcome :=
  match protos with
  | [] => (None, fs, w)
  | proto :: rest =>
      let lst := filter (fun l => eqb_str (detect_protocol l) proto) ranked in
      match rename_all lst w with
      | (Raise e, w1) => (Some e, fs, w1)
      | (Ok renamed, w1) =>
          write_protocols dest_dir rest ranked
            (save_to_file (path_join dest_dir (proto ++ u ".txt")) renamed fs)
            w1
      end
  end.

Definition light_size : nat := 30.

(** The part of the per-country loop that follows the ranking. *)
Definition write_country {rt : Runtime} (country : str)
  (groups : dict (list pair)) (ranked : list str) (fs : files) (w : world)
  : outcome :=
  match rename_all ranked w with
  | (Raise e, w1) => (Some e, fs, w1)
  | (Ok renamed_all, w1) =>
      let dest_dir := path_join OUTPUT_DIR country in
      match write_protocols dest_dir (dict_keys groups) ranked fs w1 with
      | (Some e, fs1, w2) => (Some e, fs1, w2)
      | (None, fs1, w2) =>
          let fs2 :=
            save_to_file (path_join dest_dir (u "all.txt")) renamed_all fs1 in
          let fs3 :=
            save_to_file (path_join dest_dir (u "light.txt"))
              (firstn light_size renamed_all) fs2 in
          (None, fs3, w2)
      end
  end.

(** [for country, groups in categorized.items()] *)
Fixpoint process_countries {rt : Runtime} (categorized : categorized_t)
  (country_nodes : dict (list str)) (all_pairs : list pair)
  (results : dict json) (fs : files) (w : world) : outcome :=
  match categorized with
  | [] => (None, fs, w)
  | (country, groups) :: rest =>
      let nodes :=
        match dict_get country country_nodes with
        | Some ns => ns
        | None => []
        end in
      match sorted_links country nodes all_pairs results with
      | Raise e => (Some e, fs, w)
      | Ok ranked =>
          match write_country country groups ranked fs w with
          | (Some e, fs1, w1) => (Some e, fs1, w1)
          | (None, fs1, w1) =>
              process_countries rest country_nodes all_pairs results fs1 w1
          end
      end
  end.

(** [{host for _, host in all_pairs}]: the elements of the set, in the
    order in which they are added. *)
Definition set_add (seen : list str) (h : str) : list str :=
  if existsb (eqb_str h) seen then seen else seen ++ [h].

Definition set_of (l : list str) : list str := fold_left set_add l [].

(** [list(s)] for a set [s] *)
Definition list_of_set {rt : Runtime} (elems : list str) : list str :=
  order_by (set_slot elems) elems.

(** [hosts = list({host for _, host in all_pairs})] *)
Definition hosts_of {rt : Runtime} (all_pairs : list pair) : list str :=
  list_of_set (set_of (map snd all_pairs)).

(** [tasks = [run_ping_once(client, h) for h in hosts]], gathered: one
    probe for each element of [hosts], with what it returns and what it
    does. *)
Definition probe_all {rt : Runtime} (envs : str -> check_host)
  (hosts : list str) : list (str * (json * list event)) :=
  map (fun h => (h, run_ping_once (envs h) h default_retries)) hosts.

(** [results = dict(zip(hosts, ping_results))] *)
Definition results_of (probes : list (str * (json * list event)))
  : dict json :=
  dict_of_pairs (map (fun p => (fst p, fst (snd p))) probes).

(** [main_async] from the fetched configs on: [country_nodes] is the
    directory, [configs] what the collector found and [envs] the checking
    service as each probe sees it. *)
Definition main_async {rt : Runtime} (country_nodes : dict (list str))
  (configs : list str) (envs : str -> check_host)
  (fs : files) (w : world) : outcome :=
  let (categorized, all_pairs) :=
    categorize configs (dict_keys country_nodes) ([], []) in
  let hosts := hosts_of all_pairs in
  let results := results_of (probe_all envs hosts) in
  process_countries categorized country_nodes all_pairs results fs w.

(** ** A run-time system for worked examples

    Plain ASCII runs: no letter outside ASCII, name resolution that always
    fails with [gaierror], a geolocation service that is down, the network
    location of a URL read off between [://] and the first of [/], [?] and
    [#], sets that list their elements in the order in which they were
    added, and floats printed in full. *)
Definition simple_netloc (link : str) : res str :=
  match split1 (u "://") link with
  | [_; rest] =>
      Ok (fst (span (fun c => negb ((c =? 47) || (c =? 63) || (c =? 35)))
                 rest))
  | _ => Ok []
  end.

(** The decimal expansion of [m * 2 ^ e], which is finite: the digits of
    the whole part, a point, and the digits of the fraction, at least one.
    (Python prints the shortest text that reads back as the float, and
    switches to the exponent notation for the very large and the very
    small; for a float such as 0.5 or 2.25 the two texts are the same.) *)
Fixpoint strip_zeros (rev_digits : str) : str :=
  match rev_digits with
  | 48 :: r => strip_zeros r
  | _ => rev_digits
  end.

Definition pad_zeros (n : nat) (s : str) : str :=
  repeat 48 (n - length s) ++ s.

Definition decimal_text (m : positive) (e : Z) : str :=
  match e with
  | Zneg p =>
      let k := Pos.to_nat p in
      let scaled := Npos m * 5 ^ Npos p in
      let whole := scaled / 10 ^ Npos p in
      let frac := pad_zeros k (dec_of_N (scaled mod 10 ^ Npos p)) in
      dec_of_N whole ++ [46]
        ++ match rev (strip_zeros (rev frac)) with
           | [] => [48]
           | ds => ds
           end
  | _ => dec_of_N (Npos m * 2 ^ Z.to_N e) ++ [46; 48]
  end.

Definition float_text (nan inf : str) (f : float) : str :=
  match f with
  | S754_nan => nan
  | S754_infinity s => (if s then [45] else []) ++ inf
  | S754_zero s => (if s then [45] else []) ++ [48; 46; 48]
  | S754_finite s m e => (if s then [45] else []) ++ decimal_text m e
  end.

Definition example_runtime : Runtime := {|
  float_repr := float_text (u "nan") (u "inf");
  float_json := float_text (u "NaN") (u "Infinity");
  container_repr := fun _ => [];
  unicode_lower := fun c => [c];
  unicode_upper := fun c => [c];
  unicode_isalpha := fun _ => false;
  unicode_decimal := fun _ => None;
  re_template := fun _ => Raise ReError;
  urlsplit_netloc := simple_netloc;
  gethostbyname := fun _ _ => GaiError;
  geo_lookup := fun _ _ => None;
  randint := fun _ => 123456;
  set_slot := fun _ _ => 0;
  nan_sort_place := fun _ _ => 0
|}.

Definition world0 : world := {| geo_cache := []; clock := O |}.

(** A poll that lets the loop go on: another status than 200, or a body
    that is read and is not truthy. *)
Definition pending {rt : Runtime} (r : poll_reply) : bool :=
  match r with
  | PollFails => false
  | PollReply status body =>
      if status =? 200 then
        match body with
        | Ok b => negb (json_truthy b)
        | Raise _ => false
        end
      else true
  end.

(** A checking service that answers 503 twice, then accepts the request
    and delivers the result at the third poll; and one that always answers
    503. *)
Definition sample_body : json :=
  JObj [(u "de1.node.check-host.net",
         JArr [JArr [JArr [JStr (u "OK"); JInt 1]]])].

Definition env_third_time : check_host := {|
  submit := fun n =>
    match n with
    | 1%nat | 2%nat => Status503
    | _ => Submitted (Some (u "abc"))
    end;
  poll := fun _ _ i =>
    match i with
    | 0%nat => PollReply 200 (Ok JNull)
    | 1%nat => PollReply 404 (Raise JSONDecodeError)
    | _ => PollReply 200 (Ok sample_body)
    end
|}.

Definition env_always_503 : check_host := {|
  submit := fun _ => Status503;
  poll := fun _ _ _ => PollFails
|}.

(** A ranking of thirty-five links, longer than the light file. *)
Definition sample_ranked : list str :=
  map (fun n => u "trojan://h" ++ dec_of_N n ++ u ".example.org/path#old")
    (map N.of_nat (seq 1 35)).

(** The protocol-specific rewrite that [rename_line] selects, before its
    [except] clause. *)
Definition rename_body {rt : Runtime} (proto link ip port tag : str)
  : res str :=
  if eqb_str proto (u "vmess") then rename_vmess_body link ip port tag
  else if eqb_str proto (u "shadowsocks")
       then rename_shadowsocks_body link ip port tag
  else rename_generic_body link ip port tag.

(** What is left of [rename_line] once the host and the port are known. *)
Definition rename_with {rt : Runtime} (proto link host port : str)
  (w : world) : res str * world :=
  match resolve_ip host w with
  | (Raise e, w1) => (Raise e, w1)
  | (Ok ip, w1) =>
      let (country, w2) := get_country_by_ip ip w1 in
      match country_flag country with
      | Raise e => (Raise e, w2)
      | Ok flag =>
          let (tag, w3) := make_tag flag w2 in
          (Ok (rename_by_proto proto link ip port tag), w3)
      end
  end.

(** ** The aggregator as the specification words it

    The samples of a country are the latencies of all observations
    [[status, latency]] with status ["OK"], taken over the country's nodes
    from the first list of each node's entry; the latency of the country is
    their arithmetic mean, or infinity when there is none. *)
Definition pair_shaped (item : json) : bool :=
  match item with
  | JArr [_; _] => true
  | _ => false
  end.

Definition ok_sample (item : json) : list json :=
  match item with
  | JArr [status; ping] => if is_OK status then [ping] else []
  | _ => []
  end.

Definition node_items (results : dict json) (node : str) : list json :=
  match dict_get node results with
  | Some (JArr (JArr items :: _)) => items
  | _ => []
  end.

Definition spec_samples (results : dict json) (nodes : list str)
  : list json :=
  flat_map (fun node => flat_map ok_sample (node_items results node)) nodes.

Definition is_number (v : json) : bool :=
  match v with
  | JInt _ | JBool _ | JFloat _ => true
  | _ => false
  end.

(** The number a sample stands for, and the samples added up from the
    left, as long as the additions stay in range. *)
Definition number_of (v : json) : num :=
  match v with
  | JInt z => NumInt z
  | JBool b => NumInt (if b then 1 else 0)
  | JFloat f => NumFloat f
  | _ => NumInt 0
  end.

Fixpoint add_up (ns : list num) (acc : num) : res num :=
  match ns with
  | [] => Ok acc
  | n :: rest => s <- num_add acc n ;; add_up rest s
  end.

(** [sum / count], or infinity for no sample at all. *)
Definition spec_mean (pings : list json) : res lat :=
  match pings with
  | [] => Ok float_inf
  | _ =>
      s <- add_up (map number_of pings) (NumInt 0) ;;
      true_divide s (Z.of_nat (length pings))
  end.

(** A raw result in which the first observation of the node carries a third
    field, as the checking service reports the address it pinged. *)
Definition result_with_address : dict json :=
  [(u "de1.node.check-host.net",
    JArr [JArr [JArr [JStr (u "TIMEOUT"); JInt 3; JStr (u "1.2.3.4")];
                JArr [JStr (u "OK"); JInt 1]]])].

Definition one_country : dict (list str) :=
  [(u "de", [u "de1.node.check-host.net"])].

(** A raw result of the shape the specification describes. *)
Definition result_of_pairs : dict json :=
  [(u "de1.node.check-host.net",
    JArr [JArr [JArr [JStr (u "OK"); JInt 1];
                JArr [JStr (u "TIMEOUT"); JInt 3];
                JArr [JStr (u "OK"); JInt 3]]])].

(** ** Orders on lists, for the ranking *)

(** [x] occurs somewhere before an occurrence of [y]. *)
Definition before {A} (x y : A) (l : list A) : Prop :=
  exists l1 l2 l3, l = l1 ++ x :: l2 ++ y :: l3.

(** The first occurrence of [x] comes before every occurrence of [y]: the
    discovery order of two distinct links. *)
Definition first_before (x y : str) (l : list str) : Prop :=
  x <> y /\ exists l1 l2, l = l1 ++ x :: l2 /\ ~ In x l1 /\ ~ In y l1.

(** Every link has one host. *)
Definition functional (all_pairs : list pair) : Prop :=
  forall l h h', In (l, h) all_pairs -> In (l, h') all_pairs -> h = h'.

(** The host under which the main flow files a link. *)
Definition link_host {rt : Runtime} (link : str) : str :=
  strip_port (extract_host link (detect_protocol link)).

(** The pairs the main flow collects, as a comprehension. *)
Definition pairs_of {rt : Runtime} (configs : list str) : list pair :=
  flat_map (fun link => match link_host link with
                        | [] => []
                        | host => [(link, host)]
                        end) configs.

(** Two runs of the ranking used in the examples: a link collected twice,
    and two links whose hosts the run enumerates in the reverse of the
    discovery order. *)
Definition link_a : str := u "trojan://a.example.org".
Definition link_b : str := u "trojan://b.example.org".
Definition host_a : str := u "a.example.org".
Definition host_b : str := u "b.example.org".

(** How many times a link occurs in a list. *)
Definition occurrences (link : str) (links : list str) : nat :=
  length (filter (eqb_str link) links).

Definition nodes_de : dict (list str) :=
  [(u "de", [u "de1.node.check-host.net"])].

(** The part of [s] before the first [c]. *)
Definition upto (c : char) (s : str) : str :=
  fst (span (fun x => negb (x =? c)) s).

(** A shadowsocks link with plaintext credentials whose base64 reading
    succeeds. *)
Definition ss_plain_link : str :=
  u "ss://aes-128-gcm:abcxxA6@1.2.3.4:8388#old".

(** The vmess link of the specification, the base64 of
    [{"add":"1.2.3.4","port":"443"}], and a tag as [rename_line] makes
    them. *)
Definition vmess_link : str :=
  u "vmess://eyJhZGQiOiIxLjIuMy40IiwicG9ydCI6IjQ0MyJ9".

Definition shatal_tag : str := white_flag ++ u " ShatalVPN 123456".

(** What the classifier does first with a vmess link: the configuration it
    reads from the link. *)
Definition vmess_config (link : str) : res json :=
  d <- b64_decode (skipn 8 link) ;; json_loads d.

(** ** Values that [json.dumps] and [json.loads] carry back and forth

    Code points of a string are Unicode scalar values; in a plain value the
    integers are of at most [max_str_digits] digits, the strings hold
    scalar values only and the keys of each object are distinct. *)
Definition scalar (c : char) : bool :=
  (c <=? 1114111) && negb ((55296 <=? c) && (c <=? 57343)).

Definition scalar_str (s : str) : bool := forallb scalar s.

Fixpoint keys_distinct (ks : list str) : bool :=
  match ks with
  | [] => true
  | k :: rest => negb (existsb (eqb_str k) rest) && keys_distinct rest
  end.

Definition int_fits (z : Z) : bool :=
  (length (dec_of_N (Z.abs_N z)) <=? max_str_digits)%nat.

Fixpoint json_plain (v : json) : bool :=
  match v with
  | JNull | JBool _ | JFloat _ => true
  | JInt z => int_fits z
  | JStr s => scalar_str s
  | JArr items => forallb json_plain items
  | JObj pairs =>
      keys_distinct (map fst pairs)
      && forallb (fun kv => let '(k, x) := kv in scalar_str k && json_plain x)
           pairs
  end.

(** A bound on the nested calls the scanner needs for a value. *)
Fixpoint json_size (v : json) : nat :=
  match v with
  | JArr items => S (fold_right (fun x acc => S (json_size x + acc)) O items)
  | JObj pairs =>
      S (fold_right (fun kv acc => let '(_, x) := kv in S (json_size x + acc))
           O pairs)
  | _ => 1
  end.

(** What may follow a value inside a text that [json.dumps] wrote. *)
Definition delimited (rest : str) : bool :=
  match rest with
  | [] => true
  | c :: _ => (c =? 44) || (c =? 93) || (c =? 125)
  end.

(** What [rename_vmess] reads from a link, and the configuration it writes
    back. *)
Definition vmess_payload (link : str) : res json :=
  raw <- second (split1 (u "://") link) ;;
  d <- b64_decode raw ;;
  json_loads d.

Definition renamed_config (pairs : dict json) (ip : str) (n : Z) (tag : str)
  : json :=
  JObj (dict_update pairs
          [(u "add", JStr ip); (u "port", JInt n); (u "ps", JStr tag)]).

(** The floats of a value. *)
Fixpoint json_floats (v : json) : list float :=
  match v with
  | JFloat f => [f]
  | JArr items => flat_map json_floats items
  | JObj pairs => flat_map (fun kv => json_floats (snd kv)) pairs
  | _ => []
  end.

(** The text that [json.dumps] writes for a float is ASCII and, followed
    by a delimiter, is scanned back to the float: so Python prints them. *)
Definition float_reads_back {rt : Runtime} (f : float) : Prop :=
  forallb is_ascii (float_json f) = true
  /\ forall fuel rest,
       delimited rest = true ->
       scan_once (S fuel) (float_json f ++ rest) = Ok (JFloat f, rest).

Definition floats_read_back {rt : Runtime} (v : json) : Prop :=
  forall f, In f (json_floats v) -> float_reads_back f.

(** What the round trip says of one value: followed by a delimiter, its
    text is scanned back to it. *)
Definition reads_back {rt : Runtime} (v : json) : Prop :=
  json_plain v = true -> floats_read_back v ->
  forall fuel rest,
    (json_size v <= fuel)%nat -> delimited rest = true ->
    scan_once fuel (json_dumps v ++ rest) = Ok (v, rest).

(** A run-time system under which [rename_line] cannot raise: name
    resolution fails with [gaierror] only, and the letters outside ASCII
    leave room for the regional indicators. *)
Definition benign (rt : Runtime) : Prop :=
  (forall n host e, gethostbyname n host <> OtherError e)
  /\ (forall c, unicode_isalpha c = true -> c <= 986714).

(** ** Vocabulary for the helpers' properties *)

(** An ASCII letter, and the regional indicator symbol that stands for it
    in a flag (U+1F1E6 for [A] to U+1F1FF for [Z]). *)
Definition ascii_letter (c : char) : bool :=
  ((65 <=? c) && (c <=? 90)) || ((97 <=? c) && (c <=? 122)).

Definition regional_indicator (c : char) : char :=
  127462 + (if c <? 97 then c - 65 else c - 97).

(** [str.lower] on one ASCII code point. *)
Definition lower_ascii (c : char) : char :=
  if (65 <=? c) && (c <=? 90) then c + 32 else c.

(** A character a scheme may hold, in either case. *)
Definition scheme_char_any_case (c : char) : bool :=
  is_ascii c && is_scheme_char (lower_ascii c).

(** ** Counting what a probe does *)

Definition is_submit (e : event) : bool :=
  match e with EvSubmit _ => true | _ => false end.

Definition is_poll (e : event) : bool :=
  match e with EvPoll _ _ => true | _ => false end.

Definition count_events (p : event -> bool) (t : list event) : nat :=
  length (filter p t).

(** Ten polls of one attempt, each after a sleep of two seconds. *)
Definition polls_from (attempt i n : nat) : list event :=
  flat_map (fun j => [EvSleep2; EvPoll attempt j]) (seq i n).

(** A submission that is not accepted: answered 503, or failing. *)
Definition refused (r : submit_reply) : bool :=
  match r with
  | Status503 | SubmitFails => true
  | Submitted _ => false
  end.

(** ** The directory of probe nodes: [get_nodes_by_country]

    The answer of the service is what the [try] block leaves in [data], or
    [None] when anything in that block fails. *)

(** [x.items()], which only a [dict] has. *)
Definition json_items (x : json) : res (list (str * json)) :=
  match x with
  | JObj d => Ok d
  | _ => Raise AttributeError
  end.

(** [for node, info in ...items()] *)
Fixpoint nodes_loop {rt : Runtime} (items : list (str * json))
  (mapping : dict (list str)) : res (dict (list str)) :=
  match items with
  | [] => Ok mapping
  | (node, info) :: rest =>
      loc <- json_get info (u "location") (JArr []) ;;
      match loc with
      | JArr (first :: _) =>
          nodes_loop rest
            (dict_modify (py_lower (py_str first)) []
               (fun l => l ++ [node]) mapping)
      | _ => nodes_loop rest mapping
      end
  end.

Definition get_nodes_by_country {rt : Runtime} (reply : option json)
  : res (dict (list str)) :=
  match reply with
  | None => Ok []
  | Some data =>
      nodes <- json_get data (u "nodes") (JObj []) ;;
      items <- json_items nodes ;;
      nodes_loop items []
  end.

(** The country under which a node of the directory is filed, if any, and
    the nodes the directory files under a country. *)
Definition node_country {rt : Runtime} (info : json) : option str :=
  match info with
  | JObj d =>
      match dict_get (u "location") d with
      | Some (JArr (first :: _)) => Some (py_lower (py_str first))
      | _ => None
      end
  | _ => None
  end.

Definition located_in {rt : Runtime} (country : str) (item : str * json)
  : bool :=
  match node_country (snd item) with
  | Some c => eqb_str c country
  | None => false
  end.

Definition nodes_of {rt : Runtime} (country : str)
  (items : list (str * json)) : list str :=
  map fst (filter (located_in country) items).

Definition is_object (x : json) : bool :=
  match x with JObj _ => true | _ => false end.

(** A directory of two German nodes and one without a location. *)
Definition sample_directory : json :=
  JObj [(u "nodes",
         JObj [(u "de1.node.check-host.net",
                JObj [(u "location", JArr [JStr (u "DE"); JStr (u "Germany")])]);
               (u "xx1.node.check-host.net", JObj []);
               (u "de4.node.check-host.net",
                JObj [(u "location", JArr [JStr (u "de")])])])].

(** ** The collector: [re.findall] over a fetched body *)

(** What the regular expression engine takes from the Unicode database:
    [\w] outside ASCII is [str.isalnum] of the code point. *)
Class Unicode : Type := {
  unicode_isalnum : char -> bool
}.

(** The class [[\w+.-]] *)
Definition is_word_plus {uc : Unicode} (c : char) : bool :=
  (if c <? 128 then is_alnum_ascii c || (c =? 95) else unicode_isalnum c)
  || (c =? 43) || (c =? 46) || (c =? 45).

(** The class [[^\s]] *)
Definition not_space (c : char) : bool := negb (is_space c).

(** [[a-zA-Z][\w+.-]*://[^\s]+] at the head of [s]: the match and what
    follows it.  The star cannot give characters back, for [:] is not of
    its class. *)
Definition match_config {uc : Unicode} (s : str) : option (str * str) :=
  match s with
  | c :: r =>
      if ascii_letter c then
        let (w, r1) := span is_word_plus r in
        if starts_with (u "://") r1 then
          match span not_space (skipn 3 r1) with
          | ([], _) => None
          | (body, r2) => Some (c :: w ++ u "://" ++ body, r2)
          end
        else None
      else None
  | [] => None
  end.

(** All non-overlapping matches, left to right. *)
Fixpoint findall_loop {uc : Unicode} (fuel : nat) (s : str) : list str :=
  match fuel with
  | O => []
  | S f =>
      match s with
      | [] => []
      | _ :: s' =>
          match match_config s with
          | Some (m, rest) => m :: findall_loop f rest
          | None => findall_loop f s'
          end
      end
  end.

(** [re.findall(r"[a-zA-Z][\w+.-]*://[^\s]+", blob)] *)
Definition findall_configs {uc : Unicode} (blob : str) : list str :=
  findall_loop (length blob) blob.

Definition example_unicode : Unicode := {|
  unicode_isalnum := fun _ => false
|}.

(** ** [send_request] and the main flow from the answers of the network *)

(** The text of the answer, or the empty string when the download fails. *)
Definition send_request (answer : option str) : str :=
  match answer with
  | Some text => text
  | None => []
  end.

(** The configs of all the URLs, in the order in which they are fetched. *)
Definition collect {uc : Unicode} (answers : list (option str)) : list str :=
  flat_map
    (fun answer => findall_configs (maybe_base64_decode (send_request answer)))
    answers.

(** [main_async] as a whole: [reply] is the answer of the node directory,
    [answers] those of the URLs. *)
Definition main_flow {rt : Runtime} {uc : Unicode} (reply : option json)
  (answers : list (option str)) (envs : str -> check_host)
  (fs : files) (w : world) : res outcome :=
  country_nodes <- get_nodes_by_country reply ;;
  Ok (main_async country_nodes (collect answers) envs fs w).

(** A text the collector's pattern matches from end to end: a letter, more
    characters of a scheme, [://], and a body without blanks. *)
Definition config_shaped {uc : Unicode} (link : str) : Prop :=
  exists c w body,
    link = c :: w ++ u "://" ++ body
    /\ ascii_letter c = true
    /\ forallb is_word_plus w = true
    /\ body <> []
    /\ forallb not_space body = true.

(** A list in which nothing comes before something strictly smaller. *)
Definition ordered {A} (key : A -> lat) (l : list A) : Prop :=
  forall a b, before a b l -> lat_ltb (key b) (key a) = false.

(** ** The groups of the main flow, as comprehensions *)

(** The collected pairs of one protocol, in the order of discovery. *)
Definition of_protocol {rt : Runtime} (proto : str) (pairs : list pair)
  : list pair :=
  filter (fun p => eqb_str (detect_protocol (fst p)) proto) pairs.

(** What [categorized] holds for a country and a protocol; nothing when
    either key is missing. *)
Definition group (categorized : categorized_t) (country proto : str)
  : list pair :=
  match dict_get country categorized with
  | Some groups =>
      match dict_get proto groups with
      | Some items => items
      | None => []
      end
  | None => []
  end.

(** What the loop keeps true of [categorized] and [all_pairs]. *)
Definition groups_agree {rt : Runtime} (countries : list str) (categorized : categorized_t)
  (all_pairs : list pair) : Prop :=
  (forall c proto, In c countries ->
                   group categorized c proto = of_protocol proto all_pairs)
  /\ (forall c g proto items,
        dict_get c categorized = Some g -> dict_get proto g = Some items ->
        items <> [])
  /\ (forall c, In c countries ->
                (dict_get c categorized = None <-> all_pairs = [])).

(** The ranked links of one protocol, and the file written for it. *)
Definition ranked_of {rt : Runtime} (proto : str) (ranked : list str)
  : list str :=
  filter (fun l => eqb_str (detect_protocol l) proto) ranked.

Definition protocol_file (dest_dir proto : str) : str :=
  path_join dest_dir (proto ++ u ".txt").

(** ** The order of [<] on floats *)

(** The place of a float that is not NaN in the order of [<]: the sign
    (with the zeros in the middle), then the exponent, then the digits. *)
Definition float_rank (f : float) : Z * Z * Z :=
  match f with
  | S754_infinity true => (-2, 0, 0)%Z
  | S754_finite true m e => (-1, - e, Zneg m)%Z
  | S754_zero _ | S754_nan => (0, 0, 0)%Z
  | S754_finite false m e => (1, e, Zpos m)%Z
  | S754_infinity false => (2, 0, 0)%Z
  end.

Definition rank_lt (a b : Z * Z * Z) : Prop :=
  let '(a1, a2, a3) := a in
  let '(b1, b2, b3) := b in
  (a1 < b1 \/ (a1 = b1 /\ (a2 < b2 \/ (a2 = b2 /\ a3 < b3))))%Z.

(** A vmess link whose payload holds a float, the base64 of
    [{"add":"1.2.3.4","port":"443","aid":0.5}], and that payload. *)
Definition float_half : float := S754_finite false 4503599627370496 (-53).

Definition vmess_float_link : str :=
  u "vmess://eyJhZGQiOiIxLjIuMy40IiwicG9ydCI6IjQ0MyIsImFpZCI6MC41fQ==".

Definition float_payload : dict json :=
  [(u "add", JStr (u "1.2.3.4")); (u "port", JStr (u "443"));
   (u "aid", JFloat float_half)].

(** A raw result whose samples are an [int] of 401 digits, a float and a
    string. *)
Definition huge_then_float : dict json :=
  [(u "n1",
    JArr [JArr [JArr [JStr (u "OK"); JInt (10 ^ 400)];
                JArr [JStr (u "OK"); JFloat float_half];
                JArr [JStr (u "OK"); JStr (u "x")]]])].

(** ** Runs for the ranking examples *)

(** The example run-time system with sets that list [host_b] first. *)
Definition b_first_runtime : Runtime := {|
  float_repr := float_repr (Runtime := example_runtime);
  float_json := float_json (Runtime := example_runtime);
  container_repr := container_repr (Runtime := example_runtime);
  unicode_lower := unicode_lower (Runtime := example_runtime);
  unicode_upper := unicode_upper (Runtime := example_runtime);
  unicode_isalpha := unicode_isalpha (Runtime := example_runtime);
  unicode_decimal := unicode_decimal (Runtime := example_runtime);
  re_template := re_template (Runtime := example_runtime);
  urlsplit_netloc := urlsplit_netloc (Runtime := example_runtime);
  gethostbyname := gethostbyname (Runtime := example_runtime);
  geo_lookup := geo_lookup (Runtime := example_runtime);
  randint := randint (Runtime := example_runtime);
  set_slot := fun _ h => if eqb_str h host_b then 0 else 1;
  nan_sort_place := nan_sort_place (Runtime := example_runtime)
|}.

(** A checking service that never accepts a request, and one that
    measures [host_b] only. *)
Definition envs_down (h : str) : check_host := env_always_503.

Definition envs_b_only (h : str) : check_host :=
  if eqb_str h host_b then env_third_time else env_always_503.

(** The result of the probe of a host. *)
Definition probe_result {rt : Runtime} (envs : str -> check_host) (h : str)
  : json :=
  fst (run_ping_once (envs h) h default_retries).

(** Samples whose mean is rounded: 0.1, 0.2 and 0.3 for [host_a], 0.2 for
    [host_b]. *)
Definition tenths (n : N) : json := JFloat (float_of_decimal false n (-1)).

Definition rounded_results : dict json :=
  [(host_a,
    JObj [(u "de1.node.check-host.net",
           JArr [JArr [JArr [JStr (u "OK"); tenths 1];
                       JArr [JStr (u "OK"); tenths 2];
                       JArr [JStr (u "OK"); tenths 3]]])]);
   (host_b,
    JObj [(u "de1.node.check-host.net",
           JArr [JArr [JArr [JStr (u "OK"); tenths 2]]])])].

(** ** The lines of a file *)

(** [text.split("\n")] *)
Fixpoint lines_of (text : str) : list str :=
  match text with
  | [] => [[]]
  | c :: t =>
      if c =? 10 then [] :: lines_of t
      else match lines_of t with
           | l :: ls => (c :: l) :: ls
           | [] => [[c]]
           end
  end.

Definition no_line_feed (s : str) : Prop := ~ In 10 s.

(** A run-time system whose replacement templates know the escape [\n],
    which stands for a line feed, and no other; and links whose host holds
    a backslash and the letter n. *)
Fixpoint expand_newlines (repl : str) : res str :=
  match repl with
  | [] => Ok []
  | 92 :: 110 :: r => x <- expand_newlines r ;; Ok (10 :: x)
  | 92 :: _ => Raise ReError
  | c :: r => x <- expand_newlines r ;; Ok (c :: x)
  end.

Definition newline_runtime : Runtime := {|
  float_repr := float_repr (Runtime := example_runtime);
  float_json := float_json (Runtime := example_runtime);
  container_repr := container_repr (Runtime := example_runtime);
  unicode_lower := unicode_lower (Runtime := example_runtime);
  unicode_upper := unicode_upper (Runtime := example_runtime);
  unicode_isalpha := unicode_isalpha (Runtime := example_runtime);
  unicode_decimal := unicode_decimal (Runtime := example_runtime);
  re_template := fun repl => x <- expand_newlines repl ;; Ok (fun _ => x);
  urlsplit_netloc := urlsplit_netloc (Runtime := example_runtime);
  gethostbyname := gethostbyname (Runtime := example_runtime);
  geo_lookup := geo_lookup (Runtime := example_runtime);
  randint := randint (Runtime := example_runtime);
  set_slot := set_slot (Runtime := example_runtime);
  nan_sort_place := nan_sort_place (Runtime := example_runtime)
|}.

Definition newline_links : list str :=
  map (fun n => u "trojan://a" ++ [92; 110] ++ u "x" ++ dec_of_N n)
    (map N.of_nat (seq 1 16)).

(** * Properties *)

Section Prober.
Context {rt : Runtime}.

Lemma poll_loop_returns env req_id attempt body :
  forall k remaining i,
    (k < remaining)%nat ->
    (forall j, (j < k)%nat -> pending (poll env req_id attempt (i + j)) = true) ->
    poll env req_id attempt (i + k) = PollReply 200 (Ok body) ->
    json_truthy body = true ->
    fst (poll_loop env req_id attempt remaining i) = PollReturned body.
Proof.
  induction k as [|k IH]; intros remaining i Hlt Hpend Hk Htruthy.
  - destruct remaining as [|r]; [lia|]. simpl.
    rewrite Nat.add_0_r in Hk. rewrite Hk. simpl. rewrite Htruthy. reflexivity.
  - destruct remaining as [|r]; [lia|]. simpl.
    assert (Hrec : fst (poll_loop env req_id attempt r (S i)) = PollReturned body).
    { apply IH.
      - lia.
      - intros j Hj. replace (S i + j)%nat with (i + S j)%nat by lia.
        apply Hpend. lia.
      - replace (S i + k)%nat with (i + S k)%nat by lia. exact Hk.
      - exact Htruthy. }
    specialize (Hpend O ltac:(lia)). rewrite Nat.add_0_r in Hpend.
    destruct (poll_loop env req_id attempt r (S i)) as [o t]. simpl in Hrec. subst o.
    unfold pending in Hpend.
    destruct (poll env req_id attempt i) as [|status b]; [discriminate|].
    destruct (status =? 200); [|reflexivity].
    destruct b as [b|e]; [|discriminate].
    destruct (json_truthy b); [discriminate|reflexivity].
Qed.

Lemma attempts_step env k attempt :
  attempts env (S k) attempt
  = match submit env attempt with
    | Status503 =>
        let (r, t) := attempts env k (S attempt) in
        (r, EvSubmit attempt :: EvSleepJitter :: t)
    | SubmitFails =>
        let (r, t) := attempts env k (S attempt) in
        (r, EvSubmit attempt :: EvSleep2 :: t)
    | Submitted None => (empty_result, [EvSubmit attempt])
    | Submitted (Some req_id) =>
        match poll_loop env req_id attempt 10 0 with
        | (PollReturned body, t) => (body, EvSubmit attempt :: t)
        | (PollExhausted, t) => (empty_result, EvSubmit attempt :: t)
        | (PollRaised, t) =>
            let (r, t') := attempts env k (S attempt) in
            (r, EvSubmit attempt :: t ++ EvSleep2 :: t')
        end
    end.
Proof. reflexivity. Qed.

Lemma truthy_not_empty body : json_truthy body = true -> body <> empty_result.
Proof. intros H ->. discriminate H. Qed.


End Prober.


(** ** Strings and dictionaries: basic facts *)

Lemma eqb_str_eq a b : eqb_str a b = true <-> a = b.
Proof.
  revert b. induction a as [|x a IH]; intros [|y b]; simpl; split;
    try congruence; try reflexivity.
  - intros H. apply andb_true_iff in H. destruct H as [Hx Hr].
    apply N.eqb_eq in Hx. apply IH in Hr. congruence.
  - intros H. injection H as -> ->. rewrite N.eqb_refl. simpl. apply IH.
    reflexivity.
Qed.

Lemma eqb_str_refl a : eqb_str a a = true.
Proof. apply eqb_str_eq. reflexivity. Qed.

Lemma eqb_str_neq a b : eqb_str a b = false <-> a <> b.
Proof.
  split.
  - intros H E. apply eqb_str_eq in E. congruence.
  - intros H. destruct (eqb_str a b) eqn:E; [|reflexivity].
    apply eqb_str_eq in E. contradiction.
Qed.

Lemma str_eq_dec (a b : str) : {a = b} + {a <> b}.
Proof. apply (list_eq_dec N.eq_dec). Qed.

Lemma dict_get_set_same {V} k (v : V) d :
  dict_get k (dict_set k v d) = Some v.
Proof.
  induction d as [|[k' v'] d IH]; simpl.
  - rewrite eqb_str_refl. reflexivity.
  - destruct (eqb_str k k') eqn:E; simpl; rewrite E; [reflexivity | exact IH].
Qed.

Lemma dict_get_set_other {V} k k' (v : V) d :
  k <> k' -> dict_get k (dict_set k' v d) = dict_get k d.
Proof.
  intros Hne. induction d as [|[k2 v2] d IH]; simpl.
  - apply eqb_str_neq in Hne. rewrite Hne. reflexivity.
  - destruct (eqb_str k' k2) eqn:E; simpl.
    + apply eqb_str_eq in E. subst k2. apply eqb_str_neq in Hne.
      rewrite Hne. reflexivity.
    + rewrite IH. reflexivity.
Qed.

Lemma starts_with_app p s : starts_with p (p ++ s) = true.
Proof.
  induction p as [|x p IH]; simpl; [reflexivity|].
  rewrite N.eqb_refl. exact IH.
Qed.

Lemma starts_with_app_l a p s :
  starts_with p s = true -> starts_with (a ++ p) (a ++ s) = true.
Proof.
  intros H. induction a as [|x a IH]; simpl; [exact H|].
  rewrite N.eqb_refl. exact IH.
Qed.

Lemma starts_with_refl s : starts_with s s = true.
Proof. rewrite <- (app_nil_r s) at 2. apply starts_with_app. Qed.

(** ** The writer (C9) *)

Lemma join_cons sep x y rest :
  join sep (x :: y :: rest) = x ++ sep ++ join sep (y :: rest).
Proof. reflexivity. Qed.

Lemma join_firstn_prefix sep n l :
  starts_with (join sep (firstn n l)) (join sep l) = true.
Proof.
  revert l. induction n as [|n IH]; intros l; [reflexivity|].
  destruct l as [|x l]; [reflexivity|].
  destruct l as [|y l].
  - cbn [firstn]. rewrite firstn_nil. apply starts_with_refl.
  - destruct n as [|n].
    + simpl. apply starts_with_app.
    + change (firstn (S (S n)) (x :: y :: l))
        with (x :: y :: firstn n l).
      rewrite !join_cons.
      apply starts_with_app_l. apply starts_with_app_l.
      apply (IH (y :: l)).
Qed.

Lemma path_join_names_differ d a b :
  starts_with (u "/") a = false -> starts_with (u "/") b = false ->
  a <> b -> path_join d a <> path_join d b.
Proof.
  intros Ha Hb Hne. unfold path_join. rewrite Ha, Hb.
  destruct (rev d) as [|c r].
  - exact Hne.
  - destruct (c =? 47); intros E; apply app_inv_head in E;
      [|apply app_inv_head in E]; contradiction.
Qed.

Lemma save_to_file_same path lines fs :
  lines <> [] ->
  dict_get path (save_to_file path lines fs) = Some (join LF lines).
Proof.
  intros H. unfold save_to_file. destruct lines; [contradiction|].
  apply dict_get_set_same.
Qed.

Lemma save_to_file_other path path' lines fs :
  path <> path' ->
  dict_get path (save_to_file path' lines fs) = dict_get path fs.
Proof.
  intros H. unfold save_to_file. destruct lines; [reflexivity|].
  apply dict_get_set_other. exact H.
Qed.

Section Writer.
Context {rt : Runtime}.

Lemma rename_all_length links :
  forall w renamed w',
    rename_all links w = (Ok renamed, w') -> length renamed = length links.
Proof.
  induction links as [|l links IH]; intros w renamed w' H; simpl in H.
  - injection H as <- _. reflexivity.
  - destruct (rename_line l w) as [[r|e] w1]; [|discriminate].
    destruct (rename_all links w1) as [[rs|e] w2] eqn:E; [|discriminate].
    injection H as <- _. simpl. f_equal. eapply IH. exact E.
Qed.

(** *** Lines *)

Lemma lines_of_no_lf x : ~ In 10 x -> lines_of x = [x].
Proof.
  induction x as [|c x IH]; intros H; [reflexivity|].
  cbn [lines_of].
  assert (Hc : (c =? 10) = false)
    by (apply N.eqb_neq; intros ->; apply H; left; reflexivity).
  rewrite Hc, IH by (intros Hin; apply H; right; exact Hin). reflexivity.
Qed.

Lemma lines_of_app x t :
  ~ In 10 x -> lines_of (x ++ 10 :: t) = x :: lines_of t.
Proof.
  induction x as [|c x IH]; intros H; [reflexivity|].
  cbn [app lines_of].
  assert (Hc : (c =? 10) = false)
    by (apply N.eqb_neq; intros ->; apply H; left; reflexivity).
  rewrite Hc, IH by (intros Hin; apply H; right; exact Hin). reflexivity.
Qed.

(** The lines of a file are the items that were saved, when no item holds
    a line feed. *)
Lemma lines_of_join l :
  l <> [] -> Forall no_line_feed l -> lines_of (join LF l) = l.
Proof.
  induction l as [|x l IH]; intros Hne Hall; [contradiction|].
  inversion Hall as [|? ? Hx Hl]; subst.
  destruct l as [|y l].
  - cbn [join]. apply lines_of_no_lf. exact Hx.
  - rewrite join_cons. change (LF ++ join LF (y :: l))
      with (10 :: join LF (y :: l)).
    rewrite (lines_of_app x _ Hx), IH; [reflexivity|discriminate|exact Hl].
Qed.

Lemma Forall_firstn {A} (P : A -> Prop) n l :
  Forall P l -> Forall P (firstn n l).
Proof.
  intros H. apply Forall_forall. intros x Hx. rewrite Forall_forall in H.
  apply H. rewrite <- (firstn_skipn n l). apply in_or_app. left. exact Hx.
Qed.


End Writer.


(** In the example the files have 35 and 30 lines. *)
Example light_file_of_sample :
  match write_country (rt := example_runtime) (u "de") [(u "trojan", [])]
          sample_ranked [] world0 with
  | (e, fs, _) =>
      e = None
      /\ option_map (fun t => length (lines_of t))
           (dict_get (u "configs/de/all.txt") fs) = Some 35%nat
      /\ option_map (fun t => length (lines_of t))
           (dict_get (u "configs/de/light.txt") fs) = Some 30%nat
  end.
Proof. vm_compute. repeat split. Qed.

(** C9, counterexample: sixteen links whose host holds a backslash and the
    letter n.  Name resolution fails, the host stands for the address, and
    the replacement template of [rename_generic] turns the two characters
    into a line feed: each renamed link holds a line feed, and [light.txt],
    written from sixteen links, has thirty-two lines. *)
Lemma light_file_exceeds_thirty_lines :
  length newline_links = 16%nat
  /\ fst (rename_line (rt := newline_runtime)
            (u "trojan://a" ++ [92; 110] ++ u "x1") world0)
     = Ok (u "trojan://a" ++ [10]
             ++ u "x1:443#%F0%9F%8F%B3%EF%B8%8F%20ShatalVPN%20123456")
  /\ match write_country (rt := newline_runtime) (u "de") [(u "trojan", [])]
             newline_links [] world0 with
     | (e, fs, _) =>
         e = None
         /\ option_map (fun t => length (lines_of t))
              (dict_get (u "configs/de/light.txt") fs) = Some 32%nat
     end.
Proof. vm_compute. repeat split. Qed.

(** ** The renamer: default port (C10) and fail-soft behaviour (C8) *)

Section Renamer.
Context {rt : Runtime}.


(** C8.  If the protocol-specific rewrite raises, whatever the protocol and
    whatever the stage, the renamer gives back the link it was given. *)
Theorem rename_fail_soft (proto link ip port tag : str) (e : exn) :
  rename_body proto link ip port tag = Raise e ->
  rename_by_proto proto link ip port tag = link.
Proof.
  unfold rename_body, rename_by_proto, rename_vmess, rename_shadowsocks,
    rename_generic.
  destruct (eqb_str proto (u "vmess")).
  - intros ->. reflexivity.
  - destruct (eqb_str proto (u "shadowsocks")); intros ->; reflexivity.
Qed.

(** The same, seen from [rename_line]: what it returns is the original
    link or what the selected rewrite returned. *)
Lemma rename_by_proto_cases (proto link ip port tag : str) :
  match rename_body proto link ip port tag with
  | Ok out => rename_by_proto proto link ip port tag = out
  | Raise _ => rename_by_proto proto link ip port tag = link
  end.
Proof.
  unfold rename_body, rename_by_proto, rename_vmess, rename_shadowsocks,
    rename_generic.
  destruct (eqb_str proto (u "vmess")).
  - destruct (rename_vmess_body link ip port tag); reflexivity.
  - destruct (eqb_str proto (u "shadowsocks")).
    + destruct (rename_shadowsocks_body link ip port tag); reflexivity.
    + destruct (rename_generic_body link ip port tag); reflexivity.
Qed.

End Renamer.


Example rename_line_default_port_output :
  fst (rename_line (rt := example_runtime) (u "trojan://example.org/path")
         world0)
  = Ok (u "trojan://example.org:443/path#%F0%9F%8F%B3%EF%B8%8F%20ShatalVPN%20123456").
Proof. vm_compute. reflexivity. Qed.

Lemma rename_fail_soft_witness :
  rename_by_proto (rt := example_runtime) (u "vmess")
    (u "vmess://bm90IGpzb24=") (u "1.2.3.4") (u "443") (u "tag")
  = u "vmess://bm90IGpzb24=".
Proof.
  apply (rename_fail_soft (rt := example_runtime) (u "vmess")
           (u "vmess://bm90IGpzb24=") (u "1.2.3.4") (u "443") (u "tag")
           JSONDecodeError).
  vm_compute. reflexivity.
Defined.

(** Stages at which each rewrite raises. *)
Example vmess_raises_without_separator :
  rename_vmess_body (rt := example_runtime) (u "vmess:abc") (u "1.2.3.4")
    (u "443") (u "t") = Raise IndexError.
Proof. vm_compute. reflexivity. Qed.

Example vmess_raises_on_bad_base64 :
  rename_vmess_body (rt := example_runtime) (u "vmess://abcde") (u "1.2.3.4")
    (u "443") (u "t") = Raise BinasciiError.
Proof. vm_compute. reflexivity. Qed.

Example vmess_raises_on_json_list :
  rename_vmess_body (rt := example_runtime) (u "vmess://WzFd") (u "1.2.3.4")
    (u "443") (u "t") = Raise AttributeError.
Proof. vm_compute. reflexivity. Qed.

Example vmess_raises_on_bad_port :
  rename_vmess_body (rt := example_runtime)
    (u "vmess://eyJhZGQiOiIxLjIuMy40IiwicG9ydCI6IjQ0MyJ9") (u "1.2.3.4")
    (u "https") (u "t") = Raise ValueError.
Proof. vm_compute. reflexivity. Qed.

Example vmess_raises_on_surrogate_tag :
  rename_vmess_body (rt := example_runtime)
    (u "vmess://eyJhZGQiOiIxLjIuMy40IiwicG9ydCI6IjQ0MyJ9") (u "1.2.3.4")
    (u "443") [55357] = Raise UnicodeError.
Proof. vm_compute. reflexivity. Qed.

Example shadowsocks_raises_without_scheme :
  rename_shadowsocks_body (u "sx://abc@h:1") (u "1.2.3.4") (u "443") (u "t")
  = Raise IndexError.
Proof. vm_compute. reflexivity. Qed.

Example shadowsocks_raises_without_colon :
  rename_shadowsocks_body (u "ss://nocolon!@h:1") (u "1.2.3.4") (u "443")
    (u "t") = Raise ValueError.
Proof. vm_compute. reflexivity. Qed.

Example generic_raises_on_template :
  rename_generic_body (rt := example_runtime) (u "trojan://pw@host:1")
    [92; 100] (u "443") (u "t") = Raise ReError.
Proof. vm_compute. reflexivity. Qed.

Example generic_raises_on_surrogate_tag :
  rename_generic_body (rt := example_runtime) (u "trojan://pw@host:1")
    (u "1.2.3.4") (u "443") [55357] = Raise UnicodeError.
Proof. vm_compute. reflexivity. Qed.

(** ** The collector: [maybe_base64_decode] (C7) *)

(** C7, as the code has it.  Decoding is attempted on every stripped body,
    whether or not it holds ["://"]: the stripped decoded text is used as
    soon as the decoding succeeds and holds ["://"], the stripped body in
    every other case. *)
Theorem maybe_base64_decode_cases (s : str) :
  (forall d, b64_decode (strip s) = Ok d ->
             contains (u "://") d = true ->
             maybe_base64_decode s = strip d)
  /\ (forall d, b64_decode (strip s) = Ok d ->
                contains (u "://") d = false ->
                maybe_base64_decode s = strip s)
  /\ (forall e, b64_decode (strip s) = Raise e ->
                maybe_base64_decode s = strip s).
Proof.
  unfold maybe_base64_decode. repeat split.
  - intros d -> ->. reflexivity.
  - intros d -> ->. reflexivity.
  - intros e ->. reflexivity.
Qed.

(** C7, counterexample: the body [ab://Oi8v] holds ["://"], yet it is
    replaced by its base64 decoding [i://]. *)
Lemma maybe_base64_decode_replaces_body_with_scheme :
  contains (u "://") (u "ab://Oi8v") = true
  /\ maybe_base64_decode (u "ab://Oi8v") = u "i://"
  /\ maybe_base64_decode (u "ab://Oi8v") <> u "ab://Oi8v".
Proof.
  split; [|split].
  - vm_compute. reflexivity.
  - vm_compute. reflexivity.
  - vm_compute. discriminate.
Qed.

(** ** The aggregator (C5) *)

Section Aggregator.
Context {rt : Runtime}.

Lemma scan_samples_pairs items :
  forall pings,
    forallb pair_shaped items = true ->
    scan_samples items pings = pings ++ flat_map ok_sample items.
Proof.
  induction items as [|item items IH]; intros pings H; simpl.
  - rewrite app_nil_r. reflexivity.
  - simpl in H. apply andb_true_iff in H. destruct H as [Hitem Hrest].
    destruct item as [| | | | |l|]; try discriminate.
    destruct l as [|a [|b [|c l]]]; try discriminate.
    simpl. rewrite IH by exact Hrest.
    destruct (is_OK a); simpl.
    + rewrite <- app_assoc. reflexivity.
    + reflexivity.
Qed.

Lemma scan_samples_chars s pings :
  scan_samples (map (fun c => JStr [c]) s) pings = pings.
Proof. destruct s; reflexivity. Qed.

Lemma scan_samples_keys (d : dict json) :
  forall pings, scan_samples (map (fun kv => JStr (fst kv)) d) pings = pings.
Proof.
  induction d as [|[k v] d IH]; intros pings; [reflexivity|].
  simpl. destruct k as [|c1 [|c2 [|c3 k]]]; try reflexivity.
  simpl. destruct (c1 =? 79); simpl; apply IH.
Qed.

(** One node contributes the samples of its items, whatever the shape of
    its entry. *)
Lemma node_samples_spec (r : dict json) node pings :
  forallb pair_shaped (node_items r node) = true ->
  node_samples (JObj r) node pings
  = Ok (pings ++ flat_map ok_sample (node_items r node)).
Proof.
  intros H. unfold node_samples, results_get, node_items in *. simpl.
  destruct (dict_get node r) as [entries|]; simpl;
    [|rewrite app_nil_r; reflexivity].
  destruct entries as [| | | |s|l|d]; simpl;
    try (rewrite app_nil_r; reflexivity).
  - destruct s; simpl; rewrite app_nil_r; reflexivity.
  - destruct l as [|first l]; simpl; [rewrite app_nil_r; reflexivity|].
    destruct first as [| | | |s|items|d]; simpl;
      try (rewrite app_nil_r; reflexivity).
    + rewrite scan_samples_chars, app_nil_r. reflexivity.
    + rewrite scan_samples_pairs by exact H. reflexivity.
    + rewrite scan_samples_keys, app_nil_r. reflexivity.
Qed.

Lemma nodes_samples_spec (r : dict json) nodes :
  forall pings,
    (forall node, In node nodes ->
                  forallb pair_shaped (node_items r node) = true) ->
    nodes_samples (JObj r) nodes pings = Ok (pings ++ spec_samples r nodes).
Proof.
  induction nodes as [|node nodes IH]; intros pings H; simpl.
  - unfold spec_samples. simpl. rewrite app_nil_r. reflexivity.
  - rewrite node_samples_spec by (apply H; left; reflexivity). simpl.
    rewrite IH by (intros n Hn; apply H; right; exact Hn).
    unfold spec_samples. simpl. rewrite app_assoc. reflexivity.
Qed.

Lemma py_sum_numbers pings :
  forall acc,
    forallb is_number pings = true ->
    py_sum pings acc = add_up (map number_of pings) acc.
Proof.
  induction pings as [|p pings IH]; intros acc H; [reflexivity|].
  cbn [forallb] in H. apply andb_true_iff in H. destruct H as [Hp Hrest].
  cbn [py_sum map add_up].
  destruct p; try discriminate; cbn [json_number number_of bind];
    (destruct (num_add acc _) as [s|e]; [apply IH; exact Hrest|reflexivity]).
Qed.

Lemma mean_or_inf_spec pings :
  forallb is_number pings = true -> mean_or_inf pings = spec_mean pings.
Proof.
  intros H. unfold mean_or_inf, spec_mean. destruct pings as [|p pings];
    [reflexivity|].
  rewrite py_sum_numbers by exact H. reflexivity.
Qed.

Lemma spec_samples_absent (r : dict json) nodes :
  (forall node, In node nodes -> dict_get node r = None) ->
  spec_samples r nodes = [].
Proof.
  intros H. unfold spec_samples. induction nodes as [|n nodes IH];
    [reflexivity|].
  simpl. unfold node_items at 1. rewrite (H n) by (left; reflexivity). simpl.
  apply IH. intros m Hm. apply H. right. exact Hm.
Qed.

Lemma extract_latency_loop_spec (r : dict json) (cn : dict (list str)) :
  forall acc,
    (forall country nodes node,
        In (country, nodes) cn -> In node nodes ->
        forallb pair_shaped (node_items r node) = true) ->
    (forall country nodes,
        In (country, nodes) cn ->
        forallb is_number (spec_samples r nodes) = true) ->
    (forall country nodes,
        In (country, nodes) cn ->
        raises (spec_mean (spec_samples r nodes)) = false) ->
    exists d,
      extract_latency_loop (JObj r) cn acc = Ok d
      /\ (NoDup (dict_keys cn) ->
          forall country nodes,
            In (country, nodes) cn ->
            exists v, spec_mean (spec_samples r nodes) = Ok v
                      /\ dict_get country d = Some v)
      /\ (forall country,
            ~ In country (dict_keys cn) ->
            dict_get country d = dict_get country acc).
Proof.
  induction cn as [|[c0 nodes0] cn IH]; intros acc Hshape Hnum Hok.
  - exists acc. split; [reflexivity|]. split.
    + intros _ country nodes [].
    + reflexivity.
  - simpl.
    rewrite nodes_samples_spec
      by (intros node Hn; apply (Hshape c0 nodes0); [left; reflexivity|exact Hn]).
    simpl.
    rewrite mean_or_inf_spec by (apply (Hnum c0 nodes0); left; reflexivity).
    pose proof (Hok c0 nodes0 (or_introl eq_refl)) as Hmean.
    destruct (spec_mean (spec_samples r nodes0)) as [v|e] eqn:Ev;
      [|discriminate].
    simpl.
    destruct (IH (dict_set c0 v acc)) as [d [Hd [Hin Hout]]].
    + intros country nodes node Hc Hn.
      apply (Hshape country nodes); [right; exact Hc | exact Hn].
    + intros country nodes Hc. apply (Hnum country nodes). right. exact Hc.
    + intros country nodes Hc. apply (Hok country nodes). right. exact Hc.
    + exists d. split; [exact Hd|]. split.
      * intros Hnodup country nodes [Hhead|Htail].
        -- injection Hhead as <- <-.
           simpl in Hnodup. inversion Hnodup as [|x l Hnotin Hnd]; subst.
           exists v. rewrite Hout by exact Hnotin.
           rewrite dict_get_set_same, Ev. split; reflexivity.
        -- simpl in Hnodup. inversion Hnodup as [|x l Hnotin Hnd]; subst.
           apply Hin; assumption.
      * intros country Hnotin. simpl in Hnotin.
        rewrite Hout by tauto.
        apply dict_get_set_other. intros E. apply Hnotin. left.
        symmetry. exact E.
Qed.


End Aggregator.


(** The samples 1 and 3 have the mean 2. *)
Example extract_latency_of_pairs :
  extract_latency_by_country (JObj result_of_pairs) one_country
  = Ok [(u "de", S754_finite false 4503599627370496 (-51))].
Proof. vm_compute. reflexivity. Qed.

(** Float arithmetic rounds: the mean of 0.1, 0.2 and 0.3 is above 0.2. *)
Example mean_is_rounded :
  mean_or_inf [JFloat (float_of_decimal false 1 (-1));
               JFloat (float_of_decimal false 2 (-1));
               JFloat (float_of_decimal false 3 (-1))]
  = Ok (S754_finite false 7205759403792795 (-55))
  /\ float_of_decimal false 2 (-1) = S754_finite false 7205759403792794 (-55)
  /\ lat_ltb (float_of_decimal false 2 (-1))
       (S754_finite false 7205759403792795 (-55)) = true.
Proof. vm_compute. repeat split. Qed.

(** An [int] too large for a float makes the sum raise as soon as a float
    is added to it, and the division raise when all samples are [int]s. *)
Example mean_raises_on_huge_int :
  mean_or_inf [JInt (10 ^ 400); JFloat (float_of_decimal false 5 (-1))]
  = Raise OverflowError
  /\ mean_or_inf [JInt (10 ^ 400)] = Raise OverflowError
  /\ mean_or_inf [JFloat (float_of_decimal false 1 999)] = Ok float_inf.
Proof. vm_compute. repeat split. Qed.


(** The same happens when the three-field observation is itself
    successful. *)
Example extract_latency_drops_node_with_address :
  extract_latency_by_country
    (JObj [(u "n1", JArr [JArr [JArr [JStr (u "OK"); JInt 1;
                                         JStr (u "1.2.3.4")];
                                  JArr [JStr (u "OK"); JInt 3]]])])
    [(u "de", [u "n1"])]
  = Ok [(u "de", float_inf)].
Proof. reflexivity. Qed.

(** Samples read before the malformed observation are kept. *)
Example extract_latency_keeps_earlier_samples :
  extract_latency_by_country
    (JObj [(u "n1", JArr [JArr [JArr [JStr (u "OK"); JInt 1];
                                  JArr [JStr (u "TIMEOUT")];
                                  JArr [JStr (u "OK"); JInt 3]]])])
    [(u "de", [u "n1"])]
  = Ok [(u "de", round_int 1)].
Proof. vm_compute. reflexivity. Qed.

(** ** The ranking (C2, C3) *)

Lemma before_app_r {A} (x y : A) l extra :
  before x y l -> before x y (l ++ extra).
Proof.
  intros (l1 & l2 & l3 & ->). exists l1, l2, (l3 ++ extra).
  repeat (rewrite <- app_assoc || rewrite <- app_comm_cons). reflexivity.
Qed.

Lemma before_cons {A} (x y z : A) l : before x y l -> before x y (z :: l).
Proof.
  intros (l1 & l2 & l3 & ->). exists (z :: l1), l2, l3. reflexivity.
Qed.

Lemma before_head {A} (x y : A) l : In y l -> before x y (x :: l).
Proof.
  intros H. apply in_split in H. destruct H as (l2 & l3 & ->).
  exists [], l2, l3. reflexivity.
Qed.

Lemma before_in_app {A} (x y : A) l extra :
  In x l -> In y extra -> before x y (l ++ extra).
Proof.
  intros Hx Hy. apply in_split in Hx. destruct Hx as (a & b & ->).
  apply in_split in Hy. destruct Hy as (c & d & ->).
  exists a, (b ++ c), d.
  repeat (rewrite <- app_assoc || rewrite <- app_comm_cons). reflexivity.
Qed.

Lemma before_cons_inv {A} (x y z : A) l :
  before x y (z :: l) -> (x = z /\ In y l) \/ before x y l.
Proof.
  intros (l1 & l2 & l3 & E). destruct l1 as [|a l1]; simpl in E.
  - injection E as -> ->. left. split; [reflexivity|].
    apply in_or_app. right. left. reflexivity.
  - injection E as -> ->. right. exists l1, l2, l3. reflexivity.
Qed.

Lemma before_map {A B} (f : A -> B) (x y : B) (l : list A) :
  before x y (map f l) ->
  exists a b, f a = x /\ f b = y /\ before a b l.
Proof.
  intros (l1 & l2 & l3 & E).
  apply map_eq_app in E. destruct E as (m1 & m2 & -> & <- & E).
  destruct m2 as [|a m2]; [discriminate|]. simpl in E.
  injection E as <- E.
  apply map_eq_app in E. destruct E as (m3 & m4 & -> & <- & E).
  destruct m4 as [|b m4]; [discriminate|]. simpl in E.
  injection E as <- <-.
  exists a, b. split; [reflexivity|]. split; [reflexivity|].
  exists m1, m3, m4. reflexivity.
Qed.

Lemma before_map_fwd {A B} (f : A -> B) (a b : A) (l : list A) :
  before a b l -> before (f a) (f b) (map f l).
Proof.
  intros (l1 & l2 & l3 & ->). exists (map f l1), (map f l2), (map f l3).
  rewrite map_app. simpl. rewrite map_app. reflexivity.
Qed.

(** *** Keys of a dictionary under assignment *)

Lemma dict_keys_set_old {V} k (v : V) d :
  In k (dict_keys d) -> dict_keys (dict_set k v d) = dict_keys d.
Proof.
  induction d as [|[k' v'] d IH]; simpl; [intros []|].
  intros H. destruct (eqb_str k k') eqn:E; simpl; [reflexivity|].
  f_equal. apply IH. destruct H as [H|H]; [|exact H].
  subst k'. rewrite eqb_str_refl in E. discriminate.
Qed.

Lemma dict_keys_set_new {V} k (v : V) d :
  ~ In k (dict_keys d) -> dict_keys (dict_set k v d) = dict_keys d ++ [k].
Proof.
  induction d as [|[k' v'] d IH]; simpl; [reflexivity|].
  intros H. destruct (eqb_str k k') eqn:E; simpl.
  - apply eqb_str_eq in E. subst k'. exfalso. apply H. left. reflexivity.
  - f_equal. apply IH. intros Hin. apply H. right. exact Hin.
Qed.

Lemma dict_keys_set_cases {V} k (v : V) d :
  (In k (dict_keys d) /\ dict_keys (dict_set k v d) = dict_keys d)
  \/ (~ In k (dict_keys d)
      /\ dict_keys (dict_set k v d) = dict_keys d ++ [k]).
Proof.
  destruct (in_dec str_eq_dec k (dict_keys d)) as [H|H].
  - left. split; [exact H|]. apply dict_keys_set_old. exact H.
  - right. split; [exact H|]. apply dict_keys_set_new. exact H.
Qed.

Lemma dict_set_values {V} k (v : V) d l x :
  In (l, x) (dict_set k v d) -> In (l, x) d \/ (l = k /\ x = v).
Proof.
  induction d as [|[k' v'] d IH]; simpl.
  - intros [E|[]]. injection E as <- <-. right. split; reflexivity.
  - destruct (eqb_str k k') eqn:E; simpl.
    + apply eqb_str_eq in E. subst k'. intros [H|H].
      * injection H as <- <-. right. split; reflexivity.
      * left. right. exact H.
    + intros [H|H]; [left; left; exact H|].
      destruct (IH H) as [H'|H']; [left; right; exact H'|right; exact H'].
Qed.

(** *** The latency table *)

Lemma assign_latency_prefix ap host x :
  forall d, exists extra,
    dict_keys (assign_latency ap host x d) = dict_keys d ++ extra.
Proof.
  induction ap as [|[l h] ap IH]; intros d; simpl.
  - exists []. rewrite app_nil_r. reflexivity.
  - destruct (eqb_str h host).
    + destruct (IH (dict_set l x d)) as [extra E]. rewrite E.
      destruct (dict_keys_set_cases l x d) as [[_ K]|[_ K]]; rewrite K.
      * exists extra. reflexivity.
      * exists (l :: extra). rewrite <- app_assoc. reflexivity.
    + apply IH.
Qed.

Lemma assign_latency_in ap host x :
  forall d l,
    In l (dict_keys (assign_latency ap host x d))
    <-> In l (dict_keys d) \/ In (l, host) ap.
Proof.
  induction ap as [|[l0 h] ap IH]; intros d l; simpl.
  - tauto.
  - rewrite IH. destruct (eqb_str h host) eqn:E.
    + apply eqb_str_eq in E. subst h.
      destruct (dict_keys_set_cases l0 x d) as [[Hin K]|[Hnot K]]; rewrite K.
      * split; [tauto|]. intros [H|[H|H]]; try tauto.
        injection H as -> . tauto.
      * rewrite in_app_iff. simpl. split.
        -- intros [[H|[H|[]]]|H]; try tauto. subst. tauto.
        -- intros [H|[H|H]]; try tauto. injection H as ->. tauto.
    + apply eqb_str_neq in E. split; [tauto|].
      intros [H|[H|H]]; try tauto. injection H as _ ->. contradiction.
Qed.

Lemma assign_latency_nodup ap host x :
  forall d, NoDup (dict_keys d) ->
            NoDup (dict_keys (assign_latency ap host x d)).
Proof.
  induction ap as [|[l h] ap IH]; intros d H; simpl; [exact H|].
  destruct (eqb_str h host); [|apply IH; exact H].
  apply IH.
  destruct (dict_keys_set_cases l x d) as [[_ K]|[Hnot K]]; rewrite K.
  - exact H.
  - apply NoDup_app; [exact H | repeat constructor; intros [] |].
    intros a Ha [<-|[]]. contradiction.
Qed.

Lemma assign_latency_values ap host x :
  forall d l y,
    In (l, y) (assign_latency ap host x d) ->
    In (l, y) d \/ (y = x /\ In (l, host) ap).
Proof.
  induction ap as [|[l0 h] ap IH]; intros d l y H; simpl in *.
  - left. exact H.
  - destruct (IH _ _ _ H) as [H1|[-> H1]]; [|tauto].
    destruct (eqb_str h host) eqn:E; [|tauto].
    apply eqb_str_eq in E. subst h.
    destruct (dict_set_values _ _ _ _ _ H1) as [H2|[-> ->]]; tauto.
Qed.

Lemma assign_latency_order ap host x (l1 l2 : str) :
  forall d,
    first_before l1 l2 (map fst ap) ->
    (forall h, In (l1, h) ap -> h = host) ->
    In (l2, host) ap ->
    ~ In l1 (dict_keys d) -> ~ In l2 (dict_keys d) ->
    before l1 l2 (dict_keys (assign_latency ap host x d)).
Proof.
  induction ap as [|[l h] ap IH]; intros d [Hne (a & b & E & Ha1 & Ha2)]
    Hhost Hin2 Hd1 Hd2.
  - destruct Hin2.
  - simpl in E. destruct a as [|a0 a]; simpl in E.
    + injection E as -> Eb. simpl.
      assert (Hh : h = host) by (apply Hhost; left; reflexivity).
      subst h. rewrite eqb_str_refl.
      destruct (assign_latency_prefix ap host x (dict_set l1 x d))
        as [extra K].
      pose proof (proj2 (assign_latency_in ap host x (dict_set l1 x d) l2))
        as Hl2.
      rewrite K in *. rewrite (dict_keys_set_new l1 x d Hd1) in *.
      apply before_in_app.
      * apply in_or_app. right. left. reflexivity.
      * destruct Hin2 as [Hin2|Hin2]; [injection Hin2 as ->; contradiction|].
        specialize (Hl2 (or_intror Hin2)).
        apply in_app_or in Hl2. destruct Hl2 as [Hl2|Hl2]; [|exact Hl2].
        apply in_app_or in Hl2. destruct Hl2 as [Hl2|[Hl2|[]]];
          [contradiction | congruence].
    + injection E as <- Eb. simpl.
      assert (N1 : l <> l1) by (intros ->; apply Ha1; left; reflexivity).
      assert (N2 : l <> l2) by (intros ->; apply Ha2; left; reflexivity).
      apply IH.
      * split; [exact Hne|]. exists a, b. split; [exact Eb|].
        split; intros Hx; [apply Ha1|apply Ha2]; right; exact Hx.
      * intros h' Hh'. apply Hhost. right. exact Hh'.
      * destruct Hin2 as [Hin2|Hin2]; [congruence|exact Hin2].
      * destruct (eqb_str h host); [|exact Hd1].
        destruct (dict_keys_set_cases l x d) as [[_ K]|[_ K]]; rewrite K;
          [exact Hd1|].
        intros Hx. apply in_app_or in Hx. destruct Hx as [Hx|[Hx|[]]];
          [contradiction|congruence].
      * destruct (eqb_str h host); [|exact Hd2].
        destruct (dict_keys_set_cases l x d) as [[_ K]|[_ K]]; rewrite K;
          [exact Hd2|].
        intros Hx. apply in_app_or in Hx. destruct Hx as [Hx|[Hx|[]]];
          [contradiction|congruence].
Qed.

Lemma before_in {A} (x y : A) l : before x y l -> In x l /\ In y l.
Proof.
  intros (l1 & l2 & l3 & ->). split.
  - apply in_or_app. right. left. reflexivity.
  - apply in_or_app. right. right. apply in_or_app. right. left. reflexivity.
Qed.

(** *** The stable sort *)

Lemma insert_sorted_perm {A} (key : A -> lat) x l :
  Permutation (insert_sorted key x l) (x :: l).
Proof.
  induction l as [|y l IH]; simpl; [reflexivity|].
  destruct (lat_ltb (key y) (key x)); [|reflexivity].
  rewrite IH. apply perm_swap.
Qed.

Lemma stable_sort_perm {A} (key : A -> lat) l :
  Permutation (stable_sort key l) l.
Proof.
  induction l as [|x l IH]; simpl; [reflexivity|].
  rewrite insert_sorted_perm. constructor. exact IH.
Qed.

Lemma insert_by_perm {A} (rank : A -> N) x l :
  Permutation (insert_by rank x l) (x :: l).
Proof.
  induction l as [|y l IH]; simpl; [reflexivity|].
  destruct (rank y <? rank x); [|reflexivity].
  rewrite IH. apply perm_swap.
Qed.

Lemma order_by_perm {A} (rank : A -> N) l : Permutation (order_by rank l) l.
Proof.
  induction l as [|x l IH]; simpl; [reflexivity|].
  rewrite insert_by_perm. constructor. exact IH.
Qed.

Lemma map_snd_combine {A B} (xs : list A) (ys : list B) :
  length xs = length ys -> map snd (combine xs ys) = ys.
Proof.
  revert ys. induction xs as [|x xs IH]; intros [|y ys] H;
    try discriminate; [reflexivity|].
  cbn [combine map snd]. f_equal. apply IH. injection H as H. exact H.
Qed.

(** Whatever the keys, the sort rearranges the items. *)
Lemma sorted_perm {rt : Runtime} {A} (key : A -> lat) l :
  Permutation (sorted key l) l.
Proof.
  unfold sorted. destruct (existsb is_nan (map key l)).
  - rewrite (Permutation_map snd (order_by_perm fst _)).
    rewrite map_snd_combine; [reflexivity|].
    rewrite length_map, length_seq. reflexivity.
  - apply stable_sort_perm.
Qed.

Lemma sorted_no_nan {rt : Runtime} {A} (key : A -> lat) l :
  existsb is_nan (map key l) = false -> sorted key l = stable_sort key l.
Proof. intros H. unfold sorted. rewrite H. reflexivity. Qed.

Lemma insert_sorted_keeps_order {A} (key : A -> lat) x a b l :
  before a b l -> before a b (insert_sorted key x l).
Proof.
  induction l as [|y l IH]; intros H; simpl.
  - destruct H as (l1 & l2 & l3 & E). destruct l1; discriminate.
  - destruct (lat_ltb (key y) (key x)); [|apply before_cons; exact H].
    apply before_cons_inv in H. destruct H as [[-> Hb]|H].
    + apply before_head.
      apply (Permutation_in _ (Permutation_sym (insert_sorted_perm key x l))).
      right. exact Hb.
    + apply before_cons. apply IH. exact H.
Qed.

Lemma insert_sorted_goes_first {A} (key : A -> lat) x b l :
  In b l -> lat_ltb (key b) (key x) = false ->
  before x b (insert_sorted key x l).
Proof.
  induction l as [|y l IH]; intros Hin Hkey; simpl; [destruct Hin|].
  destruct (lat_ltb (key y) (key x)) eqn:E.
  - destruct Hin as [->|Hin]; [congruence|].
    apply before_cons. apply IH; assumption.
  - apply before_head. exact Hin.
Qed.

(** Stability: an element that comes first and is not strictly slower
    stays first. *)
Lemma stable_sort_stable {A} (key : A -> lat) a b l :
  before a b l -> lat_ltb (key b) (key a) = false ->
  before a b (stable_sort key l).
Proof.
  induction l as [|x l IH]; intros H Hkey; simpl.
  - destruct H as (l1 & l2 & l3 & E). destruct l1; discriminate.
  - apply before_cons_inv in H. destruct H as [[-> Hb]|H].
    + apply insert_sorted_goes_first; [|exact Hkey].
      apply (Permutation_in _ (Permutation_sym (stable_sort_perm key l))).
      exact Hb.
    + apply insert_sorted_keeps_order. apply IH; assumption.
Qed.

Lemma sorted_stable {rt : Runtime} {A} (key : A -> lat) a b l :
  existsb is_nan (map key l) = false ->
  before a b l -> lat_ltb (key b) (key a) = false ->
  before a b (sorted key l).
Proof.
  intros Hnan. rewrite (sorted_no_nan key l Hnan). apply stable_sort_stable.
Qed.

(** *** The order of [<] *)

Lemma lat_ltb_irrefl v : lat_ltb v v = false.
Proof.
  unfold lat_ltb, float_ltb, SFltb.
  destruct v as [s|s| |s m e]; cbn [SFcompare]; try reflexivity.
  - destruct s; reflexivity.
  - rewrite Z.compare_refl, Pos.compare_cont_refl. destruct s; reflexivity.
Qed.

Lemma lat_ltb_rank a b :
  is_nan a = false -> is_nan b = false ->
  (lat_ltb a b = true <-> rank_lt (float_rank a) (float_rank b)).
Proof.
  intros Ha Hb. unfold lat_ltb, float_ltb, SFltb, rank_lt.
  destruct a as [sa|sa| |sa ma ea]; try discriminate;
    destruct b as [sb|sb| |sb mb eb]; try discriminate;
    cbn [SFcompare float_rank];
    try (destruct sa; try destruct sb; split; intros H;
         try discriminate; try reflexivity; lia);
    try (destruct sb; split; intros H;
         try discriminate; try reflexivity; lia).
  destruct sa, sb;
    try (split; intros H; try discriminate; try reflexivity; lia);
    rewrite Pos.compare_cont_spec; cbn [Pos.switch_Eq];
    destruct (Z.compare_spec ea eb) as [E|E|E];
    destruct (Pos.compare_spec ma mb) as [F|F|F]; cbn [CompOpp];
    split; intros H; try discriminate; try reflexivity; lia.
Qed.

Lemma lat_ltb_asym a b : lat_ltb a b = true -> lat_ltb b a = false.
Proof.
  intros H.
  assert (Ha : is_nan a = false).
  { destruct a; try reflexivity. discriminate H. }
  assert (Hb : is_nan b = false).
  { destruct b; try reflexivity. destruct a; discriminate H. }
  apply (lat_ltb_rank a b Ha Hb) in H.
  apply Bool.not_true_is_false. intros H'.
  apply (lat_ltb_rank b a Hb Ha) in H'.
  unfold rank_lt in *.
  destruct (float_rank a) as [[a1 a2] a3], (float_rank b) as [[b1 b2] b3].
  lia.
Qed.

(** When [b] is not NaN: if [b] is not below [a] and [c] is not below
    [b], then [c] is not below [a]. *)
Lemma lat_ltb_not_trans a b c :
  is_nan b = false ->
  lat_ltb b a = false -> lat_ltb c b = false -> lat_ltb c a = false.
Proof.
  intros Hb H1 H2.
  destruct (is_nan a) eqn:Ha.
  { destruct a; try discriminate. destruct c; reflexivity. }
  destruct (is_nan c) eqn:Hc.
  { destruct c; try discriminate. reflexivity. }
  apply Bool.not_true_is_false. intros H.
  apply (lat_ltb_rank c a Hc Ha) in H.
  assert (N1 : ~ rank_lt (float_rank b) (float_rank a)).
  { intros X. apply (lat_ltb_rank b a Hb Ha) in X. congruence. }
  assert (N2 : ~ rank_lt (float_rank c) (float_rank b)).
  { intros X. apply (lat_ltb_rank c b Hc Hb) in X. congruence. }
  unfold rank_lt in *.
  destruct (float_rank a) as [[a1 a2] a3], (float_rank b) as [[b1 b2] b3],
    (float_rank c) as [[c1 c2] c3].
  lia.
Qed.

(** With a NaN the order breaks down: NaN is below nothing and nothing is
    below it, though 1 is below 2. *)
Example nan_is_not_ordered :
  lat_ltb S754_nan (round_int 1) = false
  /\ lat_ltb (round_int 2) S754_nan = false
  /\ lat_ltb (round_int 1) (round_int 2) = true.
Proof. vm_compute. repeat split. Qed.

Section Ranking.
Context {rt : Runtime}.
Variables (country : str) (nodes : list str) (all_pairs : list pair).

Lemma latency_table_prefix results :
  forall d latencies,
    latency_table country nodes all_pairs results d = Ok latencies ->
    exists extra, dict_keys latencies = dict_keys d ++ extra.
Proof.
  induction results as [|[host r] results IH]; intros d latencies H;
    simpl in H.
  - injection H as <-. exists []. rewrite app_nil_r. reflexivity.
  - destruct (country_latency country nodes r) as [x|e]; [|discriminate].
    simpl in H. destruct (IH _ _ H) as [extra E].
    destruct (assign_latency_prefix all_pairs host x d) as [extra' E'].
    exists (extra' ++ extra). rewrite E, E', app_assoc. reflexivity.
Qed.

Lemma latency_table_in results :
  forall d latencies l,
    latency_table country nodes all_pairs results d = Ok latencies ->
    (In l (dict_keys latencies)
     <-> In l (dict_keys d)
         \/ exists h, In (l, h) all_pairs /\ In h (dict_keys results)).
Proof.
  induction results as [|[host r] results IH]; intros d latencies l H;
    simpl in H.
  - injection H as <-. simpl. split; [tauto|].
    intros [H|(h & _ & [])]. exact H.
  - destruct (country_latency country nodes r) as [x|e]; [|discriminate].
    simpl in H. rewrite (IH _ _ l H), assign_latency_in. simpl. split.
    + intros [[H1|H1]|(h & H1 & H2)].
      * left. exact H1.
      * right. exists host. tauto.
      * right. exists h. tauto.
    + intros [H1|(h & H1 & [H2|H2])].
      * tauto.
      * subst h. tauto.
      * right. exists h. tauto.
Qed.

Lemma latency_table_nodup results :
  forall d latencies,
    latency_table country nodes all_pairs results d = Ok latencies ->
    NoDup (dict_keys d) -> NoDup (dict_keys latencies).
Proof.
  induction results as [|[host r] results IH]; intros d latencies H Hd;
    simpl in H.
  - injection H as <-. exact Hd.
  - destruct (country_latency country nodes r) as [x|e]; [|discriminate].
    simpl in H. apply (IH _ _ H). apply assign_latency_nodup. exact Hd.
Qed.

Lemma latency_table_values results :
  forall d latencies l x,
    latency_table country nodes all_pairs results d = Ok latencies ->
    In (l, x) latencies ->
    In (l, x) d
    \/ exists h r, In (l, h) all_pairs /\ In (h, r) results
                   /\ country_latency country nodes r = Ok x.
Proof.
  induction results as [|[host r] results IH]; intros d latencies l x H Hin;
    simpl in H.
  - injection H as <-. left. exact Hin.
  - destruct (country_latency country nodes r) as [y|e] eqn:E;
      [|discriminate].
    simpl in H. destruct (IH _ _ _ _ H Hin) as [H1|(h & r' & H1 & H2 & H3)].
    + destruct (assign_latency_values _ _ _ _ _ _ H1) as [H2|[-> H2]].
      * left. exact H2.
      * right. exists host, r. simpl. tauto.
    + right. exists h, r'. simpl. tauto.
Qed.

Lemma latency_table_order (l1 l2 h1 h2 : str) results :
  forall d latencies,
    latency_table country nodes all_pairs results d = Ok latencies ->
    NoDup (dict_keys results) ->
    functional all_pairs ->
    In (l1, h1) all_pairs -> In (l2, h2) all_pairs ->
    ~ In l1 (dict_keys d) -> ~ In l2 (dict_keys d) ->
    (h1 = h2 /\ In h1 (dict_keys results)
     /\ first_before l1 l2 (map fst all_pairs))
    \/ before h1 h2 (dict_keys results) ->
    before l1 l2 (dict_keys latencies).
Proof.
  induction results as [|[host r] results IH];
    intros d latencies H Hnd Hf H1 H2 Hd1 Hd2 Hcase; simpl in H.
  - exfalso. destruct Hcase as [(_ & [] & _)|(a & b & c & E)].
    destruct a; discriminate.
  - destruct (country_latency country nodes r) as [x|e]; [|discriminate].
    simpl in H, Hnd, Hcase. inversion Hnd as [|? ? Hhost Hnd']; subst.
    set (d' := assign_latency all_pairs host x d) in *.
    assert (Hfresh : forall l h, In (l, h) all_pairs -> h <> host ->
                                 ~ In l (dict_keys d) ->
                                 ~ In l (dict_keys d')).
    { intros l h Hl Hh Hd Hx. apply assign_latency_in in Hx.
      destruct Hx as [Hx|Hx]; [contradiction|].
      apply Hh. apply (Hf l); assumption. }
    destruct (latency_table_prefix _ _ _ H) as [extra Hextra].
    assert (Hhead : forall la lb hb,
               In (la, host) all_pairs -> In (lb, hb) all_pairs ->
               In hb (dict_keys results) -> ~ In lb (dict_keys d) ->
               before la lb (dict_keys latencies)).
    { intros la lb hb Ha Hb Hhb Hdb. rewrite Hextra.
      assert (Hne : hb <> host) by (intros ->; contradiction).
      apply before_in_app.
      - apply assign_latency_in. right. exact Ha.
      - assert (Hin : In lb (dict_keys latencies)).
        { apply (latency_table_in _ _ _ lb H). right. exists hb. tauto. }
        rewrite Hextra in Hin. apply in_app_or in Hin.
        destruct Hin as [Hin|Hin]; [|exact Hin].
        exfalso. exact (Hfresh lb hb Hb Hne Hdb Hin). }
    destruct Hcase as [(<- & [<-|Hin] & Hfb)|Hb].
    + rewrite Hextra. apply before_app_r.
      apply assign_latency_order; try assumption.
      intros h Hh. apply (Hf l1); assumption.
    + assert (Hne : h1 <> host) by (intros ->; contradiction).
      apply (IH d' latencies H Hnd' Hf H1 H2).
      * apply (Hfresh l1 h1); assumption.
      * apply (Hfresh l2 h1); assumption.
      * left. tauto.
    + apply before_cons_inv in Hb. destruct Hb as [[-> Hin2]|Hb].
      * apply (Hhead l1 l2 h2); assumption.
      * destruct (before_in _ _ _ Hb) as [Hi1 Hi2].
        apply (IH d' latencies H Hnd' Hf H1 H2).
        -- apply (Hfresh l1 h1); try assumption. intros ->. contradiction.
        -- apply (Hfresh l2 h2); try assumption. intros ->. contradiction.
        -- right. exact Hb.
Qed.

End Ranking.

Section RankingClaims.
Context {rt : Runtime}.

Lemma categorize_pairs configs countries :
  forall categorized all_pairs,
    snd (categorize configs countries (categorized, all_pairs))
    = all_pairs ++ pairs_of configs.
Proof.
  induction configs as [|link configs IH]; intros categorized all_pairs.
  - simpl. rewrite app_nil_r. reflexivity.
  - simpl. unfold link_host.
    destruct (strip_port (extract_host link (detect_protocol link)))
      as [|c h].
    + apply IH.
    + rewrite IH, <- app_assoc. reflexivity.
Qed.

Lemma pairs_of_in configs l h :
  In (l, h) (pairs_of configs) <-> In l configs /\ h = link_host l /\ h <> [].
Proof.
  unfold pairs_of. rewrite in_flat_map. split.
  - intros (link & Hin & Hp). destruct (link_host link) as [|c hh] eqn:E;
      [destruct Hp|].
    destruct Hp as [Hp|[]]. injection Hp as <- <-.
    rewrite E. repeat split; [exact Hin | discriminate].
  - intros (Hin & -> & Hne). exists l. split; [exact Hin|].
    destruct (link_host l); [contradiction|]. left. reflexivity.
Qed.

Lemma pairs_of_functional configs : functional (pairs_of configs).
Proof.
  intros l h h' H1 H2. apply pairs_of_in in H1. apply pairs_of_in in H2.
  destruct H1 as (_ & -> & _). destruct H2 as (_ & -> & _). reflexivity.
Qed.

End RankingClaims.

(** ** Splitting at a character *)

Lemma find_unfold p s :
  find p s
  = if starts_with p s then Some O
    else match s with
         | [] => None
         | _ :: s' => option_map S (find p s')
         end.
Proof. destruct s; reflexivity. Qed.

Lemma find_prefix p s : find p (p ++ s) = Some O.
Proof. rewrite find_unfold, starts_with_app. reflexivity. Qed.

Lemma find_char c a b :
  ~ In c a -> find [c] (a ++ c :: b) = Some (length a).
Proof.
  induction a as [|x a IH]; intros H; simpl.
  - rewrite N.eqb_refl. reflexivity.
  - destruct (c =? x) eqn:E.
    + apply N.eqb_eq in E. subst x. exfalso. apply H. left. reflexivity.
    + simpl. rewrite IH; [reflexivity|]. intros Hin. apply H. right.
      exact Hin.
Qed.

Lemma find_char_none c s : ~ In c s -> find [c] s = None.
Proof.
  induction s as [|x s IH]; intros H; simpl; [reflexivity|].
  destruct (c =? x) eqn:E.
  - apply N.eqb_eq in E. subst x. exfalso. apply H. left. reflexivity.
  - simpl. rewrite IH; [reflexivity|]. intros Hin. apply H. right. exact Hin.
Qed.

Lemma contains_char c s : contains [c] s = true <-> In c s.
Proof.
  unfold contains. split.
  - intros H. destruct (in_dec N.eq_dec c s) as [Hin|Hnot]; [exact Hin|].
    rewrite find_char_none in H by exact Hnot. discriminate.
  - intros H. apply in_split in H. destruct H as (a & b & ->).
    revert b. induction a as [|x a IH]; intros b; simpl.
    + rewrite N.eqb_refl. reflexivity.
    + destruct (c =? x); [reflexivity|]. simpl.
      specialize (IH b). destruct (find [c] (a ++ c :: b)); [reflexivity|].
      discriminate.
Qed.

Lemma split1_char c a b :
  ~ In c a -> split1 [c] (a ++ c :: b) = [a; b].
Proof.
  intros H. unfold split1. rewrite find_char by exact H. simpl.
  rewrite firstn_app, firstn_all, Nat.sub_diag. simpl. rewrite app_nil_r.
  rewrite Nat.add_1_r.
  replace (S (length a)) with (length (a ++ [c]))
    by (rewrite length_app; simpl; lia).
  replace (a ++ c :: b) with ((a ++ [c]) ++ b)
    by (rewrite <- app_assoc; reflexivity).
  rewrite skipn_app, skipn_all, Nat.sub_diag. reflexivity.
Qed.

Lemma upto_split c s :
  exists r, s = upto c s ++ r /\ ~ In c (upto c s)
            /\ (r = [] \/ exists r', r = c :: r').
Proof.
  unfold upto. induction s as [|x s IH]; simpl.
  - exists []. split; [reflexivity|]. split; [intros []|left; reflexivity].
  - destruct (x =? c) eqn:E; simpl.
    + apply N.eqb_eq in E. subst x. exists (c :: s).
      split; [reflexivity|]. split; [intros []|].
      right. exists s. reflexivity.
    + destruct IH as (r & Hs & Hnot & Hr).
      destruct (span (fun x0 => negb (x0 =? c)) s) as [a b]. simpl in *.
      exists r. split; [congruence|]. split; [|exact Hr].
      intros [H|H]; [|contradiction]. subst x.
      rewrite N.eqb_refl in E. discriminate.
Qed.

Lemma upto_app c a s : ~ In c a -> upto c (a ++ s) = a ++ upto c s.
Proof.
  unfold upto. induction a as [|x a IH]; intros H; simpl; [reflexivity|].
  destruct (x =? c) eqn:E.
  - apply N.eqb_eq in E. subst x. exfalso. apply H. left. reflexivity.
  - simpl. assert (Ha : ~ In c a) by (intros Hin; apply H; right; exact Hin).
    specialize (IH Ha).
    destruct (span (fun x0 => negb (x0 =? c)) (a ++ s)) as [p q].
    simpl in *. rewrite IH. reflexivity.
Qed.

(** The first piece of [s.split(c, 1)] *)
Lemma split1_head c s :
  match split1 [c] s with
  | piece :: _ => piece = upto c s
  | [] => False
  end.
Proof.
  destruct (upto_split c s) as (r & Hs & Hnot & [->|[r' ->]]).
  - rewrite app_nil_r in Hs. rewrite <- Hs in Hnot.
    unfold split1. rewrite find_char_none by exact Hnot. exact Hs.
  - revert Hs Hnot. generalize (upto c s). intros p -> Hnot.
    rewrite split1_char by exact Hnot. reflexivity.
Qed.

Lemma upto_cons_other c x s : x <> c -> upto c (x :: s) = x :: upto c s.
Proof.
  intros H. unfold upto. simpl. apply N.eqb_neq in H. rewrite H. simpl.
  destruct (span (fun x0 => negb (x0 =? c)) s). reflexivity.
Qed.

Lemma split1_head_default c s :
  match split1 [c] s with
  | piece :: _ => piece
  | [] => s
  end = upto c s.
Proof.
  pose proof (split1_head c s) as H.
  destruct (split1 [c] s); [destruct H | exact H].
Qed.

(** ** The shadowsocks renamer on plaintext credentials (C6) *)

Lemma split1_scheme p s : split1 p (p ++ s) = [[]; s].
Proof.
  unfold split1. rewrite find_prefix. simpl.
  rewrite skipn_app, skipn_all, Nat.sub_diag. reflexivity.
Qed.




(** ** Renaming a vmess link and parsing it again (C1) *)

Example extract_host_of_vmess_link :
  detect_protocol (rt := example_runtime) vmess_link = u "vmess"
  /\ extract_host (rt := example_runtime) vmess_link (u "vmess")
     = u "1.2.3.4:443".
Proof. split; vm_compute; reflexivity. Qed.


(** A port that is not written the way [str] writes an integer does not
    come back either: [int("0443")] is 443. *)
Example vmess_rename_normalises_port :
  extract_host (rt := example_runtime)
    (rename_vmess (rt := example_runtime) vmess_link (u "1.2.3.4")
       (u "0443") shatal_tag) (u "vmess") = u "1.2.3.4:443".
Proof. vm_compute. reflexivity. Qed.

(** *** Base64: decoding what was encoded, with a tail behind it *)

Ltac Zify.zify_post_hook ::= Z.to_euclidean_division_equations.

Lemma below_forall (f : N -> bool) (k : nat) :
  forallb f (map N.of_nat (seq 0 k)) = true ->
  forall n, n < N.of_nat k -> f n = true.
Proof.
  intros H n Hn. rewrite forallb_forall in H. apply H.
  apply in_map_iff. exists (N.to_nat n). split; [apply N2Nat.id|].
  apply in_seq. lia.
Qed.

Lemma b64_val_char n : n < 64 -> b64_val (b64_char n) = Some n.
Proof.
  intros H.
  pose proof (below_forall
                (fun n => match b64_val (b64_char n) with
                          | Some m => m =? n
                          | None => false
                          end) 64 eq_refl n H) as E.
  simpl in E. destruct (b64_val (b64_char n)); [|discriminate].
  apply N.eqb_eq in E. congruence.
Qed.

Lemma b64_char_not_pad n : n < 64 -> (b64_char n =? 61) = false.
Proof.
  intros H.
  pose proof (below_forall (fun n => negb (b64_char n =? 61)) 64 eq_refl n H)
    as E.
  simpl in E. apply negb_true_iff in E. exact E.
Qed.

Lemma b64_char_ascii n : n < 64 -> is_ascii (b64_char n) = true.
Proof.
  intros H.
  exact (below_forall (fun n => is_ascii (b64_char n)) 64 eq_refl n H).
Qed.

(** One alphabet character, read in each position of a quad. *)
Lemma a2b_base64_char v s quad_pos leftchar pads :
  v < 64 ->
  a2b_base64 (b64_char v :: s) quad_pos leftchar pads
  = match quad_pos with
    | 0%nat => a2b_base64 s 1%nat v O
    | 1%nat =>
        r <- a2b_base64 s 2%nat (v mod 16) O ;;
        Ok ((leftchar * 4 + v / 16) :: r)
    | 2%nat =>
        r <- a2b_base64 s 3%nat (v mod 4) O ;;
        Ok ((leftchar * 16 + v / 4) :: r)
    | _ => r <- a2b_base64 s O 0 O ;; Ok ((leftchar * 64 + v) :: r)
    end.
Proof.
  intros H. simpl. rewrite (b64_char_not_pad v H), (b64_val_char v H).
  reflexivity.
Qed.

Lemma a2b_base64_quad a b c s leftchar pads :
  a < 256 -> b < 256 -> c < 256 ->
  a2b_base64
    (b64_char (a / 4) :: b64_char ((a mod 4) * 16 + b / 16)
       :: b64_char ((b mod 16) * 4 + c / 64) :: b64_char (c mod 64) :: s)
    O leftchar pads
  = r <- a2b_base64 s O 0 O ;; Ok (a :: b :: c :: r).
Proof.
  intros Ha Hb Hc.
  rewrite !a2b_base64_char by lia.
  destruct (a2b_base64 s O 0 O) as [r|e]; simpl; [|reflexivity].
  f_equal. f_equal; [lia|]. f_equal; [lia|]. f_equal. lia.
Qed.

Lemma a2b_base64_padded bs :
  forall n rest,
    (length bs <= n)%nat ->
    Forall (fun b => b < 256) bs ->
    (length bs mod 3 <> 0)%nat ->
    a2b_base64 (b2a_base64 bs ++ rest) O 0 O = Ok bs.
Proof.
  intros n. revert bs.
  induction n as [|n IH]; intros bs rest Hlen Hbytes Hmod.
  - destruct bs; [exfalso; apply Hmod; reflexivity | simpl in Hlen; lia].
  - destruct bs as [|a [|b [|c bs]]].
    + exfalso. apply Hmod. reflexivity.
    + inversion Hbytes as [|? ? Ha _]; subst.
      cbn [b2a_base64 app].
      rewrite !a2b_base64_char by lia. simpl.
      f_equal. f_equal. lia.
    + inversion Hbytes as [|? ? Ha Hb']; subst.
      inversion Hb' as [|? ? Hb _]; subst.
      cbn [b2a_base64 app].
      rewrite !a2b_base64_char by lia. simpl.
      f_equal. f_equal; [lia|]. f_equal. lia.
    + inversion Hbytes as [|? ? Ha Hb']; subst.
      inversion Hb' as [|? ? Hb Hc']; subst.
      inversion Hc' as [|? ? Hc Hrest]; subst.
      cbn [b2a_base64 app].
      rewrite a2b_base64_quad by assumption.
      rewrite (IH bs rest).
      * reflexivity.
      * simpl in Hlen. lia.
      * exact Hrest.
      * intros E. apply Hmod.
        change (length (a :: b :: c :: bs)) with (3 + length bs)%nat.
        rewrite Nat.Div0.add_mod, E. reflexivity.
Qed.

Lemma b2a_base64_ascii bs :
  forall n, (length bs <= n)%nat ->
            Forall (fun b => b < 256) bs ->
            forallb is_ascii (b2a_base64 bs) = true.
Proof.
  intros n. revert bs. induction n as [|n IH]; intros bs Hlen Hbytes.
  - destruct bs; [reflexivity | simpl in Hlen; lia].
  - destruct bs as [|a [|b [|c bs]]]; [reflexivity| | |].
    + inversion Hbytes as [|? ? Ha _]; subst. cbn [b2a_base64 forallb].
      rewrite !b64_char_ascii by lia. reflexivity.
    + inversion Hbytes as [|? ? Ha Hb']; subst.
      inversion Hb' as [|? ? Hb _]; subst. cbn [b2a_base64 forallb].
      rewrite !b64_char_ascii by lia. reflexivity.
    + inversion Hbytes as [|? ? Ha Hb']; subst.
      inversion Hb' as [|? ? Hb Hc']; subst.
      inversion Hc' as [|? ? Hc Hrest]; subst. cbn [b2a_base64 forallb].
      rewrite !b64_char_ascii by lia. simpl.
      apply (IH bs); [simpl in Hlen; lia | exact Hrest].
Qed.

(** *** Decimal numbers: reading what was written *)

Lemma digits_val_app ds1 ds2 acc :
  digits_val (ds1 ++ ds2) acc = digits_val ds2 (digits_val ds1 acc).
Proof.
  revert acc. induction ds1 as [|d ds1 IH]; intros acc; simpl;
    [reflexivity|apply IH].
Qed.

Lemma dec_aux_step fuel n acc :
  dec_aux (S fuel) n acc
  = if n <? 10 then (48 + n mod 10) :: acc
    else dec_aux fuel (n / 10) ((48 + n mod 10) :: acc).
Proof. reflexivity. Qed.

Lemma last_digit_is_digit n : is_digit (48 + n mod 10) = true.
Proof.
  unfold is_digit. apply andb_true_iff; split; apply N.leb_le; lia.
Qed.

Lemma dec_aux_spec fuel :
  forall n acc,
    n < 2 ^ N.of_nat (S fuel) ->
    exists d ds,
      dec_aux (S fuel) n acc = d :: ds ++ acc
      /\ is_digit d = true
      /\ forallb is_digit ds = true
      /\ (0 < n -> d <> 48)
      /\ digits_val (d :: ds) 0 = n.
Proof.
  induction fuel as [|fuel IH]; intros n acc Hn.
  - change (2 ^ N.of_nat 1) with 2 in Hn.
    assert (Hlt : (n <? 10) = true) by (apply N.ltb_lt; lia).
    exists (48 + n mod 10), []. rewrite dec_aux_step, Hlt.
    split; [reflexivity|]. unfold is_digit.
    split; [apply andb_true_iff; split; apply N.leb_le; lia|].
    split; [reflexivity|]. split; [lia|]. cbn [digits_val]. lia.
  - rewrite dec_aux_step. destruct (n <? 10) eqn:Hlt.
    + apply N.ltb_lt in Hlt. exists (48 + n mod 10), [].
      split; [reflexivity|]. unfold is_digit.
      split; [apply andb_true_iff; split; apply N.leb_le; lia|].
      split; [reflexivity|]. split; [lia|]. cbn [digits_val]. lia.
    + apply N.ltb_ge in Hlt.
      assert (Hdiv : n / 10 < 2 ^ N.of_nat (S fuel)).
      { replace (N.of_nat (S (S fuel))) with (N.succ (N.of_nat (S fuel)))
          in Hn by lia.
        rewrite N.pow_succ_r' in Hn. lia. }
      destruct (IH (n / 10) ((48 + n mod 10) :: acc) Hdiv)
        as (d & ds & E & Hd & Hds & Hlead & Hval).
      exists d, (ds ++ [48 + n mod 10]).
      split; [rewrite E, <- app_assoc; reflexivity|].
      split; [exact Hd|].
      split.
      { rewrite forallb_app, Hds. cbn [forallb andb].
        rewrite last_digit_is_digit. reflexivity. }
      split; [intros _; apply Hlead; lia|].
      change (d :: ds ++ [48 + n mod 10]) with ((d :: ds) ++ [48 + n mod 10]).
      rewrite digits_val_app, Hval. cbn [digits_val]. lia.
Qed.

Lemma dec_of_N_spec n :
  exists d ds,
    dec_of_N n = d :: ds
    /\ is_digit d = true
    /\ forallb is_digit ds = true
    /\ (0 < n -> d <> 48)
    /\ digits_val (d :: ds) 0 = n.
Proof.
  unfold dec_of_N.
  assert (Hn : n < 2 ^ N.of_nat (S (N.to_nat (N.log2 n)))).
  { replace (N.of_nat (S (N.to_nat (N.log2 n)))) with (N.succ (N.log2 n))
      by lia.
    destruct n as [|p]; [reflexivity|].
    apply N.log2_spec. reflexivity. }
  destruct (dec_aux_spec _ n [] Hn) as (d & ds & E & H).
  exists d, ds. rewrite E, app_nil_r. split; [reflexivity|exact H].
Qed.

Lemma span_digits ds rest :
  forallb is_digit ds = true ->
  match rest with [] => true | c :: _ => negb (is_digit c) end = true ->
  span is_digit (ds ++ rest) = (ds, rest).
Proof.
  intros Hds Hrest. induction ds as [|d ds IH]; simpl.
  - destruct rest as [|c rest]; [reflexivity|]. simpl.
    apply negb_true_iff in Hrest. rewrite Hrest. reflexivity.
  - simpl in Hds. apply andb_true_iff in Hds. destruct Hds as [Hd Hds].
    rewrite Hd, (IH Hds). reflexivity.
Qed.

Lemma delimited_cases rest :
  delimited rest = true ->
  rest = [] \/ exists c r, rest = c :: r /\ (c = 44 \/ c = 93 \/ c = 125).
Proof.
  destruct rest as [|c r]; [left; reflexivity|]. simpl. intros H. right.
  exists c, r. split; [reflexivity|].
  apply orb_true_iff in H. destruct H as [H|H].
  - apply orb_true_iff in H. destruct H as [H|H]; apply N.eqb_eq in H; tauto.
  - apply N.eqb_eq in H. tauto.
Qed.

Lemma digit_cases d :
  is_digit d = true ->
  d = 48 \/ d = 49 \/ d = 50 \/ d = 51 \/ d = 52 \/ d = 53 \/ d = 54
  \/ d = 55 \/ d = 56 \/ d = 57.
Proof.
  unfold is_digit. intros H. apply andb_true_iff in H. destruct H as [H1 H2].
  apply N.leb_le in H1. apply N.leb_le in H2. lia.
Qed.

Lemma match_frac_delimited rest :
  delimited rest = true -> match_frac rest = ([], rest).
Proof.
  intros H.
  destruct (delimited_cases rest H) as [->|(c & r & -> & [->|[->| ->]])];
    reflexivity.
Qed.

Lemma match_exp_delimited rest :
  delimited rest = true -> match_exp rest = ([], rest).
Proof.
  intros H.
  destruct (delimited_cases rest H) as [->|(c & r & -> & [->|[->| ->]])];
    reflexivity.
Qed.

Lemma match_int_part_dec n rest :
  delimited rest = true ->
  match_int_part (dec_of_N n ++ rest) = Some (dec_of_N n, rest)
  /\ digits_val (dec_of_N n) 0 = n.
Proof.
  intros Hrest.
  destruct (dec_of_N_spec n) as (d & ds & E & Hd & Hds & Hlead & Hval).
  rewrite E. split; [|exact Hval].
  assert (Hnd : match rest with [] => true | c :: _ => negb (is_digit c) end
                = true).
  { destruct (delimited_cases rest Hrest) as [->|(c & r & -> & [->|[->| ->]])];
      reflexivity. }
  destruct (N.eq_dec n 0) as [Hz|Hnz].
  - rewrite Hz in E. vm_compute in E. injection E as <- <-. reflexivity.
  - assert (Hd1 : d <> 48) by (apply Hlead; lia).
    unfold match_int_part. cbn [app].
    assert (H19 : (49 <=? d) && (d <=? 57) = true).
    { unfold is_digit in Hd. apply andb_true_iff in Hd.
      destruct Hd as [H1 H2]. apply N.leb_le in H1. apply N.leb_le in H2.
      apply andb_true_iff. split; apply N.leb_le; lia. }
    rewrite H19, (span_digits ds rest Hds Hnd). reflexivity.
Qed.

(** The text of an integer, followed by a delimiter, is read back by the
    number scanner. *)
Lemma match_number_int z rest :
  int_fits z = true ->
  delimited rest = true ->
  match_number (dec_of_Z z ++ rest) = Ok (JInt z, rest).
Proof.
  intros Hfit Hrest.
  pose proof (match_frac_delimited rest Hrest) as Hfrac.
  pose proof (match_exp_delimited rest Hrest) as Hexp.
  assert (Hlen : (max_str_digits <? length (dec_of_N (Z.abs_N z)))%nat
                 = false).
  { apply Nat.ltb_ge. apply Nat.leb_le. exact Hfit. }
  destruct z as [|p|p].
  - destruct (match_int_part_dec 0 rest Hrest) as [Hint Hval].
    change (dec_of_Z 0) with (dec_of_N 0).
    unfold match_number. change (dec_of_N 0) with [48] in *. cbn [app] in *.
    rewrite Hint. cbv beta iota. rewrite Hfrac, Hexp. reflexivity.
  - destruct (match_int_part_dec (N.pos p) rest Hrest) as [Hint Hval].
    change (dec_of_Z (Z.pos p)) with (dec_of_N (N.pos p)).
    change (Z.abs_N (Z.pos p)) with (N.pos p) in Hlen.
    destruct (dec_of_N_spec (N.pos p)) as (d & ds & E & Hd & _).
    rewrite E in *. unfold match_number.
    destruct (digit_cases d Hd)
      as [->|[->|[->|[->|[->|[->|[->|[->|[->| ->]]]]]]]]];
      cbn [app] in *; rewrite Hint; cbv beta iota; rewrite Hfrac, Hexp;
      rewrite Hlen, Hval; reflexivity.
  - destruct (match_int_part_dec (N.pos p) rest Hrest) as [Hint Hval].
    change (dec_of_Z (Z.neg p)) with (45 :: dec_of_N (N.pos p)).
    change (Z.abs_N (Z.neg p)) with (N.pos p) in Hlen.
    unfold match_number. cbn [app]. rewrite Hint. cbv beta iota.
    rewrite Hfrac, Hexp, Hlen, Hval. reflexivity.
Qed.

Lemma scan_once_digit fuel d r :
  is_digit d = true -> scan_once (S fuel) (d :: r) = match_number (d :: r).
Proof.
  intros Hd.
  destruct (digit_cases d Hd)
    as [->|[->|[->|[->|[->|[->|[->|[->|[->| ->]]]]]]]]]; reflexivity.
Qed.

Lemma scan_once_minus fuel d r :
  is_digit d = true ->
  scan_once (S fuel) (45 :: d :: r) = match_number (45 :: d :: r).
Proof.
  intros Hd.
  destruct (digit_cases d Hd)
    as [->|[->|[->|[->|[->|[->|[->|[->|[->| ->]]]]]]]]]; reflexivity.
Qed.

Lemma scan_once_int fuel z rest :
  int_fits z = true ->
  delimited rest = true ->
  scan_once (S fuel) (dec_of_Z z ++ rest) = Ok (JInt z, rest).
Proof.
  intros Hfit Hrest. rewrite <- (match_number_int z rest Hfit Hrest).
  destruct z as [|p|p].
  - reflexivity.
  - change (dec_of_Z (Z.pos p)) with (dec_of_N (N.pos p)).
    destruct (dec_of_N_spec (N.pos p)) as (d & ds & E & Hd & _).
    rewrite E. cbn [app]. apply scan_once_digit. exact Hd.
  - change (dec_of_Z (Z.neg p)) with (45 :: dec_of_N (N.pos p)).
    destruct (dec_of_N_spec (N.pos p)) as (d & ds & E & Hd & _).
    rewrite E. cbn [app]. apply scan_once_minus. exact Hd.
Qed.

(** *** Strings: scanning what was escaped *)

Lemma hex_val_digit d : d < 16 -> hex_val (hex_digit d) = Some d.
Proof.
  intros H.
  pose proof (below_forall
                (fun d => match hex_val (hex_digit d) with
                          | Some m => m =? d
                          | None => false
                          end) 16 eq_refl d H) as E.
  simpl in E. destruct (hex_val (hex_digit d)); [|discriminate].
  apply N.eqb_eq in E. congruence.
Qed.

Lemma hex4_val_hex4 n :
  n < 65536 ->
  hex4_val (hex_digit (n / 4096)) (hex_digit ((n / 256) mod 16))
    (hex_digit ((n / 16) mod 16)) (hex_digit (n mod 16)) = Some n.
Proof.
  intros H. unfold hex4_val. rewrite !hex_val_digit by lia. f_equal. lia.
Qed.

Lemma scanstring_unicode_escape h1 h2 h3 h4 r2 :
  scanstring (92 :: 117 :: h1 :: h2 :: h3 :: h4 :: r2)
  = match hex4_val h1 h2 h3 h4 with
    | None => Raise JSONDecodeError
    | Some n =>
        let single := ' (t, k) <- scanstring r2 ;; Ok (n :: t, k) in
        if is_high_surrogate n then
          match r2 with
          | 92 :: 117 :: g1 :: g2 :: g3 :: g4 :: r4 =>
              match hex4_val g1 g2 g3 g4 with
              | None => Raise JSONDecodeError
              | Some m =>
                  if is_low_surrogate m then
                    ' (t, k) <- scanstring r4 ;;
                    Ok (join_surrogates n m :: t, k)
                  else single
              end
          | _ => single
          end
        else single
    end.
Proof. reflexivity. Qed.

Lemma scanstring_plain c r :
  (c =? 34) = false -> (c =? 92) = false -> (c <=? 31) = false ->
  scanstring (c :: r) = ' (t, k) <- scanstring r ;; Ok (c :: t, k).
Proof. intros H1 H2 H3. simpl. rewrite H1, H2, H3. reflexivity. Qed.

(** One escaped character is read back as that character. *)
Lemma scanstring_escape_char c tail :
  scalar c = true ->
  scanstring (escape_char c ++ tail)
  = ' (t, k) <- scanstring tail ;; Ok (c :: t, k).
Proof.
  intros Hc. unfold scalar in Hc. apply andb_true_iff in Hc.
  destruct Hc as [Hmax Hsur]. apply N.leb_le in Hmax.
  apply negb_true_iff in Hsur.
  unfold escape_char.
  destruct (c =? 34) eqn:E34; [apply N.eqb_eq in E34; subst; reflexivity|].
  destruct (c =? 92) eqn:E92; [apply N.eqb_eq in E92; subst; reflexivity|].
  destruct (c =? 10) eqn:E10; [apply N.eqb_eq in E10; subst; reflexivity|].
  destruct (c =? 13) eqn:E13; [apply N.eqb_eq in E13; subst; reflexivity|].
  destruct (c =? 9) eqn:E9; [apply N.eqb_eq in E9; subst; reflexivity|].
  destruct (c =? 8) eqn:E8; [apply N.eqb_eq in E8; subst; reflexivity|].
  destruct (c =? 12) eqn:E12; [apply N.eqb_eq in E12; subst; reflexivity|].
  destruct ((32 <=? c) && (c <=? 126)) eqn:Eprint.
  - apply andb_true_iff in Eprint. destruct Eprint as [H32 _].
    apply N.leb_le in H32. cbn [app].
    apply scanstring_plain; [exact E34 | exact E92 |].
    apply N.leb_gt. lia.
  - destruct (c <? 65536) eqn:Ebmp.
    + apply N.ltb_lt in Ebmp. unfold hex4. cbn [app].
      rewrite scanstring_unicode_escape, hex4_val_hex4 by exact Ebmp.
      cbv zeta.
      assert (Hhigh : is_high_surrogate c = false).
      { unfold is_high_surrogate. apply andb_false_iff.
        apply andb_false_iff in Hsur.
        destruct Hsur as [H|H]; [left; exact H|].
        right. apply N.leb_gt. apply N.leb_gt in H. lia. }
      rewrite Hhigh. reflexivity.
    + apply N.ltb_ge in Ebmp. cbv zeta. unfold hex4. cbn [app].
      rewrite scanstring_unicode_escape.
      rewrite hex4_val_hex4 by lia. cbv zeta.
      assert (Hhigh : is_high_surrogate (55296 + (c - 65536) / 1024) = true).
      { unfold is_high_surrogate. apply andb_true_iff.
        split; apply N.leb_le; lia. }
      rewrite Hhigh, hex4_val_hex4 by lia.
      assert (Hlow : is_low_surrogate (56320 + (c - 65536) mod 1024) = true).
      { unfold is_low_surrogate. apply andb_true_iff.
        split; apply N.leb_le; lia. }
      rewrite Hlow.
      assert (Hjoin : join_surrogates (55296 + (c - 65536) / 1024)
                        (56320 + (c - 65536) mod 1024) = c).
      { unfold join_surrogates. lia. }
      rewrite Hjoin. reflexivity.
Qed.

Lemma scanstring_escaped s rest :
  scalar_str s = true ->
  scanstring (flat_map escape_char s ++ 34 :: rest) = Ok (s, rest).
Proof.
  intros H. induction s as [|c s IH]; [reflexivity|].
  simpl in H. apply andb_true_iff in H. destruct H as [Hc Hs].
  cbn [flat_map]. rewrite <- app_assoc, scanstring_escape_char by exact Hc.
  rewrite (IH Hs). reflexivity.
Qed.

Lemma scan_once_string fuel s rest :
  scalar_str s = true ->
  scan_once (S fuel) (encode_string s ++ rest) = Ok (JStr s, rest).
Proof.
  intros H. unfold encode_string. cbn [app scan_once].
  change (34 =? 34) with true. cbv iota.
  rewrite <- app_assoc. cbn [app]. rewrite scanstring_escaped by exact H.
  reflexivity.
Qed.

(** *** Values: an induction principle that reaches the nested lists *)

Lemma json_nested_ind (P : json -> Prop) :
  P JNull ->
  (forall b, P (JBool b)) ->
  (forall z, P (JInt z)) ->
  (forall lit, P (JFloat lit)) ->
  (forall s, P (JStr s)) ->
  (forall items, Forall P items -> P (JArr items)) ->
  (forall pairs, Forall (fun kv => P (snd kv)) pairs -> P (JObj pairs)) ->
  forall v, P v.
Proof.
  intros HNull HBool HInt HFloat HStr HArr HObj.
  fix IH 1. intros v. destruct v as [|b|z|lit|s|items|pairs].
  - exact HNull.
  - apply HBool.
  - apply HInt.
  - apply HFloat.
  - apply HStr.
  - apply HArr. induction items as [|x items IHitems].
    + constructor.
    + constructor; [apply IH | exact IHitems].
  - apply HObj. induction pairs as [|[k x] pairs IHpairs].
    + constructor.
    + constructor; [apply IH | exact IHpairs].
Qed.

Lemma dict_set_fresh {V} k (v : V) d :
  existsb (eqb_str k) (dict_keys d) = false -> dict_set k v d = d ++ [(k, v)].
Proof.
  induction d as [|[k' v'] d IH]; simpl; [reflexivity|].
  intros H. apply orb_false_iff in H. destruct H as [Hk Hd].
  rewrite Hk, (IH Hd). reflexivity.
Qed.

Lemma existsb_eqb_str_app k a b :
  existsb (eqb_str k) (a ++ b) = existsb (eqb_str k) a || existsb (eqb_str k) b.
Proof. apply existsb_app. Qed.

Lemma eqb_str_sym a b : eqb_str a b = eqb_str b a.
Proof.
  destruct (eqb_str a b) eqn:E.
  - apply eqb_str_eq in E. subst. symmetry. apply eqb_str_refl.
  - symmetry. apply eqb_str_neq. apply eqb_str_neq in E. congruence.
Qed.

Lemma dict_update_distinct {V} (pairs : list (str * V)) :
  forall d,
    keys_distinct (dict_keys d ++ map fst pairs) = true ->
    dict_update d pairs = d ++ pairs.
Proof.
  unfold dict_update.
  induction pairs as [|[k v] pairs IH]; intros d H; simpl.
  - rewrite app_nil_r. reflexivity.
  - assert (Hfresh : existsb (eqb_str k) (dict_keys d) = false).
    { clear IH. induction d as [|[k' v'] d IHd]; [reflexivity|].
      simpl in H. apply andb_true_iff in H. destruct H as [Hk Hd].
      simpl. apply negb_true_iff in Hk.
      rewrite existsb_app in Hk. apply orb_false_iff in Hk.
      destruct Hk as [_ Hk]. simpl in Hk. apply orb_false_iff in Hk.
      destruct Hk as [Hk _]. rewrite eqb_str_sym, Hk. simpl.
      apply IHd. exact Hd. }
    rewrite (dict_set_fresh k v d Hfresh), IH.
    + rewrite <- app_assoc. reflexivity.
    + unfold dict_keys in *. rewrite map_app. simpl.
      rewrite <- app_assoc. exact H.
Qed.

Lemma dict_of_pairs_distinct {V} (pairs : list (str * V)) :
  keys_distinct (map fst pairs) = true -> dict_of_pairs pairs = pairs.
Proof.
  intros H. unfold dict_of_pairs. rewrite dict_update_distinct; [reflexivity|].
  exact H.
Qed.

Lemma join_cons_app sep x l : exists t, join sep (x :: l) = x ++ t.
Proof.
  destruct l as [|y l].
  - exists []. simpl. rewrite app_nil_r. reflexivity.
  - exists (sep ++ join sep (y :: l)). reflexivity.
Qed.

Section JsonRoundTrip.
Context {rt : Runtime}.

(** A written value starts with a visible ASCII character that closes
    nothing. *)
Lemma floats_read_back_arr items :
  floats_read_back (JArr items) ->
  forall x, In x items -> floats_read_back x.
Proof.
  intros H x Hx f Hf. apply H. cbn [json_floats]. apply in_flat_map.
  exists x. split; assumption.
Qed.

Lemma floats_read_back_obj pairs :
  floats_read_back (JObj pairs) ->
  forall k x, In (k, x) pairs -> floats_read_back x.
Proof.
  intros H k x Hx f Hf. apply H. cbn [json_floats]. apply in_flat_map.
  exists (k, x). split; assumption.
Qed.

(** The text of a float that reads back starts like a number. *)
Lemma float_text_head f :
  float_reads_back f ->
  exists c r,
    float_json f = c :: r
    /\ is_json_ws c = false
    /\ (c =? 93) = false /\ (c =? 125) = false /\ (c =? 65279) = false.
Proof.
  intros [_ H]. specialize (H O [] eq_refl). rewrite app_nil_r in H.
  destruct (float_json f) as [|c r]; [discriminate H|].
  exists c, r. split; [reflexivity|].
  assert (Hc : forall x, c = x -> scan_once 1 (x :: r) = Ok (JFloat f, []))
    by (intros x <-; exact H).
  repeat split.
  - destruct (is_json_ws c) eqn:E; [|reflexivity]. exfalso.
    unfold is_json_ws in E.
    repeat (apply orb_true_iff in E; destruct E as [E|E]);
      apply N.eqb_eq in E; specialize (Hc _ E); vm_compute in Hc;
      discriminate Hc.
  - destruct (c =? 93) eqn:E; [|reflexivity]. exfalso.
    apply N.eqb_eq in E. specialize (Hc _ E). vm_compute in Hc.
    discriminate Hc.
  - destruct (c =? 125) eqn:E; [|reflexivity]. exfalso.
    apply N.eqb_eq in E. specialize (Hc _ E). vm_compute in Hc.
    discriminate Hc.
  - destruct (c =? 65279) eqn:E; [|reflexivity]. exfalso.
    apply N.eqb_eq in E. specialize (Hc _ E). vm_compute in Hc.
    discriminate Hc.
Qed.

Lemma json_dumps_head v :
  json_plain v = true -> floats_read_back v ->
  exists c r,
    json_dumps v = c :: r
    /\ is_json_ws c = false
    /\ (c =? 93) = false /\ (c =? 125) = false /\ (c =? 65279) = false.
Proof.
  destruct v as [|b|z|f|s|items|pairs]; intros H Hfl;
    [| | |apply float_text_head; apply Hfl; left; reflexivity| | |].
  - exists 110, (u "ull"). repeat split.
  - destruct b; [exists 116, (u "rue") | exists 102, (u "alse")];
      repeat split.
  - destruct z as [|p|p].
    + exists 48, []. repeat split.
    + destruct (dec_of_N_spec (N.pos p)) as (d & ds & E & Hd & _).
      exists d, ds. split; [exact E|].
      destruct (digit_cases d Hd)
        as [->|[->|[->|[->|[->|[->|[->|[->|[->| ->]]]]]]]]]; repeat split.
    + exists 45, (dec_of_N (N.pos p)). repeat split.
  - exists 34, (flat_map escape_char s ++ [34]). repeat split.
  - eexists 91, _. split; [reflexivity|]. repeat split.
  - eexists 123, _. split; [reflexivity|]. repeat split.
Qed.

Lemma skip_ws_dumps v x :
  json_plain v = true -> floats_read_back v ->
  skip_ws (json_dumps v ++ x) = json_dumps v ++ x.
Proof.
  intros H Hfl. destruct (json_dumps_head v H Hfl) as (c & r & E & Hws & _).
  rewrite E. simpl. rewrite Hws. reflexivity.
Qed.

End JsonRoundTrip.

Lemma skip_ws_visible c r : is_json_ws c = false -> skip_ws (c :: r) = c :: r.
Proof. intros H. simpl. rewrite H. reflexivity. Qed.

Lemma skip_ws_visible_eq s c r :
  s = c :: r -> is_json_ws c = false -> skip_ws s = s.
Proof. intros -> H. apply skip_ws_visible. exact H. Qed.

Lemma parse_array_step f s :
  parse_array (S f) s
  = ' (val, r1) <- scan_once f s ;;
    match next_is 93 (skip_ws r1) with
    | Some k => Ok ([val], k)
    | None =>
        match next_is 44 (skip_ws r1) with
        | Some r2 =>
            ' (rest, k) <- parse_array f (skip_ws r2) ;; Ok (val :: rest, k)
        | None => Raise JSONDecodeError
        end
    end.
Proof. reflexivity. Qed.

Lemma parse_object_step f s :
  parse_object (S f) s
  = match next_is 34 s with
    | Some r =>
        ' (key, r1) <- scanstring r ;;
        match next_is 58 (skip_ws r1) with
        | Some r2 =>
            ' (val, r3) <- scan_once f (skip_ws r2) ;;
            match next_is 125 (skip_ws r3) with
            | Some k => Ok ([(key, val)], k)
            | None =>
                match next_is 44 (skip_ws r3) with
                | Some r4 =>
                    ' (rest, k) <- parse_object f (skip_ws r4) ;;
                    Ok ((key, val) :: rest, k)
                | None => Raise JSONDecodeError
                end
            end
        | None => Raise JSONDecodeError
        end
    | None => Raise JSONDecodeError
    end.
Proof. reflexivity. Qed.

Lemma scan_once_array f r :
  scan_once (S f) (91 :: r)
  = match next_is 93 (skip_ws r) with
    | Some k => Ok (JArr [], k)
    | None => ' (vs, k) <- parse_array f (skip_ws r) ;; Ok (JArr vs, k)
    end.
Proof. reflexivity. Qed.

Lemma scan_once_object f r :
  scan_once (S f) (123 :: r)
  = match next_is 125 (skip_ws r) with
    | Some k => Ok (JObj [], k)
    | None =>
        ' (kv, k) <- parse_object f (skip_ws r) ;;
        Ok (JObj (dict_of_pairs kv), k)
    end.
Proof. reflexivity. Qed.

Section JsonValues.
Context {rt : Runtime}.

Lemma pair_text k x tail :
  (encode_string k ++ u ": " ++ json_dumps x) ++ tail
  = 34 :: flat_map escape_char k ++ 34 :: 58 :: 32 :: json_dumps x ++ tail.
Proof.
  unfold encode_string. change (u ": ") with [58; 32].
  cbn [app]. rewrite <- !app_assoc. reflexivity.
Qed.

Lemma parse_array_dumps items :
  Forall reads_back items ->
  forallb json_plain items = true ->
  (forall x, In x items -> floats_read_back x) ->
  items <> [] ->
  forall fuel rest,
    (fold_right (fun x acc => S (json_size x + acc)) O items <= fuel)%nat ->
    parse_array fuel (join (u ", ") (map json_dumps items) ++ 93 :: rest)
    = Ok (items, rest).
Proof.
  induction items as [|v items IH]; intros HP Hplain Hfl Hne fuel rest Hfuel;
    [contradiction|].
  inversion HP as [|? ? Hv HPrest]; subst.
  simpl in Hplain. apply andb_true_iff in Hplain.
  destruct Hplain as [Hpv Hprest].
  pose proof (Hfl v (or_introl eq_refl)) as Hfv.
  assert (Hflrest : forall x, In x items -> floats_read_back x)
    by (intros x Hx; apply Hfl; right; exact Hx).
  cbn [fold_right] in Hfuel. destruct fuel as [|f]; [lia|].
  rewrite parse_array_step.
  destruct items as [|v2 items].
  - cbn [map join].
    rewrite (Hv Hpv Hfv f (93 :: rest))
      by (reflexivity || (simpl in Hfuel; lia)).
    reflexivity.
  - cbn [map]. rewrite join_cons. change (u ", ") with [44; 32].
    rewrite <- !app_assoc. cbn [app].
    rewrite (Hv Hpv Hfv f)
      by (reflexivity || (cbn [fold_right] in Hfuel; lia)).
    cbn [bind]. rewrite skip_ws_visible by reflexivity.
    cbn [next_is]. change (44 =? 93) with false. change (44 =? 44) with true.
    cbv iota.
    assert (Hskip : forall x,
               skip_ws (32 :: join [44; 32] (json_dumps v2 :: map json_dumps items)
                          ++ x)
               = join [44; 32] (json_dumps v2 :: map json_dumps items) ++ x).
    { intros x. cbn [skip_ws]. change (is_json_ws 32) with true. cbv iota.
      destruct (join_cons_app [44; 32] (json_dumps v2) (map json_dumps items))
        as [t Et].
      rewrite Et, <- app_assoc. apply skip_ws_dumps.
      - simpl in Hprest. apply andb_true_iff in Hprest. tauto.
      - apply Hflrest. left. reflexivity. }
    rewrite Hskip.
    change (json_dumps v2 :: map json_dumps items)
      with (map json_dumps (v2 :: items)).
    change [44; 32] with (u ", ").
    rewrite (IH HPrest Hprest Hflrest).
    + reflexivity.
    + discriminate.
    + cbn [fold_right] in *. lia.
Qed.

Lemma parse_object_dumps pairs :
  Forall (fun kv => reads_back (snd kv)) pairs ->
  forallb (fun kv => let '(k, x) := kv in scalar_str k && json_plain x) pairs
  = true ->
  (forall k x, In (k, x) pairs -> floats_read_back x) ->
  pairs <> [] ->
  forall fuel rest,
    (fold_right (fun kv acc => let '(_, x) := kv in S (json_size x + acc))
       O pairs <= fuel)%nat ->
    parse_object fuel
      (join (u ", ")
         (map (fun kv => let '(k, x) := kv in
                         encode_string k ++ u ": " ++ json_dumps x) pairs)
       ++ 125 :: rest)
    = Ok (pairs, rest).
Proof.
  induction pairs as [|[k v] pairs IH];
    intros HP Hplain Hfl Hne fuel rest Hfuel; [contradiction|].
  inversion HP as [|? ? Hv HPrest]; subst. simpl in Hv.
  simpl in Hplain. apply andb_true_iff in Hplain.
  destruct Hplain as [Hkv Hprest]. apply andb_true_iff in Hkv.
  destruct Hkv as [Hk Hpv].
  pose proof (Hfl k v (or_introl eq_refl)) as Hfv.
  assert (Hflrest : forall k' x, In (k', x) pairs -> floats_read_back x)
    by (intros k' x Hx; apply (Hfl k'); right; exact Hx).
  cbn [fold_right] in Hfuel. destruct fuel as [|f]; [lia|].
  rewrite parse_object_step.
  destruct pairs as [|[k2 v2] pairs].
  - cbn [map join]. rewrite pair_text. cbn [next_is].
    change (34 =? 34) with true. cbv iota.
    rewrite scanstring_escaped by exact Hk. cbn [bind].
    rewrite skip_ws_visible by reflexivity. cbn [next_is].
    change (58 =? 58) with true. cbv iota.
    cbn [skip_ws]. change (is_json_ws 32) with true. cbv iota.
    rewrite skip_ws_dumps by assumption.
    rewrite (Hv Hpv Hfv f (125 :: rest)) by (reflexivity || lia).
    reflexivity.
  - cbn [map]. rewrite join_cons. change (u ", ") with [44; 32].
    rewrite <- app_assoc. rewrite pair_text. cbn [next_is].
    change (34 =? 34) with true. cbv iota.
    rewrite scanstring_escaped by exact Hk. cbn [bind].
    rewrite skip_ws_visible by reflexivity. cbn [next_is].
    change (58 =? 58) with true. cbv iota.
    cbn [skip_ws]. change (is_json_ws 32) with true. cbv iota.
    rewrite skip_ws_dumps by assumption.
    rewrite <- app_assoc. cbn [app].
    rewrite (Hv Hpv Hfv f) by (reflexivity || lia).
    cbn [bind]. rewrite skip_ws_visible by reflexivity.
    cbn [next_is]. change (44 =? 125) with false. change (44 =? 44) with true.
    cbv iota.
    assert (Hskip : forall t x, skip_ws (32 :: (encode_string k2 ++ t) ++ x)
                                = (encode_string k2 ++ t) ++ x).
    { intros t x. reflexivity. }
    match goal with
    | |- context [join [44; 32] (?h :: ?tl)] =>
        destruct (join_cons_app [44; 32] h tl) as [t Et]; rewrite Et
    end.
    rewrite <- (app_assoc (encode_string k2)), Hskip, app_assoc, <- Et.
    change [44; 32] with (u ", ").
    match goal with
    | |- context [parse_object f (join (u ", ") ?l ++ _)] =>
        change l with
          (map (fun kv : str * json =>
                  let '(k, x) := kv in
                  encode_string k ++ u ": " ++ json_dumps x)
             ((k2, v2) :: pairs))
    end.
    rewrite (IH HPrest Hprest Hflrest).
    + reflexivity.
    + discriminate.
    + cbn [fold_right] in *. lia.
Qed.

End JsonValues.

Section JsonLoadsDumps.
Context {rt : Runtime}.

(** A written value, followed by a delimiter or by nothing, is scanned back
    to itself and the scanner stops where the value ends. *)
Lemma scan_once_dumps v :
  json_plain v = true -> floats_read_back v ->
  forall fuel rest,
    (json_size v <= fuel)%nat -> delimited rest = true ->
    scan_once fuel (json_dumps v ++ rest) = Ok (v, rest).
Proof.
  induction v as [|b|z|x|s|items IH|pairs IH] using json_nested_ind;
    intros Hplain Hfl fuel rest Hfuel Hrest.
  - destruct fuel as [|f]; [simpl in Hfuel; lia|]. reflexivity.
  - destruct fuel as [|f]; [simpl in Hfuel; lia|]. destruct b; reflexivity.
  - destruct fuel as [|f]; [simpl in Hfuel; lia|].
    apply scan_once_int; [exact Hplain | exact Hrest].
  - destruct fuel as [|f]; [simpl in Hfuel; lia|].
    apply (Hfl x (or_introl eq_refl)). exact Hrest.
  - destruct fuel as [|f]; [simpl in Hfuel; lia|].
    apply scan_once_string. exact Hplain.
  - cbn [json_size] in Hfuel. destruct fuel as [|f]; [lia|].
    cbn [json_dumps]. cbn [app]. rewrite <- app_assoc. cbn [app].
    rewrite scan_once_array.
    destruct items as [|v items]; [reflexivity|].
    cbn [json_plain] in Hplain.
    assert (Hhead : exists c r,
               join (u ", ") (map json_dumps (v :: items)) ++ 93 :: rest
               = c :: r /\ is_json_ws c = false /\ (c =? 93) = false).
    { cbn [map].
      destruct (join_cons_app (u ", ") (json_dumps v) (map json_dumps items))
        as [t Et].
      rewrite Et.
      simpl in Hplain. apply andb_true_iff in Hplain.
      destruct (json_dumps_head v (proj1 Hplain)
                  (floats_read_back_arr _ Hfl v (or_introl eq_refl)))
        as (c & r & E & Hws & H93 & _).
      rewrite E. exists c, (r ++ t ++ 93 :: rest).
      split; [|tauto]. cbn [app]. rewrite <- app_assoc. reflexivity. }
    destruct Hhead as (c & r & E & Hws & H93).
    rewrite skip_ws_visible_eq with (c := c) (r := r) by assumption.
    rewrite E at 1. cbn [next_is]. rewrite H93.
    rewrite (parse_array_dumps (v :: items) IH Hplain
               (floats_read_back_arr _ Hfl)); [reflexivity| |].
    + discriminate.
    + lia.
  - cbn [json_size] in Hfuel. destruct fuel as [|f]; [lia|].
    cbn [json_dumps]. cbn [app]. rewrite <- app_assoc. cbn [app].
    rewrite scan_once_object.
    destruct pairs as [|[k v] pairs]; [reflexivity|].
    cbn [json_plain] in Hplain. apply andb_true_iff in Hplain.
    destruct Hplain as [Hkeys Hplain].
    assert (Hhead : exists r,
               join (u ", ")
                 (map (fun kv : str * json =>
                         let '(k0, x) := kv in
                         encode_string k0 ++ u ": " ++ json_dumps x)
                    ((k, v) :: pairs)) ++ 125 :: rest
               = 34 :: r).
    { destruct pairs as [|kv2 pairs']; eexists; cbn [map join];
        unfold encode_string; cbn [app]; reflexivity. }
    destruct Hhead as (r & E).
    rewrite skip_ws_visible_eq with (c := 34) (r := r)
      by (reflexivity || exact E).
    rewrite E at 1. cbn [next_is]. change (34 =? 125) with false. cbv iota.
    rewrite (parse_object_dumps ((k, v) :: pairs) IH Hplain
               (floats_read_back_obj _ Hfl)).
    + cbn [bind]. rewrite dict_of_pairs_distinct by exact Hkeys. reflexivity.
    + discriminate.
    + lia.
Qed.

End JsonLoadsDumps.

(** *** Size and alphabet of a written value *)

Lemma forallb_join p sep xs :
  forallb p sep = true ->
  Forall (fun x => forallb p x = true) xs ->
  forallb p (join sep xs) = true.
Proof.
  intros Hsep H. induction H as [|x xs Hx Hxs IH]; [reflexivity|].
  destruct xs as [|y xs]; [exact Hx|].
  rewrite join_cons, forallb_app, forallb_app, Hx, Hsep. exact IH.
Qed.

Lemma hex_digit_ascii d : d < 16 -> is_ascii (hex_digit d) = true.
Proof.
  intros H. exact (below_forall (fun d => is_ascii (hex_digit d)) 16 eq_refl d H).
Qed.

Lemma hex4_ascii n : n < 65536 -> forallb is_ascii (hex4 n) = true.
Proof.
  intros H. unfold hex4. cbn [forallb].
  rewrite !hex_digit_ascii by lia. reflexivity.
Qed.

Lemma escape_char_ascii c :
  scalar c = true -> forallb is_ascii (escape_char c) = true.
Proof.
  intros Hc. unfold scalar in Hc. apply andb_true_iff in Hc.
  destruct Hc as [Hmax _]. apply N.leb_le in Hmax. unfold escape_char.
  repeat match goal with
         | |- context [if ?c =? ?k then _ else _] =>
             destruct (c =? k); [reflexivity|]
         end.
  destruct ((32 <=? c) && (c <=? 126)) eqn:Eprint.
  - apply andb_true_iff in Eprint. destruct Eprint as [_ H].
    apply N.leb_le in H. cbn [forallb]. unfold is_ascii.
    rewrite andb_true_r. apply N.ltb_lt. lia.
  - destruct (c <? 65536) eqn:Ebmp.
    + apply N.ltb_lt in Ebmp. cbn [forallb].
      rewrite hex4_ascii by exact Ebmp. reflexivity.
    + apply N.ltb_ge in Ebmp. cbv zeta. rewrite forallb_app. cbn [forallb].
      rewrite !hex4_ascii by lia. reflexivity.
Qed.

Lemma encode_string_ascii s :
  scalar_str s = true -> forallb is_ascii (encode_string s) = true.
Proof.
  intros H. unfold encode_string. cbn [forallb].
  rewrite forallb_app. cbn [forallb]. rewrite andb_true_r.
  change (is_ascii 34) with true. cbn [andb].
  induction s as [|c s IH]; [reflexivity|].
  simpl in H. apply andb_true_iff in H. destruct H as [Hc Hs].
  cbn [flat_map]. rewrite forallb_app, (escape_char_ascii c Hc), (IH Hs).
  reflexivity.
Qed.

Lemma dec_of_Z_ascii z : forallb is_ascii (dec_of_Z z) = true.
Proof.
  assert (Hdigits : forall ds, forallb is_digit ds = true ->
                               forallb is_ascii ds = true).
  { induction ds as [|d ds IH]; [reflexivity|]. simpl. intros H.
    apply andb_true_iff in H. destruct H as [Hd Hds].
    rewrite (IH Hds), andb_true_r. unfold is_digit in Hd.
    apply andb_true_iff in Hd. destruct Hd as [_ H57].
    apply N.leb_le in H57. unfold is_ascii. apply N.ltb_lt. lia. }
  assert (Hnat : forall n, forallb is_ascii (dec_of_N n) = true).
  { intros n. destruct (dec_of_N_spec n) as (d & ds & E & Hd & Hds & _).
    rewrite E. apply Hdigits. simpl. rewrite Hd, Hds. reflexivity. }
  destruct z as [|p|p]; [reflexivity | apply Hnat |].
  change (dec_of_Z (Z.neg p)) with (45 :: dec_of_N (N.pos p)).
  cbn [forallb]. rewrite Hnat. reflexivity.
Qed.

Lemma dec_of_Z_length z : (1 <= length (dec_of_Z z))%nat.
Proof.
  destruct z as [|p|p]; [simpl; lia| |].
  - change (dec_of_Z (Z.pos p)) with (dec_of_N (N.pos p)).
    destruct (dec_of_N_spec (N.pos p)) as (d & ds & E & _). rewrite E.
    simpl. lia.
  - change (dec_of_Z (Z.neg p)) with (45 :: dec_of_N (N.pos p)). simpl. lia.
Qed.

Section JsonText.
Context {rt : Runtime}.

Lemma json_dumps_ascii v :
  json_plain v = true -> floats_read_back v ->
  forallb is_ascii (json_dumps v) = true.
Proof.
  induction v as [|b|z|x|s|items IH|pairs IH] using json_nested_ind;
    intros Hplain Hfl.
  - reflexivity.
  - destruct b; reflexivity.
  - apply dec_of_Z_ascii.
  - exact (proj1 (Hfl x (or_introl eq_refl))).
  - apply encode_string_ascii. exact Hplain.
  - cbn [json_dumps forallb]. rewrite forallb_app. cbn [forallb].
    change (is_ascii 91) with true. change (is_ascii 93) with true.
    cbn [andb]. rewrite andb_true_r.
    apply forallb_join; [reflexivity|].
    cbn [json_plain] in Hplain. rewrite forallb_forall in Hplain.
    apply Forall_forall. intros x Hx. apply in_map_iff in Hx.
    destruct Hx as (v & <- & Hv). rewrite Forall_forall in IH.
    apply IH; [exact Hv| |].
    + apply Hplain. exact Hv.
    + exact (floats_read_back_arr _ Hfl v Hv).
  - cbn [json_dumps forallb]. rewrite forallb_app. cbn [forallb].
    change (is_ascii 123) with true. change (is_ascii 125) with true.
    cbn [andb]. rewrite andb_true_r.
    apply forallb_join; [reflexivity|].
    cbn [json_plain] in Hplain. apply andb_true_iff in Hplain.
    destruct Hplain as [_ Hplain]. rewrite forallb_forall in Hplain.
    apply Forall_forall. intros x Hx. apply in_map_iff in Hx.
    destruct Hx as ([k v] & <- & Hv). rewrite Forall_forall in IH.
    specialize (Hplain _ Hv). simpl in Hplain.
    apply andb_true_iff in Hplain. destruct Hplain as [Hk Hpv].
    rewrite !forallb_app, (encode_string_ascii k Hk).
    specialize (IH _ Hv Hpv (floats_read_back_obj _ Hfl k v Hv)).
    simpl in IH. rewrite IH. reflexivity.
Qed.

Lemma json_size_le_length v :
  json_plain v = true -> floats_read_back v ->
  (json_size v <= length (json_dumps v))%nat.
Proof.
  induction v as [|b|z|x|s|items IH|pairs IH] using json_nested_ind;
    intros Hplain Hfl.
  - simpl. lia.
  - destruct b; simpl; lia.
  - cbn [json_size json_dumps]. apply dec_of_Z_length.
  - cbn [json_size json_dumps].
    destruct (float_text_head x (Hfl x (or_introl eq_refl)))
      as (c & r & E & _).
    rewrite E. cbn [length]. lia.
  - cbn [json_size json_dumps]. unfold encode_string. simpl. lia.
  - cbn [json_size json_dumps]. cbn [length]. rewrite length_app.
    cbn [length]. cbn [json_plain] in Hplain.
    assert (H : (fold_right (fun x acc => S (json_size x + acc)) O items
                 <= length (join (u ", ") (map json_dumps items)) + 1)%nat).
    { pose proof (floats_read_back_arr _ Hfl) as Hall. clear Hfl.
      induction items as [|v items IHitems]; [simpl; lia|].
      inversion IH as [|? ? Hv Hrest]; subst.
      simpl in Hplain. apply andb_true_iff in Hplain.
      destruct Hplain as [Hpv Hprest].
      specialize (Hv Hpv (Hall v (or_introl eq_refl))).
      specialize (IHitems Hrest Hprest
                    (fun x Hx => Hall x (or_intror Hx))).
      destruct items as [|v2 items].
      - cbn [fold_right map join]. lia.
      - cbn [map]. rewrite join_cons, !length_app.
        cbn [fold_right map] in *. change (length (u ", ")) with 2%nat. lia. }
    lia.
  - cbn [json_size json_dumps]. cbn [length]. rewrite length_app.
    cbn [length]. cbn [json_plain] in Hplain. apply andb_true_iff in Hplain.
    destruct Hplain as [_ Hplain].
    assert (H : (fold_right
                   (fun kv acc => let '(_, x) := kv in S (json_size x + acc))
                   O pairs
                 <= length
                      (join (u ", ")
                         (map (fun kv : str * json =>
                                 let '(k, x) := kv in
                                 encode_string k ++ u ": " ++ json_dumps x)
                            pairs)) + 1)%nat).
    { pose proof (floats_read_back_obj _ Hfl) as Hall. clear Hfl.
      induction pairs as [|[k v] pairs IHpairs]; [simpl; lia|].
      inversion IH as [|? ? Hv Hrest]; subst. simpl in Hv.
      simpl in Hplain. apply andb_true_iff in Hplain.
      destruct Hplain as [Hkv Hprest]. apply andb_true_iff in Hkv.
      destruct Hkv as [_ Hpv].
      specialize (Hv Hpv (Hall k v (or_introl eq_refl))).
      specialize (IHpairs Hrest Hprest
                    (fun k' x Hx => Hall k' x (or_intror Hx))).
      destruct pairs as [|[k2 v2] pairs].
      - cbn [fold_right map join]. rewrite !length_app. lia.
      - cbn [map]. rewrite join_cons, !length_app.
        cbn [fold_right map] in *. change (length (u ", ")) with 2%nat.
        set (L2 := length (join _ _)) in *.
        set (F := fold_right _ _ _) in *. clearbody L2 F. lia. }
    lia.
Qed.

(** [json.loads(json.dumps(v))] is [v], for every plain value whose
    floats are printed as Python prints them. *)
Lemma json_loads_dumps v :
  json_plain v = true -> floats_read_back v ->
  json_loads (json_dumps v) = Ok v.
Proof.
  intros Hplain Hfl. unfold json_loads.
  destruct (json_dumps_head v Hplain Hfl)
    as (c & r & E & Hws & _ & _ & Hbom).
  assert (Hstart : starts_with [65279] (json_dumps v) = false).
  { rewrite E. cbn [starts_with]. rewrite N.eqb_sym, Hbom. reflexivity. }
  rewrite Hstart.
  rewrite skip_ws_visible_eq with (c := c) (r := r) by assumption.
  rewrite <- (app_nil_r (json_dumps v)) at 2.
  rewrite scan_once_dumps;
    [reflexivity | exact Hplain | exact Hfl | | reflexivity].
  pose proof (json_size_le_length v Hplain Hfl). lia.
Qed.

End JsonText.

(** *** UTF-8 and [quote] on the texts at hand *)

Lemma utf8_encode_ascii s :
  forallb is_ascii s = true -> utf8_encode s = Ok s.
Proof.
  induction s as [|c s IH]; intros H; [reflexivity|].
  simpl in H. apply andb_true_iff in H. destruct H as [Hc Hs].
  cbn [utf8_encode]. unfold utf8_char. unfold is_ascii in Hc. rewrite Hc.
  cbn [bind]. rewrite (IH Hs). reflexivity.
Qed.

Lemma utf8_decode_ascii s :
  forallb is_ascii s = true -> utf8_decode_ignore s = s.
Proof.
  induction s as [|c s IH]; intros H; [reflexivity|].
  simpl in H. apply andb_true_iff in H. destruct H as [Hc Hs].
  cbn [utf8_decode_ignore]. unfold is_ascii in Hc. rewrite Hc, (IH Hs).
  reflexivity.
Qed.

Lemma ascii_bytes s :
  forallb is_ascii s = true -> Forall (fun b => b < 256) s.
Proof.
  intros H. rewrite forallb_forall in H. apply Forall_forall. intros c Hc.
  specialize (H c Hc). unfold is_ascii in H. apply N.ltb_lt in H. lia.
Qed.

Lemma utf8_char_scalar c :
  scalar c = true ->
  exists bs, utf8_char c = Ok bs /\ Forall (fun b => b < 256) bs.
Proof.
  intros Hc. unfold scalar in Hc. apply andb_true_iff in Hc.
  destruct Hc as [Hmax Hsur]. apply N.leb_le in Hmax.
  apply negb_true_iff in Hsur. unfold utf8_char. rewrite Hsur.
  destruct (c <? 128) eqn:E1.
  - apply N.ltb_lt in E1. eexists. split; [reflexivity|].
    repeat constructor. lia.
  - destruct (c <? 2048) eqn:E2.
    + apply N.ltb_lt in E2. eexists. split; [reflexivity|].
      repeat constructor; lia.
    + destruct (c <? 65536) eqn:E3.
      * apply N.ltb_lt in E3. eexists. split; [reflexivity|].
        repeat constructor; lia.
      * eexists. split; [reflexivity|]. repeat constructor; lia.
Qed.

Lemma utf8_encode_scalar s :
  scalar_str s = true ->
  exists bs, utf8_encode s = Ok bs /\ Forall (fun b => b < 256) bs.
Proof.
  induction s as [|c s IH]; intros H.
  - exists []. split; [reflexivity|constructor].
  - simpl in H. apply andb_true_iff in H. destruct H as [Hc Hs].
    destruct (utf8_char_scalar c Hc) as (b & Eb & Hb).
    destruct (IH Hs) as (bs & Ebs & Hbs).
    exists (b ++ bs). cbn [utf8_encode]. rewrite Eb, Ebs.
    split; [reflexivity|]. apply Forall_app. split; assumption.
Qed.

Lemma quote_byte_ascii b : b < 256 -> forallb is_ascii (quote_byte b) = true.
Proof.
  intros H.
  exact (below_forall (fun b => forallb is_ascii (quote_byte b)) 256 eq_refl
           b H).
Qed.

(** [quote] succeeds on scalar values and writes ASCII. *)
Lemma quote_scalar s :
  scalar_str s = true ->
  exists q, quote s = Ok q /\ forallb is_ascii q = true.
Proof.
  intros H. destruct (utf8_encode_scalar s H) as (bs & E & Hbs).
  unfold quote. rewrite E. cbn [bind]. eexists. split; [reflexivity|].
  clear E. induction Hbs as [|b bs Hb Hbs IH]; [reflexivity|].
  cbn [flat_map]. rewrite forallb_app, (quote_byte_ascii b Hb).
  exact IH.
Qed.

(** *** Updating a plain configuration *)

Lemma keys_distinct_nodup ks : keys_distinct ks = true <-> NoDup ks.
Proof.
  induction ks as [|k ks IH]; simpl.
  - split; [constructor|reflexivity].
  - rewrite andb_true_iff, IH, negb_true_iff. split.
    + intros [Hk Hks]. constructor; [|exact Hks].
      intros Hin. assert (Hex : existsb (eqb_str k) ks = true).
      { apply existsb_exists. exists k. split; [exact Hin|apply eqb_str_refl]. }
      congruence.
    + intros H. inversion H as [|? ? Hk Hks]; subst. split; [|exact Hks].
      destruct (existsb (eqb_str k) ks) eqn:E; [|reflexivity].
      apply existsb_exists in E. destruct E as (x & Hx & Ex).
      apply eqb_str_eq in Ex. subst x. contradiction.
Qed.

Section PlainUpdate.
Context {rt : Runtime}.

Lemma json_plain_set k v d :
  json_plain (JObj d) = true -> scalar_str k = true -> json_plain v = true ->
  json_plain (JObj (dict_set k v d)) = true.
Proof.
  cbn [json_plain]. intros H Hk Hv. apply andb_true_iff in H.
  destruct H as [Hkeys Hall]. apply andb_true_iff. split.
  - apply keys_distinct_nodup. apply keys_distinct_nodup in Hkeys.
    fold (dict_keys (dict_set k v d)). fold (dict_keys d) in Hkeys.
    destruct (dict_keys_set_cases k v d) as [[_ K]|[Hnot K]]; rewrite K.
    + exact Hkeys.
    + apply NoDup_app; [exact Hkeys | repeat constructor; intros [] |].
      intros a Ha [<-|[]]. contradiction.
  - rewrite forallb_forall in *. intros [l x] Hin.
    destruct (dict_set_values _ _ _ _ _ Hin) as [Hold|[-> ->]].
    + apply (Hall _ Hold).
    + rewrite Hk, Hv. reflexivity.
Qed.

End PlainUpdate.

(** *** The renamed vmess link, parsed again *)

Section VmessRoundTrip.
Context {rt : Runtime}.

(** *** [int] on the text [str] writes *)

Lemma digit_of_digit d : is_digit d = true -> digit_of d = Some (d - 48).
Proof. intros H. unfold digit_of. rewrite H. reflexivity. Qed.

Lemma int_body_digits ds :
  forallb is_digit ds = true ->
  forall acc count after_digit,
    ds <> [] \/ after_digit = true ->
    int_body ds acc count after_digit
    = Some (digits_val ds acc, (count + length ds)%nat, []).
Proof.
  induction ds as [|d ds IH]; intros Hds acc count after_digit Hne.
  - destruct Hne as [Hne| ->]; [contradiction|].
    cbn [int_body digits_val length]. rewrite Nat.add_0_r. reflexivity.
  - cbn [forallb] in Hds. apply andb_true_iff in Hds.
    destruct Hds as [Hd Hds].
    cbn [int_body digits_val length]. rewrite (digit_of_digit d Hd).
    rewrite (IH Hds) by (right; reflexivity).
    rewrite Nat.add_succ_r. reflexivity.
Qed.

Lemma digit_not_blank d : is_digit d = true -> is_int_space d = false.
Proof.
  intros Hd.
  destruct (digit_cases d Hd)
    as [->|[->|[->|[->|[->|[->|[->|[->|[->| ->]]]]]]]]]; reflexivity.
Qed.

(** [int(str(n))] is [n], unless [n] is too long to be converted. *)
Lemma py_int_dec n :
  py_int (dec_of_Z n) = if int_fits n then Ok n else Raise ValueError.
Proof.
  assert (Hnat : forall m (neg : bool),
             (let s := dec_of_N m in
              match int_body s 0 O false with
              | Some (v, count, rest) =>
                  match drop_while is_int_space rest with
                  | [] =>
                      if (max_str_digits <? count)%nat
                      then @Raise Z ValueError
                      else Ok (if neg then Z.opp (Z.of_N v) else Z.of_N v)
                  | _ => Raise ValueError
                  end
              | None => Raise ValueError
              end)
             = if (length (dec_of_N m) <=? max_str_digits)%nat
               then Ok (if neg then Z.opp (Z.of_N m) else Z.of_N m)
               else Raise ValueError).
  { intros m neg. cbv zeta.
    destruct (dec_of_N_spec m) as (d & ds & E & Hd & Hds & _ & Hval).
    rewrite <- E in Hval.
    rewrite int_body_digits.
    - cbn [drop_while Nat.add]. rewrite Hval, Nat.ltb_antisym.
      destruct (length (dec_of_N m) <=? max_str_digits)%nat; reflexivity.
    - rewrite E. cbn [forallb]. rewrite Hd, Hds. reflexivity.
    - left. rewrite E. discriminate. }
  destruct n as [|p|p].
  - vm_compute. reflexivity.
  - unfold py_int. change (dec_of_Z (Z.pos p)) with (dec_of_N (N.pos p)).
    destruct (dec_of_N_spec (N.pos p)) as (d & ds & E & Hd & _).
    assert (Hdrop : drop_while is_int_space (dec_of_N (N.pos p))
                    = dec_of_N (N.pos p)).
    { rewrite E. cbn [drop_while]. rewrite (digit_not_blank d Hd).
      reflexivity. }
    rewrite Hdrop.
    specialize (Hnat (N.pos p) false). cbv zeta in Hnat.
    unfold int_fits. change (Z.abs_N (Z.pos p)) with (N.pos p).
    refine (eq_trans _ Hnat). clear Hnat.
    rewrite E in *.
    destruct (digit_cases d Hd)
      as [->|[->|[->|[->|[->|[->|[->|[->|[->| ->]]]]]]]]]; reflexivity.
  - unfold py_int. change (dec_of_Z (Z.neg p)) with (45 :: dec_of_N (N.pos p)).
    cbn [drop_while]. change (is_int_space 45) with false. cbv iota.
    specialize (Hnat (N.pos p) true). cbv zeta in Hnat.
    unfold int_fits. change (Z.abs_N (Z.neg p)) with (N.pos p).
    refine (eq_trans _ Hnat). reflexivity.
Qed.

Lemma py_int_fits port n :
  py_int port = Ok n -> dec_of_Z n = port -> int_fits n = true.
Proof.
  intros H E. rewrite <- E, py_int_dec in H.
  destruct (int_fits n); [reflexivity|discriminate].
Qed.

(** *** The updated configuration *)

Lemma floats_read_back_set k v d :
  floats_read_back (JObj d) -> floats_read_back v ->
  floats_read_back (JObj (dict_set k v d)).
Proof.
  intros Hd Hv f Hf. cbn [json_floats] in Hf. apply in_flat_map in Hf.
  destruct Hf as ([l x] & Hin & Hfx). cbn [snd] in Hfx.
  destruct (dict_set_values _ _ _ _ _ Hin) as [Hold|[-> ->]].
  - apply Hd. cbn [json_floats]. apply in_flat_map. exists (l, x).
    split; assumption.
  - apply Hv. exact Hfx.
Qed.

Lemma renamed_config_plain pairs ip n tag :
  json_plain (JObj pairs) = true ->
  scalar_str ip = true -> scalar_str tag = true -> int_fits n = true ->
  json_plain (renamed_config pairs ip n tag) = true.
Proof.
  intros Hp Hip Htag Hn. unfold renamed_config, dict_update.
  cbn [fold_left fst snd].
  apply json_plain_set; [|reflexivity|exact Htag].
  apply json_plain_set; [|reflexivity|exact Hn].
  apply json_plain_set; [exact Hp|reflexivity|exact Hip].
Qed.

Lemma renamed_config_floats pairs ip n tag :
  floats_read_back (JObj pairs) ->
  floats_read_back (renamed_config pairs ip n tag).
Proof.
  intros Hp. unfold renamed_config, dict_update. cbn [fold_left fst snd].
  repeat (apply floats_read_back_set; [|intros f []]). exact Hp.
Qed.

Lemma renamed_config_fields pairs ip n tag :
  json_get (renamed_config pairs ip n tag) (u "add") (JStr []) = Ok (JStr ip)
  /\ json_get (renamed_config pairs ip n tag) (u "port") (JStr [])
     = Ok (JInt n)
  /\ json_get (renamed_config pairs ip n tag) (u "ps") (JStr [])
     = Ok (JStr tag).
Proof.
  unfold renamed_config, dict_update, json_get. cbn [fold_left fst snd].
  repeat split.
  - rewrite dict_get_set_other by discriminate.
    rewrite dict_get_set_other by discriminate.
    rewrite dict_get_set_same. reflexivity.
  - rewrite dict_get_set_other by discriminate.
    rewrite dict_get_set_same. reflexivity.
  - rewrite dict_get_set_same. reflexivity.
Qed.

(** The base64 text of a JSON text that is not a multiple of three long,
    decoded with anything ASCII behind it, gives the JSON text back. *)
Lemma b64_decode_with_fragment js tail :
  forallb is_ascii js = true ->
  forallb is_ascii tail = true ->
  (length js mod 3 <> 0)%nat ->
  b64_decode (b64encode js ++ tail) = Ok js.
Proof.
  intros Hjs Htail Hmod. unfold b64_decode, b64decode, b64encode.
  assert (Hascii : forallb is_ascii
                     ((b2a_base64 js ++ tail)
                        ++ pad_for (b2a_base64 js ++ tail)) = true).
  { rewrite !forallb_app, Htail.
    rewrite (b2a_base64_ascii js (length js) (le_n _) (ascii_bytes js Hjs)).
    unfold pad_for. generalize ((4 - length (b2a_base64 js ++ tail) mod 4)
                                mod 4)%nat.
    intros k. induction k as [|k IH]; [reflexivity|exact IH]. }
  rewrite Hascii, <- app_assoc.
  rewrite (a2b_base64_padded js (length js) _ (le_n _) (ascii_bytes js Hjs)
             Hmod).
  cbn [bind]. rewrite utf8_decode_ascii by exact Hjs. reflexivity.
Qed.


End VmessRoundTrip.

(** The example run-time system prints one half as [0.5], which reads
    back. *)
Lemma half_reads_back : float_reads_back (rt := example_runtime) float_half.
Proof.
  split; [vm_compute; reflexivity|].
  intros fuel rest Hrest.
  destruct (delimited_cases rest Hrest) as [->|(c & r & -> & [->|[->| ->]])];
    vm_compute; reflexivity.
Qed.


(** The renamed link of the example, as Python writes it. *)
Example vmess_rename_with_float :
  rename_vmess (rt := example_runtime) vmess_float_link (u "1.2.3.4")
    (u "443") shatal_tag
  = u "vmess://eyJhZGQiOiAiMS4yLjMuNCIsICJwb3J0IjogNDQzLCAiYWlkIjogMC41LCAicHMiOiAiXHVkODNjXHVkZmYzXHVmZTBmIFNoYXRhbFZQTiAxMjM0NTYifQ==#%F0%9F%8F%B3%EF%B8%8F%20ShatalVPN%20123456".
Proof. vm_compute. reflexivity. Qed.

(** ** The writer completes under a benign run-time system *)

Section WriterCompletes.
Context {rt : Runtime}.
Hypothesis Hbenign : benign rt.

Lemma country_flag_total code : exists flag, country_flag code = Ok flag.
Proof.
  unfold country_flag. destruct code as [|c0 code]; [eexists; reflexivity|].
  set (c := py_upper (strip (c0 :: code))).
  destruct (eqb_str c (u "UNKNOWN") || negb (length c =? 2)%nat
            || negb (py_isalpha c)) eqn:E; [eexists; reflexivity|].
  apply orb_false_iff in E. destruct E as [_ Halpha].
  apply negb_false_iff in Halpha.
  destruct c as [|a [|b [|x c]]]; try (eexists; reflexivity).
  unfold py_isalpha in Halpha. simpl in Halpha.
  apply andb_true_iff in Halpha. destruct Halpha as [Ha Hb].
  apply andb_true_iff in Hb. destruct Hb as [Hb _].
  assert (Hroom : forall y, char_isalpha y = true ->
                            py_chr (y + 127397) = Ok (y + 127397)).
  { intros y Hy. unfold py_chr.
    assert (Hle : y + 127397 <= 1114111).
    { unfold char_isalpha in Hy. destruct (y <? 128) eqn:Ey.
      - apply N.ltb_lt in Ey. lia.
      - apply (proj2 Hbenign) in Hy. lia. }
    apply N.leb_le in Hle. rewrite Hle. reflexivity. }
  rewrite (Hroom a Ha), (Hroom b Hb). eexists. reflexivity.
Qed.

Lemma rename_line_total link w :
  exists out w', rename_line link w = (Ok out, w').
Proof.
  unfold rename_line.
  destruct (extract_host link (detect_protocol link)) as [|c hp] eqn:E;
    [eexists; eexists; reflexivity|].
  destruct (split_host_port (c :: hp)) as [host port].
  unfold resolve_ip.
  destruct (gethostbyname (clock w) host) as [ip| |e] eqn:Edns.
  - destruct (get_country_by_ip ip (tick w)) as [country w2].
    destruct (country_flag_total country) as [flag ->].
    destruct (make_tag flag w2). eexists; eexists; reflexivity.
  - destruct (get_country_by_ip host (tick w)) as [country w2].
    destruct (country_flag_total country) as [flag ->].
    destruct (make_tag flag w2). eexists; eexists; reflexivity.
  - exfalso. exact (proj1 Hbenign _ _ _ Edns).
Qed.

Lemma rename_all_total links :
  forall w, exists outs w', rename_all links w = (Ok outs, w').
Proof.
  induction links as [|l links IH]; intros w; simpl.
  - eexists; eexists; reflexivity.
  - destruct (rename_line_total l w) as (out & w1 & ->).
    destruct (IH w1) as (outs & w2 & ->). eexists; eexists; reflexivity.
Qed.

Lemma write_protocols_total dest_dir protos ranked :
  forall fs w, exists fs' w',
    write_protocols dest_dir protos ranked fs w = (None, fs', w').
Proof.
  induction protos as [|proto protos IH]; intros fs w; simpl.
  - eexists; eexists; reflexivity.
  - match goal with
    | |- context [rename_all ?l w] =>
        destruct (rename_all_total l w) as (outs & w1 & ->)
    end.
    apply IH.
Qed.

(** The writer step of a country runs to its end. *)
Lemma write_country_total country groups ranked fs w :
  exists fs' w', write_country country groups ranked fs w = (None, fs', w').
Proof.
  unfold write_country.
  destruct (rename_all_total ranked w) as (outs & w1 & ->).
  match goal with
  | |- context [write_protocols ?d ?p ?r ?f ?x] =>
      destruct (write_protocols_total d p r f x) as (fs1 & w2 & ->)
  end.
  eexists; eexists; reflexivity.
Qed.

End WriterCompletes.

Lemma example_runtime_benign : benign example_runtime.
Proof. split; [intros n host e; discriminate | intros c; discriminate]. Qed.

(** ** Base64 and UTF-8 round trips *)

(** Induction over a byte string three bytes at a time, as the encoder
    reads it. *)
Lemma triples_ind (P : list N -> Prop) :
  P [] -> (forall a, P [a]) -> (forall a b, P [a; b]) ->
  (forall a b c rest, P rest -> P (a :: b :: c :: rest)) ->
  forall bs, P bs.
Proof.
  intros H0 H1 H2 H3.
  fix IH 1. intros [|a [|b [|c rest]]].
  - exact H0.
  - apply H1.
  - apply H2.
  - apply H3. apply IH.
Qed.

Lemma a2b_base64_b2a bs :
  Forall (fun b => b < 256) bs -> a2b_base64 (b2a_base64 bs) O 0 O = Ok bs.
Proof.
  induction bs as [|a|a b|a b c rest IH] using triples_ind; intros Hbytes.
  - reflexivity.
  - rewrite <- (app_nil_r (b2a_base64 [a])).
    apply (a2b_base64_padded [a] 1 []); [simpl; lia | exact Hbytes |].
    simpl. discriminate.
  - rewrite <- (app_nil_r (b2a_base64 [a; b])).
    apply (a2b_base64_padded [a; b] 2 []); [simpl; lia | exact Hbytes |].
    simpl. discriminate.
  - inversion Hbytes as [|? ? Ha Hb']; subst.
    inversion Hb' as [|? ? Hb Hc']; subst.
    inversion Hc' as [|? ? Hc Hrest]; subst.
    cbn [b2a_base64]. rewrite a2b_base64_quad by assumption.
    rewrite (IH Hrest). reflexivity.
Qed.

Lemma b2a_base64_length bs : (length (b2a_base64 bs) mod 4 = 0)%nat.
Proof.
  induction bs as [|a|a b|a b c rest IH] using triples_ind;
    try reflexivity.
  cbn [b2a_base64 length].
  change (S (S (S (S (length (b2a_base64 rest))))))
    with (4 + length (b2a_base64 rest))%nat.
  rewrite Nat.Div0.add_mod, IH. reflexivity.
Qed.

Lemma pad_for_b2a bs : pad_for (b2a_base64 bs) = [].
Proof. unfold pad_for. rewrite b2a_base64_length. reflexivity. Qed.

Lemma pad_for_quad a b c d s : pad_for (a :: b :: c :: d :: s) = pad_for s.
Proof.
  unfold pad_for. f_equal. cbn [length].
  change (S (S (S (S (length s))))) with (4 + length s)%nat.
  rewrite Nat.Div0.add_mod. change (4 mod 4)%nat with 0%nat.
  rewrite Nat.add_0_l, Nat.Div0.mod_mod. reflexivity.
Qed.

(** The text of [b2a_base64] up to its padding, padded again by
    [b64_decode], is the text itself. *)
Lemma pad_for_unpadded bs :
  Forall (fun b => b < 256) bs ->
  upto 61 (b2a_base64 bs) ++ pad_for (upto 61 (b2a_base64 bs))
  = b2a_base64 bs.
Proof.
  induction bs as [|a|a b|a b c rest IH] using triples_ind; intros Hbytes.
  - reflexivity.
  - inversion Hbytes as [|? ? Ha _]; subst. cbn [b2a_base64].
    rewrite !upto_cons_other
      by (apply N.eqb_neq; apply b64_char_not_pad; lia).
    reflexivity.
  - inversion Hbytes as [|? ? Ha Hb']; subst.
    inversion Hb' as [|? ? Hb _]; subst. cbn [b2a_base64].
    rewrite !upto_cons_other
      by (apply N.eqb_neq; apply b64_char_not_pad; lia).
    reflexivity.
  - inversion Hbytes as [|? ? Ha Hb']; subst.
    inversion Hb' as [|? ? Hb Hc']; subst.
    inversion Hc' as [|? ? Hc Hrest]; subst. cbn [b2a_base64].
    rewrite !upto_cons_other
      by (apply N.eqb_neq; apply b64_char_not_pad; lia).
    rewrite pad_for_quad, <- !app_comm_cons, (IH Hrest). reflexivity.
Qed.

(** One encoded character is decoded back. *)
Ltac settle_tests :=
  repeat match goal with
         | |- context [?a <? ?b] =>
             first [ replace (a <? b) with true
                       by (symmetry; apply N.ltb_lt; lia)
                   | replace (a <? b) with false
                       by (symmetry; apply N.ltb_ge; lia) ]
         | |- context [?a <=? ?b] =>
             first [ replace (a <=? b) with true
                       by (symmetry; apply N.leb_le; lia)
                   | replace (a <=? b) with false
                       by (symmetry; apply N.leb_gt; lia) ]
         | |- context [?a =? ?b] =>
             first [ replace (a =? b) with false
                       by (symmetry; apply N.eqb_neq; lia)
                   | replace (a =? b) with true
                       by (symmetry; apply N.eqb_eq; lia) ]
         end.

Lemma utf8_decode_char c bs r :
  scalar c = true -> utf8_char c = Ok bs ->
  utf8_decode_ignore (bs ++ r) = c :: utf8_decode_ignore r.
Proof.
  unfold scalar, utf8_char. intros Hs E.
  apply andb_true_iff in Hs. destruct Hs as [Hmax Hsur].
  apply N.leb_le in Hmax. apply negb_true_iff in Hsur.
  destruct (c <? 128) eqn:E1.
  { injection E as <-. cbn [app utf8_decode_ignore]. rewrite E1. reflexivity. }
  apply N.ltb_ge in E1.
  destruct (c <? 2048) eqn:E2.
  { apply N.ltb_lt in E2.
    remember (192 + c / 64) as b1 eqn:H1.
    remember (128 + c mod 64) as b2 eqn:H2.
    injection E as <-. cbn [app utf8_decode_ignore]. unfold is_cont.
    settle_tests. cbn [andb]. f_equal. lia. }
  apply N.ltb_ge in E2. rewrite Hsur in E.
  apply andb_false_iff in Hsur.
  assert (Hns : c < 55296 \/ 57343 < c).
  { destruct Hsur as [H|H]; apply N.leb_gt in H; lia. }
  clear Hsur.
  destruct (c <? 65536) eqn:E3.
  { apply N.ltb_lt in E3.
    remember (224 + c / 4096) as b1 eqn:H1.
    remember (128 + (c / 64) mod 64) as b2 eqn:H2.
    remember (128 + c mod 64) as b3 eqn:H3.
    injection E as <-. cbn [app utf8_decode_ignore]. unfold is_cont.
    destruct (b2 <? 160) eqn:E4;
      [apply N.ltb_lt in E4 | apply N.ltb_ge in E4];
      settle_tests; cbn [andb negb orb]; f_equal; lia. }
  apply N.ltb_ge in E3.
  remember (240 + c / 262144) as b1 eqn:H1.
  remember (128 + (c / 4096) mod 64) as b2 eqn:H2.
  remember (128 + (c / 64) mod 64) as b3 eqn:H3.
  remember (128 + c mod 64) as b4 eqn:H4.
  injection E as <-. cbn [app utf8_decode_ignore]. unfold is_cont.
  destruct (b2 <? 144) eqn:E4;
    [apply N.ltb_lt in E4 | apply N.ltb_ge in E4];
    settle_tests; cbn [andb negb orb]; f_equal; lia.
Qed.

Lemma utf8_decode_encode s :
  forall bs, scalar_str s = true -> utf8_encode s = Ok bs ->
             utf8_decode_ignore bs = s.
Proof.
  induction s as [|c s IH]; intros bs Hs E.
  - injection E as <-. reflexivity.
  - cbn [scalar_str forallb] in Hs. apply andb_true_iff in Hs.
    destruct Hs as [Hc Hs]. cbn [utf8_encode] in E.
    destruct (utf8_char c) as [b|] eqn:Ec; [|discriminate].
    destruct (utf8_encode s) as [r|] eqn:Er; [|discriminate].
    simpl in E. injection E as <-.
    rewrite (utf8_decode_char c b r Hc Ec). f_equal. apply IH; auto.
Qed.

Lemma b64_decode_b64encode s bs :
  scalar_str s = true -> utf8_encode s = Ok bs ->
  Forall (fun b => b < 256) bs ->
  b64_decode (b64encode bs) = Ok s.
Proof.
  intros Hs E Hbytes. unfold b64_decode, b64encode, b64decode.
  rewrite pad_for_b2a, app_nil_r.
  rewrite (b2a_base64_ascii bs (length bs) (le_n _) Hbytes).
  rewrite (a2b_base64_b2a bs Hbytes). cbn [bind].
  rewrite (utf8_decode_encode s bs Hs E). reflexivity.
Qed.

(** X1. Encoding then decoding gives the string back: for any Python string
    of Unicode scalar values, [b64_encode] succeeds and [b64_decode] of its
    result is the string. *)
Theorem b64_decode_encode (s : str) :
  scalar_str s = true ->
  exists e, b64_encode s = Ok e /\ b64_decode e = Ok s.
Proof.
  intros Hs. destruct (utf8_encode_scalar s Hs) as (bs & E & Hbytes).
  exists (b64encode bs). unfold b64_encode. rewrite E.
  split; [reflexivity|].
  exact (b64_decode_b64encode s bs Hs E Hbytes).
Qed.

Lemma b64_decode_encode_witness :
  exists e, b64_encode (u "vmess://host") = Ok e
            /\ b64_decode e = Ok (u "vmess://host").
Proof. apply (b64_decode_encode (u "vmess://host")). reflexivity. Defined.

Lemma b64_decode_upto s bs :
  scalar_str s = true -> utf8_encode s = Ok bs ->
  Forall (fun b => b < 256) bs ->
  b64_decode (upto 61 (b64encode bs)) = Ok s.
Proof.
  intros Hs E Hbytes. unfold b64_decode, b64encode, b64decode.
  rewrite (pad_for_unpadded bs Hbytes).
  rewrite (b2a_base64_ascii bs (length bs) (le_n _) Hbytes).
  rewrite (a2b_base64_b2a bs Hbytes). cbn [bind].
  rewrite (utf8_decode_encode s bs Hs E). reflexivity.
Qed.

(** X2. Padding is optional for [b64_decode]: the encoding of a string with
    its ["="] padding cut off is still decoded to the string. *)
Theorem b64_decode_unpadded (s e : str) :
  scalar_str s = true -> b64_encode s = Ok e ->
  b64_decode (upto 61 e) = Ok s.
Proof.
  intros Hs Ee. destruct (utf8_encode_scalar s Hs) as (bs & E & Hbytes).
  unfold b64_encode in Ee. rewrite E in Ee. injection Ee as <-.
  exact (b64_decode_upto s bs Hs E Hbytes).
Qed.

Lemma b64_decode_unpadded_witness :
  b64_decode (upto 61 (u "YQ==")) = Ok (u "a").
Proof.
  apply (b64_decode_unpadded (u "a") (u "YQ==")); reflexivity.
Defined.

(** ** The small helpers: [strip_port], [country_flag], the cache *)

(** X3. [strip_port] returns what stands before the first colon: its result
    holds no colon, and the argument is the result followed by nothing or by
    a colon and the rest. *)
Theorem strip_port_before_first_colon (host : str) :
  exists rest,
    host = strip_port host ++ rest
    /\ ~ In 58 (strip_port host)
    /\ (rest = [] \/ exists r, rest = 58 :: r).
Proof.
  assert (E : strip_port host = upto 58 host).
  { unfold strip_port.
    assert (H : match split1 (u ":") host with
                | piece :: _ => piece = upto 58 host
                | [] => False
                end) by exact (split1_head 58 host).
    destruct (split1 (u ":") host); [contradiction | exact H]. }
  rewrite E. apply upto_split.
Qed.

Section Flags.
Context {rt : Runtime}.

(** X4. A two-letter ASCII country code, in either case, becomes the pair of
    regional indicator symbols of its letters. *)
Theorem country_flag_of_letters (a b : char) :
  ascii_letter a = true -> ascii_letter b = true ->
  country_flag [a; b] = Ok [regional_indicator a; regional_indicator b].
Proof.
  intros Ha Hb.
  assert (La : a < 128).
  { unfold ascii_letter in Ha.
    destruct (a <? 128) eqn:E; [apply N.ltb_lt in E; exact E|].
    apply N.ltb_ge in E. exfalso.
    apply orb_true_iff in Ha.
    destruct Ha as [H|H]; apply andb_true_iff in H; destruct H as [_ H];
      apply N.leb_le in H; lia. }
  assert (Lb : b < 128).
  { unfold ascii_letter in Hb.
    destruct (b <? 128) eqn:E; [apply N.ltb_lt in E; exact E|].
    apply N.ltb_ge in E. exfalso.
    apply orb_true_iff in Hb.
    destruct Hb as [H|H]; apply andb_true_iff in H; destruct H as [_ H];
      apply N.leb_le in H; lia. }
  pose (ok := fun a b : char =>
          implb (ascii_letter a && ascii_letter b)
            match country_flag [a; b] with
            | Ok f => eqb_str f [regional_indicator a; regional_indicator b]
            | Raise _ => false
            end).
  assert (All : forallb (fun a => forallb (ok a) (map N.of_nat (seq 0 128)))
                  (map N.of_nat (seq 0 128)) = true)
    by (vm_compute; reflexivity).
  pose proof (below_forall _ 128 All a La) as Row. cbv beta in Row.
  pose proof (below_forall _ 128 Row b Lb) as Cell.
  unfold ok in Cell. rewrite Ha, Hb in Cell.
  assert (Flag : match country_flag [a; b] with
                 | Ok f =>
                     eqb_str f [regional_indicator a; regional_indicator b]
                 | Raise _ => false
                 end = true) by exact Cell.
  clear - Flag.
  destruct (country_flag [a; b]) as [f|]; [|discriminate].
  apply eqb_str_eq in Flag. rewrite Flag. reflexivity.
Qed.

(** X5. The geolocation cache remembers: after a lookup the address is in
    the cache with the code that was returned (["unknown"] included), asking
    again gives the same code without a new request, and no other address
    has its entry touched. *)
Theorem get_country_by_ip_is_cached (ip code : str) (w w' : world) :
  get_country_by_ip ip w = (code, w') ->
  dict_get ip (geo_cache w') = Some code
  /\ get_country_by_ip ip w' = (code, w')
  /\ forall other, other <> ip ->
       dict_get other (geo_cache w') = dict_get other (geo_cache w).
Proof.
  unfold get_country_by_ip. intros E.
  destruct (dict_get ip (geo_cache w)) as [c|] eqn:Hit.
  - injection E as <- <-. rewrite Hit. repeat split; reflexivity.
  - assert (Put : forall c, (c, cache_put ip c (tick w)) = (code, w') ->
                  dict_get ip (geo_cache w') = Some code
                  /\ match dict_get ip (geo_cache w') with
                     | Some code0 => (code0, w')
                     | None =>
                         match geo_lookup (clock w') ip with
                         | Some raw =>
                             (py_lower raw,
                              cache_put ip (py_lower raw) (tick w'))
                         | None =>
                             (u "unknown",
                              cache_put ip (u "unknown") (tick w'))
                         end
                     end = (code, w')
                  /\ forall other, other <> ip ->
                       dict_get other (geo_cache w')
                       = dict_get other (geo_cache w)).
    { intros c Ec. injection Ec as <- <-. cbn [cache_put geo_cache tick].
      rewrite dict_get_set_same. repeat split.
      intros other Ho. apply dict_get_set_other. exact Ho. }
    destruct (geo_lookup (clock w) ip); apply (Put _ E).
Qed.

End Flags.

Lemma country_flag_of_letters_witness :
  country_flag (rt := example_runtime) (u "de") = Ok [127465; 127466].
Proof.
  apply (country_flag_of_letters (rt := example_runtime) 100 101);
    reflexivity.
Defined.

Lemma get_country_by_ip_is_cached_witness :
  dict_get (u "1.2.3.4")
    (geo_cache (cache_put (u "1.2.3.4") (u "unknown") (tick world0)))
  = Some (u "unknown")
  /\ get_country_by_ip (rt := example_runtime) (u "1.2.3.4")
       (cache_put (u "1.2.3.4") (u "unknown") (tick world0))
     = (u "unknown", cache_put (u "1.2.3.4") (u "unknown") (tick world0))
  /\ forall other, other <> u "1.2.3.4" ->
       dict_get other
         (geo_cache (cache_put (u "1.2.3.4") (u "unknown") (tick world0)))
       = dict_get other (geo_cache world0).
Proof.
  apply (get_country_by_ip_is_cached (rt := example_runtime)
           (u "1.2.3.4") (u "unknown") world0).
  reflexivity.
Defined.

(** ** The cache over a whole renaming pass *)

Section CacheKept.
Context {rt : Runtime}.

Lemma get_country_by_ip_keeps ip w k v :
  dict_get k (geo_cache w) = Some v ->
  dict_get k (geo_cache (snd (get_country_by_ip ip w))) = Some v.
Proof.
  intros H. unfold get_country_by_ip.
  destruct (dict_get ip (geo_cache w)) eqn:Hit; [exact H|].
  assert (Hk : k <> ip) by (intros ->; congruence).
  destruct (geo_lookup (clock w) ip); cbn [snd cache_put geo_cache tick];
    rewrite dict_get_set_other by exact Hk; exact H.
Qed.

Lemma rename_line_keeps link w k v :
  dict_get k (geo_cache w) = Some v ->
  dict_get k (geo_cache (snd (rename_line link w))) = Some v.
Proof.
  intros H. unfold rename_line.
  destruct (extract_host link (detect_protocol link)); [exact H|].
  destruct (split_host_port _) as [host port].
  assert (Hres : dict_get k (geo_cache (snd (resolve_ip host w))) = Some v).
  { unfold resolve_ip. destruct (gethostbyname (clock w) host); exact H. }
  destruct (resolve_ip host w) as [[ip|e] w1]; cbn [snd] in Hres;
    [|exact Hres].
  pose proof (get_country_by_ip_keeps ip w1 k v Hres) as Hgeo.
  destruct (get_country_by_ip ip w1) as [country w2]. cbn [snd] in Hgeo.
  destruct (country_flag country); [|exact Hgeo].
  exact Hgeo.
Qed.

(** X6. Renaming never alters a geolocation answer already in the cache:
    whatever the links renamed and whatever the outcome, an address keeps
    the country code under which it was first cached. *)
Theorem rename_all_keeps_cache (links : list str) (k v : str) :
  forall w,
    dict_get k (geo_cache w) = Some v ->
    dict_get k (geo_cache (snd (rename_all links w))) = Some v.
Proof.
  induction links as [|l links IH]; intros w H; [exact H|].
  cbn [rename_all].
  pose proof (rename_line_keeps l w k v H) as H1.
  destruct (rename_line l w) as [[r|e] w1]; cbn [snd] in H1; [|exact H1].
  specialize (IH w1 H1).
  destruct (rename_all links w1) as [[rs|e] w2]; exact IH.
Qed.

End CacheKept.

Lemma rename_all_keeps_cache_witness :
  dict_get (u "a.example.org")
    (geo_cache
       (snd (rename_all (rt := example_runtime) [link_a; link_b]
               (cache_put (u "a.example.org") (u "de") world0))))
  = Some (u "de").
Proof.
  apply (rename_all_keeps_cache (rt := example_runtime)).
  reflexivity.
Defined.

(** ** The classifier: [detect_protocol] and [extract_host] *)

Lemma span_app (p : char -> bool) a r :
  forallb p a = true ->
  match r with [] => true | c :: _ => negb (p c) end = true ->
  span p (a ++ r) = (a, r).
Proof.
  intros Ha Hr. induction a as [|c a IH]; simpl.
  - destruct r as [|c r]; [reflexivity|]. simpl.
    apply negb_true_iff in Hr. rewrite Hr. reflexivity.
  - simpl in Ha. apply andb_true_iff in Ha. destruct Ha as [Hc Ha].
    rewrite Hc, (IH Ha). reflexivity.
Qed.

Lemma span_fst_all (p : char -> bool) s : forallb p (fst (span p s)) = true.
Proof.
  induction s as [|c s IH]; simpl; [reflexivity|].
  destruct (p c) eqn:E; [|reflexivity].
  destruct (span p s) as [a b]. simpl in *. rewrite E, IH. reflexivity.
Qed.

Lemma lstrip_app_visible x z t :
  is_space z = false -> lstrip (x ++ z :: t) = lstrip x ++ z :: t.
Proof.
  intros Hz. induction x as [|c x IH]; simpl.
  - rewrite Hz. reflexivity.
  - destruct (is_space c); [exact IH | reflexivity].
Qed.

(** [strip] leaves alone what stands between two visible characters at the
    head of the string. *)
Lemma strip_framed c m z b :
  is_space c = false -> is_space z = false ->
  strip (c :: m ++ z :: b) = c :: m ++ z :: rev (lstrip (rev b)).
Proof.
  intros Hc Hz. unfold strip.
  assert (E1 : lstrip (c :: m ++ z :: b) = c :: m ++ z :: b)
    by (simpl; rewrite Hc; reflexivity).
  rewrite E1.
  assert (E2 : rev (c :: m ++ z :: b) = rev b ++ z :: rev m ++ [c]).
  { simpl. rewrite rev_app_distr. simpl. rewrite <- !app_assoc. reflexivity. }
  rewrite E2, (lstrip_app_visible _ _ _ Hz).
  rewrite rev_app_distr. simpl. rewrite rev_app_distr, rev_involutive.
  simpl. rewrite <- app_assoc. reflexivity.
Qed.

Lemma scheme_char_visible c :
  scheme_char_any_case c = true ->
  is_space c = false /\ is_scheme_char (lower_ascii c) = true /\ c < 128.
Proof.
  intros H. unfold scheme_char_any_case in H. apply andb_true_iff in H.
  destruct H as [Ha Hs]. unfold is_ascii in Ha. apply N.ltb_lt in Ha.
  repeat split; [|exact Hs|exact Ha].
  pose proof (below_forall
                (fun c => implb (is_scheme_char (lower_ascii c))
                            (negb (is_space c))) 128 eq_refl c Ha) as E.
  cbv beta in E. rewrite Hs in E. apply negb_true_iff in E. exact E.
Qed.

Section Classifier.
Context {rt : Runtime}.

Lemma py_lower_app a b : py_lower (a ++ b) = py_lower a ++ py_lower b.
Proof. unfold py_lower. apply flat_map_app. Qed.

Lemma py_lower_scheme s :
  forallb scheme_char_any_case s = true -> py_lower s = map lower_ascii s.
Proof.
  induction s as [|c s IH]; intros H; [reflexivity|].
  simpl in H. apply andb_true_iff in H. destruct H as [Hc Hs].
  destruct (scheme_char_visible c Hc) as (_ & _ & Hlt).
  change (py_lower (c :: s)) with (py_lower ([c] ++ s)).
  rewrite py_lower_app, (IH Hs). unfold py_lower at 1. simpl.
  apply N.ltb_lt in Hlt. rewrite Hlt. reflexivity.
Qed.

(** X7. The protocol of a link that begins with a scheme and [://] is the
    scheme in lower case, with [ss] spelled out as [shadowsocks]. *)
Theorem detect_protocol_of_scheme (scheme rest : str) :
  scheme <> [] ->
  forallb scheme_char_any_case scheme = true ->
  detect_protocol (scheme ++ u "://" ++ rest)
  = if eqb_str (map lower_ascii scheme) (u "ss")
    then u "shadowsocks"
    else map lower_ascii scheme.
Proof.
  intros Hne Hs. destruct scheme as [|c m]; [contradiction|]. clear Hne.
  pose proof Hs as Hall. simpl in Hs. apply andb_true_iff in Hs.
  destruct Hs as [Hc Hm].
  destruct (scheme_char_visible c Hc) as (Hvis & _ & _).
  unfold detect_protocol.
  assert (E : strip ((c :: m) ++ u "://" ++ rest)
              = (c :: m) ++ u "://" ++ rev (lstrip (rev rest))).
  { change ((c :: m) ++ u "://" ++ rest)
      with (c :: m ++ 58 :: 47 :: 47 :: rest).
    replace (c :: m ++ 58 :: 47 :: 47 :: rest)
      with (c :: (m ++ [58; 47]) ++ 47 :: rest)
      by (rewrite <- app_assoc; reflexivity).
    rewrite strip_framed by (exact Hvis || reflexivity).
    rewrite <- app_assoc. reflexivity. }
  rewrite E, py_lower_app, (py_lower_scheme _ Hall).
  change (py_lower (u "://" ++ rev (lstrip (rev rest))))
    with (58 :: 47 :: 47 :: py_lower (rev (lstrip (rev rest)))).
  rewrite span_app.
  - cbn [map]. cbn [starts_with u map list_ascii_of_string N_of_ascii].
    reflexivity.
  - rewrite forallb_forall. intros x Hx. apply in_map_iff in Hx.
    destruct Hx as (y & <- & Hy).
    rewrite forallb_forall in Hall.
    apply (scheme_char_visible y (Hall y Hy)).
  - reflexivity.
Qed.

(** X8. Whatever the link, the protocol name is not empty, is never the
    bare [ss], and is made of the characters of a scheme only; so it holds
    no [/] and [proto.txt] names a file of the country's own directory. *)
Theorem detect_protocol_is_a_name (link : str) :
  detect_protocol link <> []
  /\ detect_protocol link <> u "ss"
  /\ forallb is_scheme_char (detect_protocol link) = true
  /\ ~ In 47 (detect_protocol link).
Proof.
  assert (Core : detect_protocol link <> []
                 /\ detect_protocol link <> u "ss"
                 /\ forallb is_scheme_char (detect_protocol link) = true).
  { unfold detect_protocol.
    pose proof (span_fst_all is_scheme_char (py_lower (strip link))) as Hall.
    destruct (span is_scheme_char (py_lower (strip link))) as [proto rest].
    cbn [fst] in Hall.
    destruct proto as [|c proto].
    { repeat split; discriminate || reflexivity. }
    destruct (starts_with (u "://") rest).
    2:{ repeat split; discriminate || reflexivity. }
    destruct (eqb_str (c :: proto) (u "ss")) eqn:Ess.
    { repeat split; discriminate || reflexivity. }
    repeat split; [discriminate | | exact Hall].
    apply eqb_str_neq. exact Ess. }
  destruct Core as (H1 & H2 & H3). repeat split; try assumption.
  intros Hin. rewrite forallb_forall in H3. specialize (H3 47 Hin).
  discriminate.
Qed.

(** X9. The user part of a network location is dropped for shadowsocks
    only: there the host is what follows the first [@]; for any other
    protocol (vmess apart) the whole network location is returned, user
    part included. *)
Theorem extract_host_userinfo (link proto user hp : str) :
  urlsplit_netloc link = Ok (user ++ u "@" ++ hp) ->
  ~ In 64 user ->
  proto <> u "vmess" ->
  extract_host link proto
  = if eqb_str proto (u "shadowsocks") then hp else user ++ u "@" ++ hp.
Proof.
  intros Hnet Huser Hproto.
  unfold extract_host, extract_host_body.
  apply eqb_str_neq in Hproto. rewrite Hproto, Hnet. cbn [bind].
  destruct (eqb_str proto (u "shadowsocks")); [|reflexivity].
  cbn [andb].
  assert (Hc : contains (u "@") (user ++ u "@" ++ hp) = true).
  { apply (contains_char 64). apply in_or_app. right. left. reflexivity. }
  rewrite Hc.
  assert (Hs : split1 (u "@") (user ++ u "@" ++ hp) = [user; hp])
    by exact (split1_char 64 user hp Huser).
  rewrite Hs. reflexivity.
Qed.

End Classifier.

Lemma detect_protocol_of_scheme_witness :
  detect_protocol (rt := example_runtime) (u "SS" ++ u "://" ++ u "abc@h:1")
  = u "shadowsocks".
Proof.
  apply (detect_protocol_of_scheme (rt := example_runtime) (u "SS")
           (u "abc@h:1")); [discriminate | reflexivity].
Defined.

Lemma extract_host_userinfo_witness :
  extract_host (rt := example_runtime) (u "trojan://pw@example.org:443/x")
    (u "trojan")
  = u "pw" ++ u "@" ++ u "example.org:443".
Proof.
  apply (extract_host_userinfo (rt := example_runtime)
           (u "trojan://pw@example.org:443/x") (u "trojan") (u "pw")
           (u "example.org:443")).
  - reflexivity.
  - intros [H|[H|[]]]; discriminate.
  - discriminate.
Defined.

(** ** The prober: bounds, exhaustion, provenance *)

Section ProberBounds.
Context {rt : Runtime}.

Lemma count_events_app p a b :
  count_events p (a ++ b) = (count_events p a + count_events p b)%nat.
Proof. unfold count_events. rewrite filter_app, length_app. reflexivity. Qed.

Lemma count_events_cons p e t :
  count_events p (e :: t)
  = ((if p e then 1 else 0) + count_events p t)%nat.
Proof. unfold count_events. cbn [filter]. destruct (p e); reflexivity. Qed.

Lemma poll_loop_counts env req_id attempt :
  forall remaining i,
    count_events is_submit (snd (poll_loop env req_id attempt remaining i))
    = 0%nat
    /\ (count_events is_poll (snd (poll_loop env req_id attempt remaining i))
        <= remaining)%nat.
Proof.
  induction remaining as [|k IH]; intros i; [split; [reflexivity | apply le_n]|].
  cbn [poll_loop]. specialize (IH (S i)).
  destruct (poll_loop env req_id attempt k (S i)) as [o t].
  cbn [snd] in IH. destruct IH as [IHs IHp].
  assert (Go : count_events is_submit (EvSleep2 :: EvPoll attempt i :: t)
               = 0%nat
               /\ (count_events is_poll (EvSleep2 :: EvPoll attempt i :: t)
                   <= S k)%nat).
  { unfold count_events in *. cbn [filter is_submit is_poll length].
    split; [exact IHs | lia]. }
  assert (Stop : count_events is_submit [EvSleep2; EvPoll attempt i] = 0%nat
                 /\ (count_events is_poll [EvSleep2; EvPoll attempt i]
                     <= S k)%nat).
  { unfold count_events. cbn. split; [reflexivity | lia]. }
  destruct (poll env req_id attempt i) as [|status body]; [exact Stop|].
  destruct (status =? 200); [|exact Go].
  destruct body as [b|]; [|exact Stop].
  destruct (json_truthy b); [exact Stop | exact Go].
Qed.

Lemma attempts_counts env :
  forall remaining attempt,
    (count_events is_submit (snd (attempts env remaining attempt))
     <= remaining)%nat
    /\ (count_events is_poll (snd (attempts env remaining attempt))
        <= 10 * remaining)%nat.
Proof.
  induction remaining as [|k IH]; intros attempt.
  - split; apply le_n.
  - rewrite attempts_step. specialize (IH (S attempt)).
    destruct (attempts env k (S attempt)) as [r t]. cbn [snd] in IH.
    destruct IH as [IHs IHp].
    destruct (submit env attempt) as [| |[req_id|]].
    + unfold count_events in *. cbn [snd filter is_submit is_poll length].
      split; lia.
    + unfold count_events in *. cbn [snd filter is_submit is_poll length].
      split; lia.
    + destruct (poll_loop_counts env req_id attempt 10 0) as [Ps Pp].
      destruct (poll_loop env req_id attempt 10 0) as [[body| |] tp];
        cbn [snd] in Ps, Pp |- *;
        rewrite ?count_events_cons, ?count_events_app, ?count_events_cons, ?Ps;
        cbn [is_submit is_poll]; split; lia.
    + unfold count_events. cbn. split; lia.
Qed.

(** X10. A probe never submits a host more than [retries] times and never
    polls more than ten times per submission, whatever the checking service
    answers; for an empty host name it sends nothing at all. *)
Theorem run_ping_once_is_bounded (env : check_host) (host : str)
  (retries : nat) :
  (count_events is_submit (snd (run_ping_once env host retries))
   <= retries)%nat
  /\ (count_events is_poll (snd (run_ping_once env host retries))
      <= 10 * retries)%nat
  /\ (host = [] -> run_ping_once env host retries = (empty_result, [])).
Proof.
  unfold run_ping_once. destruct host as [|c host].
  - repeat split; cbn; lia.
  - destruct (attempts_counts env retries 1) as [Hs Hp].
    repeat split; [exact Hs | exact Hp | discriminate].
Qed.

Lemma poll_loop_pending env req_id attempt :
  forall remaining i,
    (forall j, (j < remaining)%nat ->
               pending (poll env req_id attempt (i + j)) = true) ->
    poll_loop env req_id attempt remaining i
    = (PollExhausted, polls_from attempt i remaining).
Proof.
  induction remaining as [|k IH]; intros i Hp; [reflexivity|].
  cbn [poll_loop].
  rewrite (IH (S i)).
  2:{ intros j Hj. replace (S i + j)%nat with (i + S j)%nat by lia.
      apply Hp. lia. }
  pose proof (Hp 0%nat (Nat.lt_0_succ k)) as H0.
  rewrite Nat.add_0_r in H0. unfold pending in H0.
  unfold polls_from. cbn [seq flat_map app].
  destruct (poll env req_id attempt i) as [|status body]; [discriminate|].
  destruct (status =? 200); [|reflexivity].
  destruct body as [b|]; [|discriminate].
  apply negb_true_iff in H0. rewrite H0. reflexivity.
Qed.


Lemma poll_loop_returned env req_id attempt body :
  forall remaining i,
    fst (poll_loop env req_id attempt remaining i) = PollReturned body ->
    exists j, (i <= j < i + remaining)%nat
              /\ poll env req_id attempt j = PollReply 200 (Ok body)
              /\ json_truthy body = true.
Proof.
  induction remaining as [|k IH]; intros i H; [discriminate|].
  cbn [poll_loop] in H. specialize (IH (S i)).
  destruct (poll_loop env req_id attempt k (S i)) as [o t].
  cbn [fst] in IH.
  assert (Go : fst (o, EvSleep2 :: EvPoll attempt i :: t) = PollReturned body ->
               exists j, (i <= j < i + S k)%nat
                         /\ poll env req_id attempt j = PollReply 200 (Ok body)
                         /\ json_truthy body = true).
  { cbn [fst]. intros Ho. destruct (IH Ho) as (j & Hj & Hpoll & Ht).
    exists j. repeat split; try assumption; lia. }
  destruct (poll env req_id attempt i) as [|status b] eqn:Ep; [discriminate|].
  destruct (status =? 200) eqn:Es; [|exact (Go H)].
  destruct b as [b|]; [|discriminate].
  destruct (json_truthy b) eqn:Et; [|exact (Go H)].
  cbn [fst] in H. injection H as ->.
  apply N.eqb_eq in Es. subst status.
  exists i. repeat split; try assumption; lia.
Qed.

Lemma attempts_result env result :
  forall remaining attempt,
    fst (attempts env remaining attempt) = result ->
    result <> empty_result ->
    exists n req_id i,
      (attempt <= n < attempt + remaining)%nat /\ (i < 10)%nat
      /\ submit env n = Submitted (Some req_id)
      /\ poll env req_id n i = PollReply 200 (Ok result)
      /\ json_truthy result = true.
Proof.
  induction remaining as [|k IH]; intros attempt H Hne.
  - cbn in H. congruence.
  - rewrite attempts_step in H. specialize (IH (S attempt)).
    destruct (attempts env k (S attempt)) as [r t]. cbn [fst] in IH.
    assert (Next : r = result ->
                   exists n req_id i,
                     (attempt <= n < attempt + S k)%nat /\ (i < 10)%nat
                     /\ submit env n = Submitted (Some req_id)
                     /\ poll env req_id n i = PollReply 200 (Ok result)
                     /\ json_truthy result = true).
    { intros Hr. destruct (IH Hr Hne) as (n & id & i & Hn & Hi & Hrest).
      exists n, id, i. repeat split; try apply Hrest; lia. }
    destruct (submit env attempt) as [| |[req_id|]] eqn:Es;
      try (cbn [fst] in H; exact (Next H)).
    + pose proof (poll_loop_returned env req_id attempt) as Hret.
      destruct (poll_loop env req_id attempt 10 0) as [[body| |] tp] eqn:Epl;
        cbn [fst] in H.
      * subst body.
        assert (Hfst : fst (poll_loop env req_id attempt 10 0)
                       = PollReturned result) by (rewrite Epl; reflexivity).
        destruct (Hret result 10%nat 0%nat Hfst) as (j & Hj & Hp & Ht).
        exists attempt, req_id, j. repeat split; try assumption; lia.
      * congruence.
      * exact (Next H).
    + cbn [fst] in H. congruence.
Qed.

(** X12. A result that is not empty is what the service delivered: it is
    the body of a poll answered 200, within the first ten polls of a
    submission the service accepted in one of the [retries] attempts, and
    that body is truthy. *)
Theorem run_ping_once_result_was_polled
  (env : check_host) (host : str) (retries : nat) (result : json) :
  fst (run_ping_once env host retries) = result ->
  result <> empty_result ->
  exists n req_id i,
    (1 <= n <= retries)%nat /\ (i < 10)%nat
    /\ submit env n = Submitted (Some req_id)
    /\ poll env req_id n i = PollReply 200 (Ok result)
    /\ json_truthy result = true.
Proof.
  unfold run_ping_once. intros H Hne.
  destruct host; [cbn in H; congruence|].
  destruct (attempts_result env result retries 1 H Hne)
    as (n & id & i & Hn & Hi & Hrest).
  exists n, id, i. repeat split; try apply Hrest; lia.
Qed.

Lemma attempts_refused env :
  forall remaining attempt,
    (forall n, (attempt <= n < attempt + remaining)%nat ->
               refused (submit env n) = true) ->
    fst (attempts env remaining attempt) = empty_result
    /\ count_events is_submit (snd (attempts env remaining attempt))
       = remaining
    /\ count_events is_poll (snd (attempts env remaining attempt)) = 0%nat.
Proof.
  induction remaining as [|k IH]; intros attempt Href.
  - repeat split.
  - rewrite attempts_step.
    assert (Hnext : forall n, (S attempt <= n < S attempt + k)%nat ->
                              refused (submit env n) = true)
      by (intros n Hn; apply Href; lia).
    specialize (IH (S attempt) Hnext).
    pose proof (Href attempt ltac:(lia)) as Hnow.
    destruct (attempts env k (S attempt)) as [r t].
    cbn [fst snd] in IH. destruct IH as (Hr & Hs & Hp).
    unfold count_events in *.
    destruct (submit env attempt) as [| |x]; [| |discriminate];
      cbn [fst snd filter is_submit is_poll length];
      repeat split; try assumption; lia.
Qed.

(** X13. A failing submission is retried like a 503: when every one of the
    [retries] submissions is answered 503 or fails, the host is submitted
    exactly [retries] times, never polled, and the result is empty. *)
Theorem run_ping_once_when_always_refused
  (env : check_host) (host : str) (retries : nat) :
  host <> [] ->
  (forall n, (1 <= n <= retries)%nat -> refused (submit env n) = true) ->
  fst (run_ping_once env host retries) = empty_result
  /\ count_events is_submit (snd (run_ping_once env host retries)) = retries
  /\ count_events is_poll (snd (run_ping_once env host retries)) = 0%nat.
Proof.
  intros Hhost Href. unfold run_ping_once. destruct host; [contradiction|].
  apply attempts_refused. intros n Hn. apply Href. lia.
Qed.

End ProberBounds.


Lemma run_ping_once_result_was_polled_witness :
  exists n req_id i,
    (1 <= n <= 3)%nat /\ (i < 10)%nat
    /\ submit env_third_time n = Submitted (Some req_id)
    /\ poll env_third_time req_id n i = PollReply 200 (Ok sample_body)
    /\ json_truthy (rt := example_runtime) sample_body = true.
Proof.
  apply (run_ping_once_result_was_polled (rt := example_runtime)
           env_third_time (u "example.com") 3 sample_body).
  - reflexivity.
  - discriminate.
Defined.

Lemma run_ping_once_when_always_refused_witness :
  fst (run_ping_once (rt := example_runtime)
         {| submit := fun _ => SubmitFails; poll := fun _ _ _ => PollFails |}
         (u "example.com") 3) = empty_result
  /\ count_events is_submit
       (snd (run_ping_once (rt := example_runtime)
               {| submit := fun _ => SubmitFails;
                  poll := fun _ _ _ => PollFails |}
               (u "example.com") 3)) = 3%nat
  /\ count_events is_poll
       (snd (run_ping_once (rt := example_runtime)
               {| submit := fun _ => SubmitFails;
                  poll := fun _ _ _ => PollFails |}
               (u "example.com") 3)) = 0%nat.
Proof.
  apply (run_ping_once_when_always_refused (rt := example_runtime)
           {| submit := fun _ => SubmitFails; poll := fun _ _ _ => PollFails |}
           (u "example.com") 3).
  - discriminate.
  - intros n _. reflexivity.
Defined.

(** ** The aggregator: the errors that escape *)

Section AggregatorRaises.

Lemma float_of_int_raises z e : float_of_int z = Raise e -> e = OverflowError.
Proof.
  unfold float_of_int. destruct (is_infinite (round_int z)); congruence.
Qed.

Lemma num_add_raises a b e : num_add a b = Raise e -> e = OverflowError.
Proof.
  destruct a as [x|f], b as [y|g]; cbn [num_add]; try discriminate.
  - destruct (float_of_int x) eqn:E; [discriminate|].
    cbn [bind]. intros H. injection H as <-.
    exact (float_of_int_raises _ _ E).
  - destruct (float_of_int y) eqn:E; [discriminate|].
    cbn [bind]. intros H. injection H as <-.
    exact (float_of_int_raises _ _ E).
Qed.

Lemma add_up_raises ns :
  forall acc e, add_up ns acc = Raise e -> e = OverflowError.
Proof.
  induction ns as [|n ns IH]; intros acc e H; [discriminate|].
  cbn [add_up] in H. destruct (num_add acc n) as [s|e'] eqn:E.
  - exact (IH s e H).
  - cbn [bind] in H. injection H as <-. exact (num_add_raises _ _ _ E).
Qed.

Lemma true_divide_raises s n e :
  true_divide s n = Raise e -> e = OverflowError.
Proof.
  destruct s as [z|f]; cbn [true_divide].
  - destruct (is_infinite (round_ratio z n)); congruence.
  - destruct (float_of_int n) eqn:E; [discriminate|].
    cbn [bind]. intros H. injection H as <-.
    exact (float_of_int_raises _ _ E).
Qed.

(** The sum goes through the numbers it meets first. *)
Lemma py_sum_app good rest :
  forall acc,
    forallb is_number good = true ->
    py_sum (good ++ rest) acc
    = (s <- add_up (map number_of good) acc ;; py_sum rest s).
Proof.
  induction good as [|p good IH]; intros acc H; [reflexivity|].
  cbn [forallb] in H. apply andb_true_iff in H. destruct H as [Hp Hgood].
  cbn [app py_sum map add_up].
  destruct p; try discriminate; cbn [json_number number_of bind];
    (destruct (num_add acc _) as [s|e]; [apply IH; exact Hgood|reflexivity]).
Qed.

Lemma py_sum_not_number bad rest acc :
  is_number bad = false -> py_sum (bad :: rest) acc = Raise TypeError.
Proof. intros H. destruct bad; try discriminate; reflexivity. Qed.

Lemma country_latency_samples country nodes (r : dict json) :
  (forall node, In node nodes ->
                forallb pair_shaped (node_items r node) = true) ->
  country_latency country nodes (JObj r)
  = (l <- mean_or_inf (spec_samples r nodes) ;; Ok l).
Proof.
  intros Hshape. unfold country_latency, extract_latency_by_country.
  cbn [extract_latency_loop].
  rewrite (nodes_samples_spec r nodes [] Hshape). cbn [bind app].
  destruct (mean_or_inf (spec_samples r nodes)) as [l|e]; [|reflexivity].
  cbn [bind dict_set dict_get]. rewrite eqb_str_refl. reflexivity.
Qed.


End AggregatorRaises.

(** ** The directory of probe nodes *)

Section Directory.
Context {rt : Runtime}.

Lemma dict_modify_same {V} k (default : V) f d :
  dict_get k (dict_modify k default f d)
  = Some (f (match dict_get k d with Some v => v | None => default end)).
Proof.
  unfold dict_modify. destruct (dict_get k d); apply dict_get_set_same.
Qed.

Lemma dict_modify_other {V} k k' (default : V) f d :
  k <> k' -> dict_get k (dict_modify k' default f d) = dict_get k d.
Proof.
  intros H. unfold dict_modify.
  destruct (dict_get k' d); apply dict_get_set_other; exact H.
Qed.

Lemma nodes_loop_step node d rest mapping :
  nodes_loop ((node, JObj d) :: rest) mapping
  = match node_country (JObj d) with
    | Some c =>
        nodes_loop rest (dict_modify c [] (fun l => l ++ [node]) mapping)
    | None => nodes_loop rest mapping
    end.
Proof.
  cbn [nodes_loop json_get bind node_country].
  destruct (dict_get (u "location") d) as [loc|]; [|reflexivity].
  destruct loc as [| | | | |[|first more]|]; reflexivity.
Qed.

(** The entry of a country, read as a list. *)
Lemma nodes_loop_spec items :
  forall mapping,
    forallb (fun item => is_object (snd item)) items = true ->
    exists result,
      nodes_loop items mapping = Ok result
      /\ forall country,
           match dict_get country result with Some l => l | None => [] end
           = match dict_get country mapping with Some l => l | None => [] end
             ++ nodes_of country items.
Proof.
  induction items as [|[node info] items IH]; intros mapping Hobj.
  - exists mapping. split; [reflexivity|]. intros c.
    unfold nodes_of. cbn. rewrite app_nil_r. reflexivity.
  - cbn [forallb snd] in Hobj. apply andb_true_iff in Hobj.
    destruct Hobj as [Hinfo Hrest].
    destruct info as [| | | | | |d]; try discriminate.
    rewrite nodes_loop_step.
    unfold nodes_of, located_in. cbn [filter snd].
    destruct (node_country (JObj d)) as [c|].
    + destruct (IH (dict_modify c [] (fun l => l ++ [node]) mapping) Hrest)
        as (result & E & Hres).
      exists result. split; [exact E|]. intros country.
      rewrite Hres. fold (located_in country). fold (nodes_of country items).
      destruct (eqb_str c country) eqn:Ec.
      * apply eqb_str_eq in Ec. subst country.
        rewrite dict_modify_same. cbn [map fst].
        rewrite <- app_assoc. reflexivity.
      * apply eqb_str_neq in Ec.
        rewrite dict_modify_other by congruence. reflexivity.
    + destruct (IH mapping Hrest) as (result & E & Hres).
      exists result. split; [exact E|]. exact Hres.
Qed.

(** No country is filed with an empty list of nodes. *)
Lemma nodes_loop_nonempty items :
  forall mapping result,
    nodes_loop items mapping = Ok result ->
    (forall c l, dict_get c mapping = Some l -> l <> []) ->
    forall c l, dict_get c result = Some l -> l <> [].
Proof.
  induction items as [|[node info] items IH]; intros mapping result E Hm.
  - injection E as <-. exact Hm.
  - destruct info as [| | | | | |d]; try discriminate.
    rewrite nodes_loop_step in E.
    destruct (node_country (JObj d)) as [c|]; [|exact (IH _ _ E Hm)].
    apply (IH _ _ E). intros c' l Hl.
    destruct (str_eq_dec c' c) as [->|Hne].
    + rewrite dict_modify_same in Hl. injection Hl as <-.
      intros Habs. apply app_eq_nil in Habs. destruct Habs. discriminate.
    + rewrite dict_modify_other in Hl by exact Hne. exact (Hm _ _ Hl).
Qed.

(** X15. The directory files each node under the lower-cased first entry of
    its [location] list: the nodes of a country are exactly those, in the
    order of the answer; a node without a location is left out, and a
    country has an entry only if it has a node. *)
Theorem get_nodes_by_country_files_by_location
  (data : dict json) (items : list (str * json)) :
  dict_get (u "nodes") data = Some (JObj items) ->
  forallb (fun item => is_object (snd item)) items = true ->
  exists mapping,
    get_nodes_by_country (Some (JObj data)) = Ok mapping
    /\ forall country,
         match dict_get country mapping with
         | Some nodes => nodes = nodes_of country items /\ nodes <> []
         | None => nodes_of country items = []
         end.
Proof.
  intros Hnodes Hobj.
  destruct (nodes_loop_spec items [] Hobj) as (mapping & E & Hres).
  exists mapping. split.
  - unfold get_nodes_by_country, json_get. rewrite Hnodes. exact E.
  - intros country. specialize (Hres country). cbn [dict_get app] in Hres.
    destruct (dict_get country mapping) as [l|] eqn:El.
    + split; [exact Hres|].
      apply (nodes_loop_nonempty items [] mapping E) with (c := country);
        [discriminate | exact El].
    + symmetry. exact Hres.
Qed.

Lemma nodes_loop_raises node info after_it before_it :
  forall mapping,
    forallb (fun item => is_object (snd item)) before_it = true ->
    is_object info = false ->
    nodes_loop (before_it ++ (node, info) :: after_it) mapping
    = Raise AttributeError.
Proof.
  induction before_it as [|[n i] before_it IH]; intros mapping Hbefore Hinfo.
  - cbn [app nodes_loop]. destruct info; try discriminate; reflexivity.
  - cbn [forallb snd] in Hbefore. apply andb_true_iff in Hbefore.
    destruct Hbefore as [Hi Hrest].
    destruct i as [| | | | | |d]; try discriminate.
    rewrite <- app_comm_cons, nodes_loop_step.
    destruct (node_country (JObj d)); apply IH; assumption.
Qed.

(** X16. An answer of the directory whose [nodes] entry holds a node that
    is not a JSON object makes [get_nodes_by_country] raise
    [AttributeError]: the loop over the nodes runs outside the handler that
    covers the request. *)
Theorem get_nodes_by_country_raises
  (data : dict json) (before_it after_it : list (str * json))
  (node : str) (info : json) :
  dict_get (u "nodes") data
  = Some (JObj (before_it ++ (node, info) :: after_it)) ->
  forallb (fun item => is_object (snd item)) before_it = true ->
  is_object info = false ->
  get_nodes_by_country (Some (JObj data)) = Raise AttributeError.
Proof.
  intros Hnodes Hbefore Hinfo.
  unfold get_nodes_by_country, json_get. rewrite Hnodes. cbn [bind json_items].
  apply nodes_loop_raises; assumption.
Qed.

End Directory.

Lemma get_nodes_by_country_files_by_location_witness :
  exists mapping,
    get_nodes_by_country (rt := example_runtime) (Some sample_directory)
    = Ok mapping
    /\ forall country,
         match dict_get country mapping with
         | Some nodes =>
             nodes
             = nodes_of (rt := example_runtime) country
                 [(u "de1.node.check-host.net",
                   JObj [(u "location",
                          JArr [JStr (u "DE"); JStr (u "Germany")])]);
                  (u "xx1.node.check-host.net", JObj []);
                  (u "de4.node.check-host.net",
                   JObj [(u "location", JArr [JStr (u "de")])])]
             /\ nodes <> []
         | None =>
             nodes_of (rt := example_runtime) country
               [(u "de1.node.check-host.net",
                 JObj [(u "location",
                        JArr [JStr (u "DE"); JStr (u "Germany")])]);
                (u "xx1.node.check-host.net", JObj []);
                (u "de4.node.check-host.net",
                 JObj [(u "location", JArr [JStr (u "de")])])] = []
         end.
Proof.
  apply (get_nodes_by_country_files_by_location (rt := example_runtime));
    reflexivity.
Defined.

Lemma get_nodes_by_country_raises_witness :
  get_nodes_by_country (rt := example_runtime)
    (Some (JObj [(u "nodes",
                  JObj ([(u "de1.node.check-host.net", JObj [])]
                        ++ (u "de4.node.check-host.net", JNull) :: []))]))
  = Raise AttributeError.
Proof.
  apply (get_nodes_by_country_raises (rt := example_runtime)
           [(u "nodes",
             JObj ([(u "de1.node.check-host.net", JObj [])]
                   ++ (u "de4.node.check-host.net", JNull) :: []))]
           [(u "de1.node.check-host.net", JObj [])] []
           (u "de4.node.check-host.net") JNull); reflexivity.
Defined.


Example get_nodes_by_country_of_sample :
  get_nodes_by_country (rt := example_runtime) (Some sample_directory)
  = Ok [(u "de", [u "de1.node.check-host.net"; u "de4.node.check-host.net"])].
Proof. reflexivity. Qed.

(** ** The collector *)

Lemma span_decomp (p : char -> bool) s :
  s = fst (span p s) ++ snd (span p s).
Proof.
  induction s as [|c s IH]; simpl; [reflexivity|].
  destruct (p c); [|reflexivity].
  destruct (span p s) as [a b]. simpl in *. rewrite <- IH. reflexivity.
Qed.

Lemma span_snd_head (p : char -> bool) s :
  match snd (span p s) with [] => true | c :: _ => negb (p c) end = true.
Proof.
  induction s as [|c s IH]; simpl; [reflexivity|].
  destruct (p c) eqn:E.
  - destruct (span p s) as [a b]. exact IH.
  - simpl. rewrite E. reflexivity.
Qed.

Lemma starts_with_split p s :
  starts_with p s = true -> s = p ++ skipn (length p) s.
Proof.
  revert s. induction p as [|x p IH]; intros s H; [reflexivity|].
  destruct s as [|y s]; [discriminate|]. simpl in H.
  apply andb_true_iff in H. destruct H as [Hxy H].
  apply N.eqb_eq in Hxy. subst y. simpl. f_equal. apply IH. exact H.
Qed.

Lemma ascii_letter_visible c :
  ascii_letter c = true -> is_space c = false /\ c < 128.
Proof.
  intros H.
  assert (Hlt : c < 128).
  { unfold ascii_letter in H. apply orb_true_iff in H.
    destruct H as [H|H]; apply andb_true_iff in H; destruct H as [_ H];
      apply N.leb_le in H; lia. }
  split; [|exact Hlt].
  pose proof (below_forall
                (fun c => implb (ascii_letter c) (negb (is_space c)))
                128 eq_refl c Hlt) as E.
  cbv beta in E. rewrite H in E. apply negb_true_iff in E. exact E.
Qed.

Section Collector.
Context {uc : Unicode}.

(** What a match is made of. *)
Lemma match_config_some s m rest :
  match_config s = Some (m, rest) ->
  s = m ++ rest /\ config_shaped m.
Proof.
  unfold match_config. destruct s as [|c r]; [discriminate|].
  destruct (ascii_letter c) eqn:Hc; [|discriminate].
  pose proof (span_decomp is_word_plus r) as Hr.
  pose proof (span_fst_all is_word_plus r) as Hw.
  destruct (span is_word_plus r) as [w r1]. cbn [fst snd] in Hr, Hw.
  destruct (starts_with (u "://") r1) eqn:Hsep; [|discriminate].
  apply starts_with_split in Hsep.
  change (length (u "://")) with 3%nat in Hsep.
  pose proof (span_decomp not_space (skipn 3 r1)) as Hb.
  pose proof (span_fst_all not_space (skipn 3 r1)) as Hvis.
  destruct (span not_space (skipn 3 r1)) as [body r2].
  cbn [fst snd] in Hb, Hvis.
  destruct body as [|b body]; [discriminate|].
  intros E. injection E as <- <-. split.
  - rewrite Hr, Hsep, Hb. cbn [app].
    rewrite <- !app_assoc. reflexivity.
  - exists c, w, (b :: body). repeat split; try assumption. discriminate.
Qed.

(** A shaped text followed by a blank, or by nothing, is matched whole. *)
Lemma match_config_shaped link rest :
  config_shaped link ->
  match rest with [] => true | c :: _ => is_space c end = true ->
  match_config (link ++ rest) = Some (link, rest).
Proof.
  intros (c & w & body & -> & Hc & Hw & Hne & Hvis) Hrest.
  unfold match_config. cbn [app]. rewrite Hc.
  assert (Hspan : span is_word_plus ((w ++ u "://" ++ body) ++ rest)
                  = (w, u "://" ++ body ++ rest)).
  { rewrite <- !app_assoc. apply span_app; [exact Hw | reflexivity]. }
  rewrite Hspan.
  cbn [starts_with u map list_ascii_of_string N_of_ascii app].
  cbn [skipn N.eqb Pos.eqb andb].
  assert (Hbody : span not_space (body ++ rest) = (body, rest)).
  { apply span_app; [exact Hvis|].
    destruct rest as [|x rest]; [reflexivity|].
    unfold not_space. rewrite Hrest. reflexivity. }
  change (starts_with [] (body ++ rest)) with true. cbv iota.
  rewrite Hbody. destruct body; [contradiction | reflexivity].
Qed.

Lemma config_shaped_length link : config_shaped link -> (1 <= length link)%nat.
Proof. intros (c & w & body & -> & _). simpl. lia. Qed.

Lemma findall_loop_joined links :
  forall fuel,
    Forall config_shaped links ->
    (length (join LF links) <= fuel)%nat ->
    findall_loop fuel (join LF links) = links.
Proof.
  induction links as [|l links IH]; intros fuel Hall Hfuel.
  - destruct fuel; reflexivity.
  - inversion Hall as [|? ? Hl Hrest]; subst.
    pose proof (config_shaped_length l Hl) as Hlen.
    destruct links as [|l2 links].
    + cbn [join] in *. destruct fuel as [|f]; [lia|].
      destruct l as [|c l]; [simpl in Hlen; lia|].
      cbn [findall_loop].
      rewrite <- (app_nil_r (c :: l)) at 1.
      rewrite (match_config_shaped (c :: l) [] Hl eq_refl).
      destruct f; reflexivity.
    + rewrite join_cons in *. rewrite !length_app in Hfuel.
      cbn [LF length] in Hfuel.
      destruct fuel as [|f]; [lia|].
      destruct l as [|c l]; [simpl in Hlen; lia|].
      cbn [findall_loop].
      change ((c :: l) ++ LF ++ join LF (l2 :: links))
        with ((c :: l) ++ 10 :: join LF (l2 :: links)).
      change ((c :: l) ++ 10 :: join LF (l2 :: links))
        with (c :: l ++ 10 :: join LF (l2 :: links)) at 1.
      rewrite (match_config_shaped (c :: l) (10 :: join LF (l2 :: links))
                 Hl eq_refl).
      f_equal.
      destruct f as [|f']; [lia|].
      cbn [findall_loop match_config ascii_letter].
      change (ascii_letter 10) with false. cbv iota.
      apply IH; [exact Hrest | lia].
Qed.

Lemma findall_loop_matches fuel :
  forall s m,
    In m (findall_loop fuel s) ->
    config_shaped m /\ exists pre post, s = pre ++ m ++ post.
Proof.
  induction fuel as [|f IH]; intros s m Hin; [contradiction|].
  cbn [findall_loop] in Hin. destruct s as [|c s']; [contradiction|].
  destruct (match_config (c :: s')) as [[m' rest]|] eqn:E.
  - apply match_config_some in E. destruct E as [Es Hm].
    destruct Hin as [<-|Hin].
    + split; [exact Hm|]. exists [], rest. exact Es.
    + destruct (IH rest m Hin) as (Hshape & pre & post & Hrest).
      split; [exact Hshape|].
      exists (m' ++ pre), post. rewrite Es, Hrest, <- app_assoc. reflexivity.
  - destruct (IH s' m Hin) as (Hshape & pre & post & Hrest).
    split; [exact Hshape|].
    exists (c :: pre), post. rewrite Hrest. reflexivity.
Qed.

(** X17. Every config the collector finds in a body is a piece of that
    body that begins with an ASCII letter, goes on with characters of a
    scheme up to [://], and then holds at least one character and no
    blank. *)
Theorem findall_configs_are_shaped (blob m : str) :
  In m (findall_configs blob) ->
  config_shaped m /\ exists pre post, blob = pre ++ m ++ post.
Proof. apply findall_loop_matches. Qed.

(** X18. The collector reads back what the writer writes: from shaped
    links joined by line feeds, as [save_to_file] lays them out, it finds
    exactly those links, in order. *)
Theorem findall_configs_of_lines (links : list str) :
  Forall config_shaped links ->
  findall_configs (join LF links) = links.
Proof.
  intros Hall. apply findall_loop_joined; [exact Hall | apply le_n].
Qed.

End Collector.

(** ** From a base64 body to the configs, and the run without a directory *)

Lemma b64_char_visible n : n < 64 -> not_space (b64_char n) = true.
Proof.
  intros H. exact (below_forall (fun n => not_space (b64_char n)) 64 eq_refl n H).
Qed.

Lemma b2a_base64_visible bs :
  Forall (fun b => b < 256) bs -> forallb not_space (b2a_base64 bs) = true.
Proof.
  induction bs as [|a|a b|a b c rest IH] using triples_ind; intros Hbytes.
  - reflexivity.
  - inversion Hbytes as [|? ? Ha _]; subst. cbn [b2a_base64 forallb].
    rewrite !b64_char_visible by lia. reflexivity.
  - inversion Hbytes as [|? ? Ha Hb']; subst.
    inversion Hb' as [|? ? Hb _]; subst. cbn [b2a_base64 forallb].
    rewrite !b64_char_visible by lia. reflexivity.
  - inversion Hbytes as [|? ? Ha Hb']; subst.
    inversion Hb' as [|? ? Hb Hc']; subst.
    inversion Hc' as [|? ? Hc Hrest]; subst. cbn [b2a_base64 forallb].
    rewrite !b64_char_visible by lia. rewrite (IH Hrest). reflexivity.
Qed.

Lemma lstrip_visible s : forallb not_space s = true -> lstrip s = s.
Proof.
  destruct s as [|c s]; [reflexivity|]. cbn [forallb lstrip]. intros H.
  apply andb_true_iff in H. destruct H as [Hc _].
  unfold not_space in Hc. apply negb_true_iff in Hc. rewrite Hc. reflexivity.
Qed.

Lemma strip_visible s : forallb not_space s = true -> strip s = s.
Proof.
  intros H. unfold strip. rewrite (lstrip_visible s H).
  rewrite lstrip_visible.
  - apply rev_involutive.
  - rewrite forallb_forall in *. intros x Hx. apply H. apply in_rev. exact Hx.
Qed.

Lemma contains_infix p a b : contains p (a ++ p ++ b) = true.
Proof.
  unfold contains.
  assert (H : exists i, find p (a ++ p ++ b) = Some i).
  { induction a as [|c a [i IH]].
    - exists O. cbn [app]. apply find_prefix.
    - rewrite find_unfold. cbn [app].
      destruct (starts_with p (c :: a ++ p ++ b)); [exists O; reflexivity|].
      rewrite IH. exists (S i). reflexivity. }
  destruct H as [i ->]. reflexivity.
Qed.

Section Subscription.
Context {rt : Runtime} {uc : Unicode}.

Lemma config_shaped_frame l :
  config_shaped l ->
  exists c m z, l = c :: m ++ [z]
                /\ is_space c = false /\ is_space z = false
                /\ contains (u "://") l = true.
Proof.
  intros (c & w & body & -> & Hc & Hw & Hne & Hvis).
  destruct (exists_last Hne) as (body' & z & ->).
  exists c, (w ++ u "://" ++ body'), z. repeat split.
  - rewrite <- !app_assoc. reflexivity.
  - apply (ascii_letter_visible c Hc).
  - rewrite forallb_app in Hvis. apply andb_true_iff in Hvis.
    destruct Hvis as [_ Hz]. cbn [forallb] in Hz.
    rewrite andb_true_r in Hz. unfold not_space in Hz.
    apply negb_true_iff in Hz. exact Hz.
  - apply (contains_infix (u "://") (c :: w) (body' ++ [z])).
Qed.

Lemma join_shaped_frame links :
  links <> [] -> Forall config_shaped links ->
  exists c m z, join LF links = c :: m ++ [z]
                /\ is_space c = false /\ is_space z = false
                /\ contains (u "://") (join LF links) = true.
Proof.
  induction links as [|l links IH]; intros Hne Hall; [contradiction|].
  inversion Hall as [|? ? Hl Hrest]; subst.
  destruct (config_shaped_frame l Hl) as (c & m & z & El & Hc & Hz & Hsep).
  destruct links as [|l2 links].
  - exists c, m, z. cbn [join]. repeat split; assumption.
  - destruct (IH ltac:(discriminate) Hrest)
      as (c' & m' & z' & Ej & _ & Hz' & _).
    assert (Hcont : contains (u "://") (join LF (l :: l2 :: links)) = true).
    { rewrite join_cons.
      destruct Hl as (c0 & w & body & -> & _).
      replace ((c0 :: w ++ u "://" ++ body) ++ LF ++ join LF (l2 :: links))
        with ((c0 :: w) ++ u "://" ++ (body ++ LF ++ join LF (l2 :: links)))
        by (cbn [app]; rewrite <- !app_assoc; reflexivity).
      apply contains_infix. }
    exists c, (m ++ [z] ++ LF ++ c' :: m'), z'.
    split; [|repeat split; assumption].
    rewrite join_cons, Ej, El. cbn [app]. rewrite <- !app_assoc.
    reflexivity.
Qed.

(** X19. A base64 subscription is decoded and split into its configs: when
    the body of a URL is the base64 encoding of shaped links joined by line
    feeds, the collector returns exactly those links, in order. *)
Theorem collect_base64_subscription (links : list str) (blob : str) :
  links <> [] ->
  Forall config_shaped links ->
  scalar_str (join LF links) = true ->
  b64_encode (join LF links) = Ok blob ->
  collect [Some blob] = links.
Proof.
  intros Hne Hall Hs Eblob.
  destruct (utf8_encode_scalar _ Hs) as (bs & E & Hbytes).
  unfold b64_encode in Eblob. rewrite E in Eblob. injection Eblob as <-.
  unfold collect. cbn [flat_map send_request]. rewrite app_nil_r.
  destruct (join_shaped_frame links Hne Hall)
    as (c & m & z & Ej & Hc & Hz & Hsep).
  unfold maybe_base64_decode.
  assert (Hstrip : strip (b64encode bs) = b64encode bs)
    by (apply strip_visible; apply b2a_base64_visible; exact Hbytes).
  rewrite Hstrip, (b64_decode_b64encode _ bs Hs E Hbytes), Hsep.
  assert (Htext : strip (join LF links) = join LF links).
  { rewrite Ej. rewrite (strip_framed c m z [] Hc Hz). reflexivity. }
  rewrite Htext. apply findall_loop_joined; [exact Hall | apply le_n].
Qed.

Lemma categorize_no_country configs :
  forall acc, fst (categorize configs [] acc) = fst acc.
Proof.
  induction configs as [|link configs IH]; intros acc; [reflexivity|].
  cbn [categorize].
  destruct (strip_port (extract_host link (detect_protocol link)));
    [apply IH|].
  destruct acc as [categorized all_pairs]. rewrite IH. reflexivity.
Qed.

(** X20. Without a directory nothing is written: when the request for the
    probe nodes fails, the run ends without an error and leaves the files
    and the geolocation cache as they were, whatever the URLs delivered. *)
Theorem main_flow_without_directory
  (answers : list (option str))
  (envs : str -> check_host) (fs : files) (w : world) :
  main_flow None answers envs fs w = Ok (None, fs, w).
Proof.
  unfold main_flow. cbn [get_nodes_by_country bind]. unfold main_async.
  cbn [dict_keys map].
  pose proof (categorize_no_country (collect answers) ([], [])) as H.
  destruct (categorize (collect answers) [] ([], [])) as [categorized ap].
  cbn [fst] in H. subst categorized. reflexivity.
Qed.

End Subscription.

Lemma findall_configs_are_shaped_witness :
  config_shaped (uc := example_unicode) (u "vmess://abc")
  /\ exists pre post,
       u "see vmess://abc now" = pre ++ u "vmess://abc" ++ post.
Proof.
  apply (findall_configs_are_shaped (uc := example_unicode)
           (u "see vmess://abc now") (u "vmess://abc")).
  vm_compute. left. reflexivity.
Defined.

Lemma sample_links_shaped :
  Forall (config_shaped (uc := example_unicode))
    [u "vmess://abc"; u "trojan://pw@example.org:443#old"].
Proof.
  constructor; [|constructor; [|constructor]].
  - exists 118, (u "mess"), (u "abc").
    repeat split; try reflexivity; discriminate.
  - exists 116, (u "rojan"), (u "pw@example.org:443#old").
    repeat split; try reflexivity; discriminate.
Defined.

Lemma findall_configs_of_lines_witness :
  findall_configs (uc := example_unicode)
    (join LF [u "vmess://abc"; u "trojan://pw@example.org:443#old"])
  = [u "vmess://abc"; u "trojan://pw@example.org:443#old"].
Proof.
  apply (findall_configs_of_lines (uc := example_unicode)).
  exact sample_links_shaped.
Defined.

Lemma collect_base64_subscription_witness :
  collect (uc := example_unicode)
    [Some (u "dm1lc3M6Ly9hYmMKdHJvamFuOi8vcHdAZXhhbXBsZS5vcmc6NDQzI29sZA==")]
  = [u "vmess://abc"; u "trojan://pw@example.org:443#old"].
Proof.
  apply (collect_base64_subscription (uc := example_unicode)
           [u "vmess://abc"; u "trojan://pw@example.org:443#old"]).
  - discriminate.
  - exact sample_links_shaped.
  - reflexivity.
  - reflexivity.
Defined.

(** ** Shadowsocks links with base64 credentials *)

Lemma b2a_base64_all (p : char -> bool) bs :
  (forall n, n < 64 -> p (b64_char n) = true) -> p 61 = true ->
  Forall (fun b => b < 256) bs -> forallb p (b2a_base64 bs) = true.
Proof.
  intros Hchar Hpad.
  induction bs as [|a|a b|a b c rest IH] using triples_ind; intros Hbytes.
  - reflexivity.
  - inversion Hbytes as [|? ? Ha _]; subst. cbn [b2a_base64 forallb].
    rewrite !Hchar by lia. rewrite Hpad. reflexivity.
  - inversion Hbytes as [|? ? Ha Hb']; subst.
    inversion Hb' as [|? ? Hb _]; subst. cbn [b2a_base64 forallb].
    rewrite !Hchar by lia. rewrite Hpad. reflexivity.
  - inversion Hbytes as [|? ? Ha Hb']; subst.
    inversion Hb' as [|? ? Hb Hc']; subst.
    inversion Hc' as [|? ? Hc Hrest]; subst. cbn [b2a_base64 forallb].
    rewrite !Hchar by lia. rewrite (IH Hrest). reflexivity.
Qed.

(** The text of a base64 encoding holds neither [#] nor [@]. *)
Lemma b2a_base64_no_delimiter bs c :
  Forall (fun b => b < 256) bs -> c = 35 \/ c = 64 ->
  ~ In c (b2a_base64 bs).
Proof.
  intros Hbytes Hc Hin.
  pose proof (b2a_base64_all
                (fun x => negb ((x =? 35) || (x =? 64))) bs
                (below_forall
                   (fun n => negb ((b64_char n =? 35) || (b64_char n =? 64)))
                   64 eq_refl)
                eq_refl Hbytes) as H.
  rewrite forallb_forall in H. specialize (H c Hin).
  destruct Hc as [-> | ->]; discriminate.
Qed.

Lemma upto_incl c s x : In x (upto c s) -> In x s.
Proof.
  destruct (upto_split c s) as (r & E & _). intros H.
  rewrite E. apply in_or_app. left. exact H.
Qed.

(** What the two ways of writing base64 credentials have in common. *)
Lemma base64_creds secret e creds :
  scalar_str secret = true ->
  b64_encode secret = Ok e ->
  creds = e \/ creds = upto 61 e ->
  b64_decode creds = Ok secret /\ ~ In 35 creds /\ ~ In 64 creds.
Proof.
  intros Hs Ee Hcreds.
  destruct (utf8_encode_scalar secret Hs) as (bs & E & Hbytes).
  unfold b64_encode in Ee. rewrite E in Ee. injection Ee as <-.
  destruct Hcreds as [-> | ->].
  - repeat split.
    + exact (b64_decode_b64encode secret bs Hs E Hbytes).
    + apply b2a_base64_no_delimiter; auto.
    + apply b2a_base64_no_delimiter; auto.
  - repeat split.
    + exact (b64_decode_upto secret bs Hs E Hbytes).
    + intros H. apply upto_incl in H. revert H.
      apply b2a_base64_no_delimiter; auto.
    + intros H. apply upto_incl in H. revert H.
      apply b2a_base64_no_delimiter; auto.
Qed.

(** X21. Base64 credentials survive the renaming: for a shadowsocks link
    [ss://creds@...] whose credentials are the base64 of [method:password],
    with or without padding, the renamed link is
    [ss://base64(method:password)@ip:port#tag], in canonical padded form. *)
Theorem rename_shadowsocks_base64
  (method pwd creds rest ip port tag e q : str) :
  scalar_str (method ++ u ":" ++ pwd) = true ->
  ~ In 58 method ->
  b64_encode (method ++ u ":" ++ pwd) = Ok e ->
  creds = e \/ creds = upto 61 e ->
  quote tag = Ok q ->
  rename_shadowsocks (u "ss://" ++ creds ++ u "@" ++ rest) ip port tag
  = u "ss://" ++ e ++ u "@" ++ ip ++ u ":" ++ port ++ u "#" ++ q.
Proof.
  intros Hs Hcolon Henc Hcreds Hq.
  destruct (base64_creds _ e creds Hs Henc Hcreds) as (Hdec & Hhash & Hat).
  unfold rename_shadowsocks, rename_shadowsocks_body.
  rewrite split1_scheme. simpl second. cbn [bind].
  change (u "#") with [35]. change (u "@") with [64].
  match goal with
  | |- context [contains [64] (if contains ?p ?x then ?a else ?b)] =>
      assert (Hbody : exists rest1,
                 (if contains p x then a else b) = creds ++ 64 :: rest1)
  end.
  { match goal with
    | |- context [if ?c then _ else _] => destruct c
    end.
    - rewrite split1_head_default, upto_app by exact Hhash.
      exists (upto 35 rest).
      rewrite upto_cons_other by discriminate. reflexivity.
    - exists rest. reflexivity. }
  destruct Hbody as [rest1 ->].
  assert (Hc : contains [64] (creds ++ 64 :: rest1) = true).
  { apply contains_char. apply in_or_app. right. left. reflexivity. }
  rewrite Hc. rewrite split1_char by exact Hat.
  rewrite Hdec. cbn [bind].
  unfold split_creds. change (u ":") with [58].
  change (method ++ [58] ++ pwd) with (method ++ 58 :: pwd).
  rewrite split1_char by exact Hcolon. simpl unpack2. cbn [bind].
  change (method ++ 58 :: pwd) with (method ++ [58] ++ pwd).
  change [58] with (u ":"). rewrite Henc. cbn [bind].
  rewrite Hq. reflexivity.
Qed.

(** X22. The older form keeps its server inside the credentials: for a
    link [ss://base64(method:rest)] without [@], where [rest] is all that
    follows the first colon of the payload (in that form the password, an
    [@] and the old server), the renamed link carries the base64 of the
    whole payload as its credentials, before the new [@ip:port]. *)
Theorem rename_shadowsocks_without_at
  (method rest creds frag ip port tag e q : str) :
  scalar_str (method ++ u ":" ++ rest) = true ->
  ~ In 58 method ->
  b64_encode (method ++ u ":" ++ rest) = Ok e ->
  creds = e \/ creds = upto 61 e ->
  frag = [] \/ (exists old, frag = 35 :: old) ->
  quote tag = Ok q ->
  rename_shadowsocks (u "ss://" ++ creds ++ frag) ip port tag
  = u "ss://" ++ e ++ u "@" ++ ip ++ u ":" ++ port ++ u "#" ++ q.
Proof.
  intros Hs Hcolon Henc Hcreds Hfrag Hq.
  destruct (base64_creds _ e creds Hs Henc Hcreds) as (Hdec & Hhash & Hat).
  unfold rename_shadowsocks, rename_shadowsocks_body.
  rewrite split1_scheme. simpl second. cbn [bind].
  change (u "#") with [35]. change (u "@") with [64].
  match goal with
  | |- context [contains [64] (if contains ?p ?x then ?a else ?b)] =>
      assert (Hbody : (if contains p x then a else b) = creds)
  end.
  { destruct Hfrag as [-> | [old ->]].
    - rewrite app_nil_r.
      assert (Hno : contains [35] creds = false).
      { destruct (contains [35] creds) eqn:Ec; [|reflexivity].
        apply contains_char in Ec. contradiction. }
      rewrite Hno. reflexivity.
    - assert (Hyes : contains [35] (creds ++ 35 :: old) = true).
      { apply contains_char. apply in_or_app. right. left. reflexivity. }
      rewrite Hyes, split1_char by exact Hhash. reflexivity. }
  rewrite Hbody.
  assert (Hno : contains [64] creds = false).
  { destruct (contains [64] creds) eqn:Ec; [|reflexivity].
    apply contains_char in Ec. contradiction. }
  rewrite Hno, Hdec. cbn [bind].
  unfold split_creds. change (u ":") with [58].
  change (method ++ [58] ++ rest) with (method ++ 58 :: rest).
  rewrite split1_char by exact Hcolon. simpl unpack2. cbn [bind].
  change (method ++ 58 :: rest) with (method ++ [58] ++ rest).
  change [58] with (u ":"). rewrite Henc. cbn [bind].
  rewrite Hq. reflexivity.
Qed.

Lemma rename_shadowsocks_base64_witness :
  rename_shadowsocks
    (u "ss://" ++ u "YWVzLTI1Ni1nY206cGFzc3dvcmQ" ++ u "@"
       ++ u "1.2.3.4:8388#old")
    (u "5.6.7.8") (u "443") (u "tag")
  = u "ss://" ++ u "YWVzLTI1Ni1nY206cGFzc3dvcmQ=" ++ u "@" ++ u "5.6.7.8"
      ++ u ":" ++ u "443" ++ u "#" ++ u "tag".
Proof.
  apply (rename_shadowsocks_base64 (u "aes-256-gcm") (u "password")
           (u "YWVzLTI1Ni1nY206cGFzc3dvcmQ") (u "1.2.3.4:8388#old")
           (u "5.6.7.8") (u "443") (u "tag")
           (u "YWVzLTI1Ni1nY206cGFzc3dvcmQ=") (u "tag")).
  - reflexivity.
  - intros H. vm_compute in H. intuition discriminate.
  - reflexivity.
  - right. reflexivity.
  - reflexivity.
Defined.

Lemma rename_shadowsocks_without_at_witness :
  rename_shadowsocks
    (u "ss://" ++ u "YWVzLTI1Ni1nY206cHdAMS4yLjMuNDo4Mzg4" ++ u "#old")
    (u "5.6.7.8") (u "443") (u "tag")
  = u "ss://" ++ u "YWVzLTI1Ni1nY206cHdAMS4yLjMuNDo4Mzg4" ++ u "@"
      ++ u "5.6.7.8" ++ u ":" ++ u "443" ++ u "#" ++ u "tag".
Proof.
  apply (rename_shadowsocks_without_at (u "aes-256-gcm")
           (u "pw@1.2.3.4:8388")
           (u "YWVzLTI1Ni1nY206cHdAMS4yLjMuNDo4Mzg4") (u "#old")
           (u "5.6.7.8") (u "443") (u "tag")
           (u "YWVzLTI1Ni1nY206cHdAMS4yLjMuNDo4Mzg4") (u "tag")).
  - reflexivity.
  - intros H. vm_compute in H. intuition discriminate.
  - reflexivity.
  - left. reflexivity.
  - right. exists (u "old"). reflexivity.
  - reflexivity.
Defined.

(** ** [rename_generic]: the host, the port and the fragment *)

Lemma not_in_contains c s : ~ In c s -> contains [c] s = false.
Proof.
  intros H. destruct (contains [c] s) eqn:E; [|reflexivity].
  apply contains_char in E. contradiction.
Qed.

Lemma to_end_of_text_no_lf t : ~ In 10 t -> to_end_of_text t = true.
Proof.
  induction t as [|c t IH]; intros H; [reflexivity|].
  cbn [to_end_of_text]. destruct t as [|c' t]; [reflexivity|].
  assert (Hc : (c =? 10) = false)
    by (apply N.eqb_neq; intros ->; apply H; left; reflexivity).
  rewrite Hc. cbn [negb andb]. apply IH. intros Hin. apply H. right. exact Hin.
Qed.

Lemma head_not_lf (r : str) :
  ~ In 10 r -> match r with 10 :: _ => LF | _ => [] end = [].
Proof.
  intros Hr. destruct r as [|c r]; [reflexivity|].
  destruct (N.eq_dec c 10) as [->|Hc].
  - exfalso. apply Hr. left. reflexivity.
  - destruct c as [|p]; [reflexivity|].
    repeat (destruct p as [p|p|]; try reflexivity).
    exfalso. apply Hc. reflexivity.
Qed.

Lemma final_newline_no_lf t : ~ In 10 t -> final_newline t = [].
Proof.
  intros H. unfold final_newline. apply head_not_lf.
  intros Hin. apply H. apply in_rev. exact Hin.
Qed.

Lemma sub_fragment_first repl a b :
  ~ In 35 a -> ~ In 10 b ->
  sub_fragment repl (a ++ 35 :: b) = a ++ repl.
Proof.
  intros Ha Hb. induction a as [|c a IH].
  - cbn [app sub_fragment]. rewrite (to_end_of_text_no_lf b Hb).
    rewrite (final_newline_no_lf b Hb), app_nil_r. reflexivity.
  - cbn [app sub_fragment].
    assert (Hc : (c =? 35) = false)
      by (apply N.eqb_neq; intros ->; apply Ha; left; reflexivity).
    rewrite Hc. cbn [andb]. f_equal. apply IH.
    intros Hin. apply Ha. right. exact Hin.
Qed.

Lemma quote_byte_no_hash b : ~ In 35 (quote_byte b).
Proof.
  unfold quote_byte. destruct (quote_safe b) eqn:Hs.
  - intros [H|[]]. subst b. discriminate.
  - unfold hex_upper. intros [H|[H|[H|[]]]]; [discriminate| |].
    + destruct (b / 16 <? 10); lia.
    + destruct (b mod 16 <? 10); lia.
Qed.

Lemma quote_no_hash s q : quote s = Ok q -> ~ In 35 q.
Proof.
  unfold quote. destruct (utf8_encode s) as [bs|]; [|discriminate].
  cbn [bind]. intros E. injection E as <-. intros Hin.
  apply in_flat_map in Hin. destruct Hin as (b & _ & Hb).
  exact (quote_byte_no_hash b Hb).
Qed.

Section Generic.
Context {rt : Runtime}.

Lemma match_hostport_suffix s g r :
  match_hostport s = Some (g, r) -> exists taken, s = taken ++ r.
Proof.
  unfold match_hostport.
  pose proof (span_decomp not_delim s) as Hs.
  destruct (span not_delim s) as [host r1]. cbn [fst snd] in Hs.
  destruct host as [|h host]; [discriminate|].
  assert (Plain : Some (@None str, r1) = Some (g, r) ->
                  exists taken, s = taken ++ r).
  { intros E. injection E as <- <-. exists (h :: host). exact Hs. }
  destruct r1 as [|c r1]; [exact Plain|].
  destruct (N.eq_dec c 58) as [->|Hc].
  - pose proof (span_decomp re_digit r1) as Hd.
    destruct (span re_digit r1) as [ds r2]. cbn [fst snd] in Hd.
    destruct ds as [|d ds]; [exact Plain|].
    intros E. injection E as <- <-.
    exists ((h :: host) ++ 58 :: d :: ds).
    rewrite Hs, Hd, <- app_assoc. reflexivity.
  - destruct c as [|p]; [exact Plain|].
    repeat (destruct p as [p|p|]; try exact Plain).
    exfalso. apply Hc. reflexivity.
Qed.

(** A character of the result of a literal substitution comes from the
    text or from the replacement. *)
Lemma sub_loop_in (c : char) (lead repl : str) fuel :
  forall s,
    In c (sub_loop fuel lead (fun _ => repl) s) -> In c s \/ In c repl.
Proof.
  induction fuel as [|f IH]; intros s H; [left; exact H|].
  cbn [sub_loop] in H. destruct s as [|x s']; [contradiction|].
  assert (Keep : In c (x :: sub_loop f lead (fun _ => repl) s') ->
                 In c (x :: s') \/ In c repl).
  { intros [->|Hin]; [left; left; reflexivity|].
    destruct (IH s' Hin) as [Hs|Hr]; [left; right; exact Hs | right; exact Hr]. }
  destruct (starts_with lead (x :: s')); [|exact (Keep H)].
  destruct (match_hostport (skipn (length lead) (x :: s'))) as [[g r]|] eqn:E;
    [|exact (Keep H)].
  apply in_app_or in H. destruct H as [Hr|Hin]; [right; exact Hr|].
  destruct (IH r Hin) as [Hs|Hr]; [left | right; exact Hr].
  destruct (match_hostport_suffix _ _ _ E) as (taken & Et).
  rewrite <- (firstn_skipn (length lead) (x :: s')), Et.
  apply in_or_app. right. apply in_or_app. right. exact Hs.
Qed.

(** X23. The fragment of a renamed link is the tag: for a link, an address
    and a port without line feed or backslash, [rename_generic] returns a
    text that ends in [#] and the quoted tag, and holds no other [#]. *)
Theorem rename_generic_sets_fragment (link ip port tag q : str) :
  ~ In 10 link -> ~ In 10 (ip ++ port) -> ~ In 92 (ip ++ port) ->
  quote tag = Ok q ->
  exists pre,
    rename_generic link ip port tag = pre ++ u "#" ++ q
    /\ ~ In 35 pre /\ ~ In 35 q.
Proof.
  intros Hlink Hlf Hbs Hq.
  unfold rename_generic, rename_generic_body.
  assert (Sub : forall lead,
            ~ In 10 lead -> ~ In 92 lead ->
            exists out,
              sub_hostport lead (lead ++ ip ++ u ":" ++ port) link = Ok out
              /\ ~ In 10 out).
  { intros lead Hl10 Hl92. unfold sub_hostport, compile_template.
    rewrite not_in_contains.
    2:{ intros Hin. apply in_app_or in Hin. destruct Hin as [Hin|Hin];
          [exact (Hl92 Hin)|].
        apply in_app_or in Hin. destruct Hin as [Hin|Hin].
        - apply Hbs. apply in_or_app. left. exact Hin.
        - destruct Hin as [Hin|Hin]; [discriminate|].
          apply Hbs. apply in_or_app. right. exact Hin. }
    cbn [bind]. eexists. split; [reflexivity|].
    intros Hin. apply sub_loop_in in Hin. destruct Hin as [Hin|Hin];
      [exact (Hlink Hin)|].
    apply in_app_or in Hin. destruct Hin as [Hin|Hin]; [exact (Hl10 Hin)|].
    apply in_app_or in Hin. destruct Hin as [Hin|Hin].
    - apply Hlf. apply in_or_app. left. exact Hin.
    - destruct Hin as [Hin|Hin]; [discriminate|].
      apply Hlf. apply in_or_app. right. exact Hin. }
  assert (Out : exists out,
            (if contains (u "@") link
             then sub_hostport (u "@") (u "@" ++ ip ++ u ":" ++ port) link
             else sub_hostport (u "://") (u "://" ++ ip ++ u ":" ++ port) link)
            = Ok out /\ ~ In 10 out).
  { destruct (contains (u "@") link); apply Sub;
      intros H; vm_compute in H; intuition discriminate. }
  destruct Out as (out & -> & Hout). cbn [bind]. rewrite Hq. cbn [bind].
  pose proof (quote_no_hash tag q Hq) as Hqh.
  change (u "#") with [35].
  destruct (contains [35] out) eqn:Ec.
  - destruct (upto_split 35 out) as (r & E & Hpre & Hr).
    destruct Hr as [->|[r' ->]].
    + exfalso. rewrite app_nil_r in E. rewrite <- E in Hpre.
      apply contains_char in Ec. contradiction.
    + exists (upto 35 out). cbn [try_except]. rewrite E at 1.
      rewrite sub_fragment_first.
      * repeat split; assumption.
      * exact Hpre.
      * intros Hin. apply Hout. rewrite E. apply in_or_app. right. right.
        exact Hin.
  - exists out. cbn [try_except]. repeat split; try assumption.
    intros Hin. apply (contains_char 35) in Hin.
    discriminate (eq_trans (eq_sym Hin) Ec).
Qed.

Lemma sub_loop_skip (expand : option str -> str) a :
  forall f s,
    ~ In 64 a ->
    sub_loop (length a + f) [64] expand (a ++ s)
    = a ++ sub_loop f [64] expand s.
Proof.
  induction a as [|c a IH]; intros f s Ha; [reflexivity|].
  cbn [length Nat.add app sub_loop starts_with].
  assert (Hc : (64 =? c) = false)
    by (apply N.eqb_neq; intros <-; apply Ha; left; reflexivity).
  rewrite Hc. cbn [andb]. f_equal. apply IH.
  intros Hin. apply Ha. right. exact Hin.
Qed.

Lemma sub_loop_none (expand : option str -> str) fuel :
  forall s, ~ In 64 s -> sub_loop fuel [64] expand s = s.
Proof.
  induction fuel as [|f IH]; intros s Hs; [reflexivity|].
  destruct s as [|c s]; [reflexivity|].
  cbn [sub_loop starts_with].
  assert (Hc : (64 =? c) = false)
    by (apply N.eqb_neq; intros <-; apply Hs; left; reflexivity).
  rewrite Hc. cbn [andb]. f_equal. apply IH.
  intros Hin. apply Hs. right. exact Hin.
Qed.

Lemma sub_loop_at (expand : option str -> str) f x g r :
  match_hostport x = Some (g, r) ->
  sub_loop (S f) [64] expand (64 :: x) = expand g ++ sub_loop f [64] expand r.
Proof.
  intros E. cbn [sub_loop starts_with N.eqb Pos.eqb andb length skipn].
  rewrite E. reflexivity.
Qed.

Lemma match_hostport_with_port host digits rest :
  host <> [] -> forallb not_delim host = true ->
  digits <> [] -> forallb is_digit digits = true ->
  match rest with [] => true | c :: _ => negb (re_digit c) end = true ->
  match_hostport (host ++ 58 :: digits ++ rest)
  = Some (Some (58 :: digits), rest).
Proof.
  intros Hh Hhost Hd Hdigits Hrest. unfold match_hostport.
  rewrite (span_app not_delim host (58 :: digits ++ rest) Hhost eq_refl).
  destruct host as [|h host]; [contradiction|].
  rewrite (span_app re_digit digits rest).
  - destruct digits; [contradiction | reflexivity].
  - rewrite forallb_forall in *. intros x Hx. specialize (Hdigits x Hx).
    unfold re_digit, digit_of. rewrite Hdigits. reflexivity.
  - exact Hrest.
Qed.

(** X24. The usual link [scheme://user@host:port...#old]: the text up to
    the [@] and what follows the port are kept, the host and the port are
    replaced by the new address, and the fragment, present or not, becomes
    the quoted tag. *)
Theorem rename_generic_replaces_host
  (pre host digits tail frag ip port tag q : str) :
  ~ In 64 pre -> ~ In 35 pre ->
  host <> [] -> forallb not_delim host = true ->
  digits <> [] -> forallb is_digit digits = true ->
  match tail with [] => true | c :: _ => negb (re_digit c) end = true ->
  ~ In 64 tail -> ~ In 35 tail ->
  frag = [] \/ (exists old, frag = 35 :: old /\ ~ In 10 old /\ ~ In 64 old) ->
  ~ In 92 (ip ++ port) -> ~ In 35 (ip ++ port) ->
  quote tag = Ok q ->
  rename_generic
    (pre ++ u "@" ++ host ++ u ":" ++ digits ++ tail ++ frag) ip port tag
  = pre ++ u "@" ++ ip ++ u ":" ++ port ++ tail ++ u "#" ++ q.
Proof.
  intros Hpre64 Hpre35 Hh Hhost Hd Hdigits Htail Ht64 Ht35 Hfrag Hbs Hhash Hq.
  set (link := pre ++ [64] ++ host ++ [58] ++ digits ++ tail ++ frag).
  set (addr := [64] ++ ip ++ [58] ++ port).
  assert (Hat : contains [64] link = true).
  { apply contains_char. unfold link. apply in_or_app. right. left.
    reflexivity. }
  assert (Hlit : contains [92] addr = false).
  { apply not_in_contains. unfold addr. cbn [app].
    intros [H|Hin]; [discriminate|].
    apply in_app_or in Hin. destruct Hin as [Hin|[H|Hin]]; [|discriminate|].
    - apply Hbs. apply in_or_app. left. exact Hin.
    - apply Hbs. apply in_or_app. right. exact Hin. }
  assert (Haddr : ~ In 35 addr).
  { unfold addr. cbn [app]. intros [H|Hin]; [discriminate|].
    apply in_app_or in Hin. destruct Hin as [Hin|[H|Hin]]; [|discriminate|].
    - apply Hhash. apply in_or_app. left. exact Hin.
    - apply Hhash. apply in_or_app. right. exact Hin. }
  assert (H64 : ~ In 64 (tail ++ frag)).
  { intros Hin. apply in_app_or in Hin. destruct Hin as [Hin|Hin];
      [exact (Ht64 Hin)|].
    destruct Hfrag as [->|(old & -> & _ & Ho)]; [contradiction|].
    destruct Hin as [H|Hin]; [discriminate | exact (Ho Hin)]. }
  assert (Hrest : match tail ++ frag with
                  | [] => true
                  | c :: _ => negb (re_digit c)
                  end = true).
  { destruct tail as [|t tail]; [|exact Htail].
    destruct Hfrag as [->|(old & -> & _)]; [reflexivity|].
    cbn [app]. unfold re_digit, digit_of. reflexivity. }
  assert (Hsub : sub_hostport [64] addr link
                 = Ok (pre ++ addr ++ tail ++ frag)).
  { unfold sub_hostport, compile_template. rewrite Hlit. cbn [bind]. f_equal.
    unfold link.
    replace (S (length (pre ++ [64] ++ host ++ [58] ++ digits ++ tail ++ frag)))
      with (length pre
            + S (S (length (host ++ [58%N] ++ digits ++ tail ++ frag))))%nat
      by (rewrite !length_app; cbn [length]; lia).
    rewrite sub_loop_skip by exact Hpre64. f_equal.
    change ([64] ++ host ++ [58] ++ digits ++ tail ++ frag)
      with (64 :: host ++ 58 :: digits ++ (tail ++ frag)).
    rewrite (sub_loop_at _ _ _ _ _
               (match_hostport_with_port host digits (tail ++ frag)
                  Hh Hhost Hd Hdigits Hrest)).
    rewrite sub_loop_none by exact H64. reflexivity. }
  assert (Hout35 : ~ In 35 (pre ++ addr ++ tail)).
  { intros Hin. apply in_app_or in Hin. destruct Hin as [Hin|Hin];
      [exact (Hpre35 Hin)|].
    apply in_app_or in Hin. destruct Hin as [Hin|Hin];
      [exact (Haddr Hin) | exact (Ht35 Hin)]. }
  change (try_except
            (out <- (if contains [64] link
                     then sub_hostport [64] addr link
                     else sub_hostport (u "://")
                            (u "://" ++ ip ++ [58] ++ port) link) ;;
             q' <- quote tag ;;
             if contains [35] out
             then Ok (sub_fragment ([35] ++ q') out)
             else Ok (out ++ [35] ++ q'))
            link
          = pre ++ [64] ++ ip ++ [58] ++ port ++ tail ++ [35] ++ q).
  rewrite Hat, Hsub. cbn [bind]. rewrite Hq. cbn [bind].
  assert (Hshape : (pre ++ addr ++ tail) ++ [35] ++ q
                   = pre ++ [64] ++ ip ++ [58] ++ port ++ tail ++ [35] ++ q).
  { unfold addr. rewrite <- !app_assoc. reflexivity. }
  destruct Hfrag as [->|(old & -> & Hold & _)].
  - rewrite app_nil_r.
    match goal with
    | |- context [contains ?a ?b] =>
        replace (contains a b) with false
          by (symmetry; exact (not_in_contains 35 _ Hout35))
    end.
    cbn [try_except]. exact Hshape.
  - replace (pre ++ addr ++ tail ++ 35 :: old)
      with ((pre ++ addr ++ tail) ++ 35 :: old)
      by (rewrite <- !app_assoc; reflexivity).
    assert (Hyes : contains [35] ((pre ++ addr ++ tail) ++ 35 :: old) = true).
    { apply contains_char. apply in_or_app. right. left. reflexivity. }
    match goal with
    | |- context [contains ?a ?b] =>
        replace (contains a b) with true by (symmetry; exact Hyes)
    end.
    cbn [try_except].
    match goal with
    | |- context [sub_fragment ?r ?x] =>
        replace (sub_fragment r x) with ((pre ++ addr ++ tail) ++ r)
          by (symmetry; exact (sub_fragment_first _ _ _ Hout35 Hold))
    end.
    exact Hshape.
Qed.

End Generic.

Lemma rename_generic_sets_fragment_witness :
  exists pre,
    rename_generic (rt := example_runtime)
      (u "vless://id@example.org:443?type=ws#old") (u "1.2.3.4") (u "8443")
      (u "my tag")
    = pre ++ u "#" ++ u "my%20tag"
    /\ ~ In 35 pre /\ ~ In 35 (u "my%20tag").
Proof.
  apply (rename_generic_sets_fragment (rt := example_runtime)
           (u "vless://id@example.org:443?type=ws#old") (u "1.2.3.4")
           (u "8443") (u "my tag") (u "my%20tag"));
    try reflexivity; intros H; vm_compute in H; intuition discriminate.
Defined.

Lemma rename_generic_replaces_host_witness :
  rename_generic (rt := example_runtime)
    (u "vless://id" ++ u "@" ++ u "example.org" ++ u ":" ++ u "443"
       ++ u "?type=ws" ++ u "#old")
    (u "1.2.3.4") (u "8443") (u "my tag")
  = u "vless://id" ++ u "@" ++ u "1.2.3.4" ++ u ":" ++ u "8443"
      ++ u "?type=ws" ++ u "#" ++ u "my%20tag".
Proof.
  apply (rename_generic_replaces_host (rt := example_runtime)
           (u "vless://id") (u "example.org") (u "443") (u "?type=ws")
           (u "#old") (u "1.2.3.4") (u "8443") (u "my tag") (u "my%20tag"));
    try reflexivity; try discriminate;
    try (intros H; vm_compute in H; intuition discriminate).
  right. exists (u "old").
  repeat split; intros H; vm_compute in H; intuition discriminate.
Defined.

(** ** [rename_vmess] and the other fields; the port of [rename_line] *)

Section VmessFields.
Context {rt : Runtime}.


Lemma rfind_char_none c s : ~ In c s -> rfind [c] s = None.
Proof.
  induction s as [|x s IH]; intros H; [reflexivity|].
  cbn [rfind]. rewrite IH by (intros Hin; apply H; right; exact Hin).
  cbn [starts_with].
  assert (Hx : (c =? x) = false)
    by (apply N.eqb_neq; intros ->; apply H; left; reflexivity).
  rewrite Hx. reflexivity.
Qed.

Lemma rfind_char_last c a b :
  ~ In c b -> rfind [c] (a ++ c :: b) = Some (length a).
Proof.
  intros Hb. induction a as [|x a IH].
  - cbn [app rfind]. rewrite (rfind_char_none c b Hb).
    cbn [starts_with]. rewrite N.eqb_refl. destruct b; reflexivity.
  - cbn [app rfind length]. rewrite IH. reflexivity.
Qed.

Lemma split_host_port_last_colon host port :
  ~ In 58 port -> split_host_port (host ++ u ":" ++ port) = (host, port).
Proof.
  intros Hp. unfold split_host_port.
  assert (Hc : contains (u ":") (host ++ u ":" ++ port) = true).
  { apply (contains_char 58). apply in_or_app. right. left. reflexivity. }
  rewrite Hc. unfold rsplit1.
  assert (Hr : rfind (u ":") (host ++ u ":" ++ port) = Some (length host))
    by exact (rfind_char_last 58 host port Hp).
  rewrite Hr.
  rewrite firstn_app, Nat.sub_diag, firstn_all, app_nil_r.
  replace (length host + length (u ":"))%nat
    with (length (host ++ u ":")) by (rewrite length_app; reflexivity).
  rewrite app_assoc, skipn_app, skipn_all, Nat.sub_diag. reflexivity.
Qed.


End VmessFields.



(** ** The ranking puts the faster links first *)

Lemma in_before_or {A} (a b : A) l :
  In a l -> In b l -> a <> b -> before a b l \/ before b a l.
Proof.
  induction l as [|x l IH]; intros Ha Hb Hne; [contradiction|].
  destruct Ha as [->|Ha]; destruct Hb as [->|Hb].
  - contradiction.
  - left. apply before_head. exact Hb.
  - right. apply before_head. exact Ha.
  - destruct (IH Ha Hb Hne) as [H|H]; [left | right]; apply before_cons;
      exact H.
Qed.

Lemma before_length {A} (a b : A) l : before a b l -> (2 <= length l)%nat.
Proof.
  intros (l1 & l2 & l3 & ->). rewrite length_app. cbn [length].
  rewrite length_app. cbn [length]. lia.
Qed.

Lemma ordered_tail {A} (key : A -> lat) x l :
  ordered key (x :: l) -> ordered key l.
Proof. intros H a b Hab. apply H. apply before_cons. exact Hab. Qed.

Lemma no_nan_forall {A} (key : A -> lat) l :
  existsb is_nan (map key l) = false <->
  (forall z, In z l -> is_nan (key z) = false).
Proof.
  induction l as [|x l IH]; cbn [map existsb].
  - split; [intros _ z []|reflexivity].
  - rewrite orb_false_iff, IH. split.
    + intros [Hx Hl] z [<-|Hz]; [exact Hx|apply Hl; exact Hz].
    + intros H. split; [apply H; left; reflexivity|].
      intros z Hz. apply H. right. exact Hz.
Qed.

Lemma insert_sorted_ordered {A} (key : A -> lat) x l :
  (forall z, In z l -> is_nan (key z) = false) ->
  ordered key l -> ordered key (insert_sorted key x l).
Proof.
  induction l as [|y l IH]; intros Hnan Hord a b Hab.
  - cbn [insert_sorted] in Hab. apply before_length in Hab.
    cbn [length] in Hab. lia.
  - cbn [insert_sorted] in Hab.
    destruct (lat_ltb (key y) (key x)) eqn:Hyx.
    + apply before_cons_inv in Hab. destruct Hab as [[-> Hb]|Hab].
      * apply (Permutation_in _ (insert_sorted_perm key x l)) in Hb.
        destruct Hb as [<-|Hb].
        -- apply lat_ltb_asym. exact Hyx.
        -- apply Hord. apply before_head. exact Hb.
      * apply (IH (fun z Hz => Hnan z (or_intror Hz))
                 (ordered_tail key y l Hord) a b Hab).
    + apply before_cons_inv in Hab. destruct Hab as [[-> Hb]|Hab].
      * destruct Hb as [<-|Hb]; [exact Hyx|].
        apply (lat_ltb_not_trans _ (key y));
          [apply Hnan; left; reflexivity | exact Hyx |].
        apply Hord. apply before_head. exact Hb.
      * exact (Hord a b Hab).
Qed.

Lemma stable_sort_ordered {A} (key : A -> lat) l :
  (forall z, In z l -> is_nan (key z) = false) ->
  ordered key (stable_sort key l).
Proof.
  induction l as [|x l IH]; intros Hnan; unfold stable_sort;
    cbn [fold_right].
  - intros a b Hab. apply before_length in Hab. cbn [length] in Hab. lia.
  - apply insert_sorted_ordered.
    + intros z Hz. apply Hnan. right.
      apply (Permutation_in _ (stable_sort_perm key l)). exact Hz.
    + apply IH. intros z Hz. apply Hnan. right. exact Hz.
Qed.

(** When no key is NaN, nothing in the sorted list comes before something
    strictly smaller. *)
Lemma sorted_ordered {rt : Runtime} {A} (key : A -> lat) l :
  existsb is_nan (map key l) = false -> ordered key (sorted key l).
Proof.
  intros H. rewrite (sorted_no_nan key l H). apply stable_sort_ordered.
  apply no_nan_forall. exact H.
Qed.

(** *** The set of hosts and the probes *)

Lemma set_add_in seen h x : In x (set_add seen h) <-> In x seen \/ x = h.
Proof.
  unfold set_add. destruct (existsb (eqb_str h) seen) eqn:E.
  - split; [tauto|]. intros [H| ->]; [exact H|].
    apply existsb_exists in E. destruct E as (y & Hy & Ey).
    apply eqb_str_eq in Ey. subst y. exact Hy.
  - rewrite in_app_iff. cbn [In]. split.
    + intros [H|[<-|[]]]; [left; exact H | right; reflexivity].
    + intros [H| ->]; [left; exact H | right; left; reflexivity].
Qed.

Lemma set_add_nodup seen h : NoDup seen -> NoDup (set_add seen h).
Proof.
  intros H. unfold set_add. destruct (existsb (eqb_str h) seen) eqn:E;
    [exact H|].
  apply NoDup_app; [exact H | repeat constructor; intros [] |].
  intros a Ha [<-|[]].
  assert (Hex : existsb (eqb_str h) seen = true).
  { apply existsb_exists. exists h. split; [exact Ha|apply eqb_str_refl]. }
  congruence.
Qed.

Lemma set_fold_spec l :
  forall seen,
    NoDup seen ->
    NoDup (fold_left set_add l seen)
    /\ forall x, In x (fold_left set_add l seen) <-> In x seen \/ In x l.
Proof.
  induction l as [|h l IH]; intros seen Hseen; cbn [fold_left].
  - split; [exact Hseen|]. intros x. cbn [In]. tauto.
  - destruct (IH (set_add seen h) (set_add_nodup seen h Hseen)) as [Hnd Hin].
    split; [exact Hnd|]. intros x. rewrite Hin, set_add_in. cbn [In].
    split; [intros [[H|H]|H] | intros [H|[H|H]]]; auto.
Qed.

Section Hosts.
Context {rt : Runtime}.

(** The hosts that are probed are the distinct hosts of the collected
    links. *)
Lemma hosts_of_spec (all_pairs : list pair) :
  NoDup (hosts_of all_pairs)
  /\ forall h, In h (hosts_of all_pairs) <-> In h (map snd all_pairs).
Proof.
  unfold hosts_of, list_of_set, set_of.
  destruct (set_fold_spec (map snd all_pairs) [] (NoDup_nil _)) as [Hnd Hin].
  split.
  - apply (Permutation_NoDup (Permutation_sym (order_by_perm _ _))).
    exact Hnd.
  - intros h. split.
    + intros H. apply (Permutation_in _ (order_by_perm _ _)) in H.
      apply Hin in H. destruct H as [[]|H]. exact H.
    + intros H. apply (Permutation_in _ (Permutation_sym (order_by_perm _ _))).
      apply Hin. right. exact H.
Qed.

Lemma probe_all_hosts envs hosts : map fst (probe_all envs hosts) = hosts.
Proof.
  unfold probe_all. rewrite map_map. cbn [fst]. apply map_id.
Qed.

(** The results hold one entry for each host, in the order of [hosts]. *)
Lemma results_of_probes envs hosts :
  NoDup hosts ->
  results_of (probe_all envs hosts)
  = map (fun h => (h, probe_result envs h)) hosts.
Proof.
  intros Hnd. unfold results_of, probe_all. rewrite map_map. cbn [fst snd].
  apply dict_of_pairs_distinct. rewrite map_map. cbn [fst].
  rewrite map_id. apply keys_distinct_nodup. exact Hnd.
Qed.

Lemma results_of_keys envs hosts :
  NoDup hosts -> dict_keys (results_of (probe_all envs hosts)) = hosts.
Proof.
  intros Hnd. rewrite (results_of_probes envs hosts Hnd).
  unfold dict_keys. rewrite map_map. cbn [fst]. apply map_id.
Qed.

Lemma results_of_in envs hosts h r :
  NoDup hosts ->
  (In (h, r) (results_of (probe_all envs hosts))
   <-> In h hosts /\ r = probe_result envs h).
Proof.
  intros Hnd. rewrite (results_of_probes envs hosts Hnd), in_map_iff. split.
  - intros (x & E & Hx). injection E as <- <-. tauto.
  - intros [Hh ->]. exists h. tauto.
Qed.

End Hosts.

Section RankingOrder.
Context {rt : Runtime}.

(** The latency under which a link is in the table is that of its host. *)
Lemma latency_table_value_of country nodes all_pairs results latencies
  l h r v x :
  latency_table country nodes all_pairs results [] = Ok latencies ->
  NoDup (dict_keys results) ->
  functional all_pairs ->
  In (l, h) all_pairs -> In (h, r) results ->
  country_latency country nodes r = Ok v ->
  In (l, x) latencies -> x = v.
Proof.
  intros E Hnd Hf Hl Hr Hv Hx.
  destruct (latency_table_values _ _ _ _ _ _ _ _ E Hx)
    as [[]|(h' & r' & Hl' & Hr' & Hv')].
  assert (h' = h) by (apply (Hf l); assumption). subst h'.
  assert (r' = r).
  { clear - Hnd Hr Hr'. induction results as [|[k y] res IH];
      [destruct Hr|].
    simpl in Hnd. inversion Hnd as [|? ? Hk Hnd']; subst.
    destruct Hr as [Hr|Hr]; destruct Hr' as [Hr'|Hr'].
    - congruence.
    - injection Hr as -> ->. exfalso. apply Hk.
      apply (in_map fst) in Hr'. exact Hr'.
    - injection Hr' as -> ->. exfalso. apply Hk.
      apply (in_map fst) in Hr. exact Hr.
    - apply IH; assumption. }
  subst r'. congruence.
Qed.

(** No latency of the table is NaN when no host has such a latency. *)
Lemma latency_table_no_nan country nodes all_pairs results latencies :
  latency_table country nodes all_pairs results [] = Ok latencies ->
  (forall h r v, In (h, r) results ->
                 country_latency country nodes r = Ok v ->
                 is_nan v = false) ->
  existsb is_nan (map snd latencies) = false.
Proof.
  intros E Hnan. apply no_nan_forall. intros [l x] Hin. cbn [snd].
  destruct (latency_table_values _ _ _ _ _ _ _ _ E Hin)
    as [[]|(h & r & _ & Hr & Hv)].
  exact (Hnan h r x Hr Hv).
Qed.

(** The ranking of a table of results: ties follow the order of the
    table. *)
Lemma ranking_follows_table
  (country : str) (nodes : list str) (all_pairs : list pair)
  (results : dict json) (ranked : list str)
  (l1 l2 h1 h2 : str) (r1 r2 : json) (v1 v2 : lat) :
  sorted_links country nodes all_pairs results = Ok ranked ->
  NoDup (dict_keys results) ->
  functional all_pairs ->
  In (l1, h1) all_pairs -> In (l2, h2) all_pairs ->
  In (h1, r1) results -> In (h2, r2) results ->
  country_latency country nodes r1 = Ok v1 ->
  country_latency country nodes r2 = Ok v2 ->
  (forall h r v, In (h, r) results ->
                 country_latency country nodes r = Ok v ->
                 is_nan v = false) ->
  lat_ltb v2 v1 = false ->
  (h1 = h2 /\ first_before l1 l2 (map fst all_pairs))
  \/ before h1 h2 (dict_keys results) ->
  before l1 l2 ranked.
Proof.
  intros H Hnd Hf H1 H2 Hr1 Hr2 Hv1 Hv2 Hnan Hlt Hcase.
  unfold sorted_links in H.
  destruct (latency_table country nodes all_pairs results [])
    as [latencies|e] eqn:E; [|discriminate].
  simpl in H. injection H as <-.
  assert (Hkeys : before l1 l2 (dict_keys latencies)).
  { apply (latency_table_order country nodes all_pairs l1 l2 h1 h2 results
             [] latencies E Hnd Hf H1 H2); try (intros []).
    destruct Hcase as [[-> Hfb]|Hb]; [left|right; exact Hb].
    split; [reflexivity|]. split; [|exact Hfb].
    apply (in_map fst) in Hr2. exact Hr2. }
  apply before_map in Hkeys.
  destruct Hkeys as ([k1 x1] & [k2 x2] & Ek1 & Ek2 & Hb). simpl in Ek1, Ek2.
  subst k1 k2.
  pose proof (latency_table_value_of country nodes all_pairs results
                latencies) as Hval.
  destruct (before_in _ _ _ Hb) as [Hi1 Hi2].
  assert (x1 = v1) by (apply (Hval l1 h1 r1 v1 x1 E); assumption).
  assert (x2 = v2) by (apply (Hval l2 h2 r2 v2 x2 E); assumption).
  subst x1 x2.
  apply (before_map_fwd fst (l1, v1) (l2, v2)).
  apply sorted_stable; [|exact Hb | exact Hlt].
  exact (latency_table_no_nan _ _ _ _ _ E Hnan).
Qed.

(** The ranking of a table of results: the strictly faster link comes
    first. *)
Lemma ranking_by_latency
  (country : str) (nodes : list str) (all_pairs : list pair)
  (results : dict json) (ranked : list str)
  (l1 l2 h1 h2 : str) (r1 r2 : json) (v1 v2 : lat) :
  sorted_links country nodes all_pairs results = Ok ranked ->
  NoDup (dict_keys results) ->
  functional all_pairs ->
  In (l1, h1) all_pairs -> In (l2, h2) all_pairs ->
  In (h1, r1) results -> In (h2, r2) results ->
  country_latency country nodes r1 = Ok v1 ->
  country_latency country nodes r2 = Ok v2 ->
  (forall h r v, In (h, r) results ->
                 country_latency country nodes r = Ok v ->
                 is_nan v = false) ->
  lat_ltb v1 v2 = true ->
  before l1 l2 ranked /\ ~ before l2 l1 ranked.
Proof.
  intros H Hnd Hf H1 H2 Hr1 Hr2 Hv1 Hv2 Hnan Hlt.
  unfold sorted_links in H.
  destruct (latency_table country nodes all_pairs results [])
    as [latencies|e] eqn:E; [|discriminate].
  cbn [bind] in H. injection H as <-.
  pose proof (latency_table_value_of country nodes all_pairs results
                latencies) as Hval.
  assert (Hin : forall l h r,
             In (l, h) all_pairs -> In (h, r) results ->
             exists x, In (l, x) latencies).
  { intros l h r Hl Hr.
    assert (Hk : In l (dict_keys latencies)).
    { apply (latency_table_in country nodes all_pairs results [] latencies l E).
      right. exists h. split; [exact Hl|].
      apply (in_map fst) in Hr. exact Hr. }
    unfold dict_keys in Hk. apply in_map_iff in Hk.
    destruct Hk as ([k x] & Ek & Hk). cbn [fst] in Ek. subst k.
    exists x. exact Hk. }
  destruct (Hin l1 h1 r1 H1 Hr1) as [x1 Hx1].
  destruct (Hin l2 h2 r2 H2 Hr2) as [x2 Hx2].
  assert (x1 = v1) by (apply (Hval l1 h1 r1 v1 x1 E); assumption).
  assert (x2 = v2) by (apply (Hval l2 h2 r2 v2 x2 E); assumption).
  subst x1 x2.
  pose proof (sorted_ordered snd latencies
                (latency_table_no_nan _ _ _ _ _ E Hnan)) as Hord.
  pose proof (sorted_perm snd latencies) as Hperm.
  assert (Hs1 : In (l1, v1) (sorted snd latencies))
    by (apply (Permutation_in _ (Permutation_sym Hperm)); exact Hx1).
  assert (Hs2 : In (l2, v2) (sorted snd latencies))
    by (apply (Permutation_in _ (Permutation_sym Hperm)); exact Hx2).
  assert (Hne : (l1, v1) <> (l2, v2)).
  { intros Heq. injection Heq as _ Hv. subst v2.
    rewrite lat_ltb_irrefl in Hlt. discriminate. }
  split.
  - destruct (in_before_or _ _ _ Hs1 Hs2 Hne) as [Hb|Hb].
    + apply (before_map_fwd fst (l1, v1) (l2, v2)). exact Hb.
    + apply Hord in Hb. cbn [snd] in Hb. congruence.
  - intros Hb. apply before_map in Hb.
    destruct Hb as ([k2 y2] & [k1 y1] & Ek2 & Ek1 & Hb).
    cbn [fst] in Ek1, Ek2. subst k1 k2.
    destruct (before_in _ _ _ Hb) as [Hi2 Hi1].
    apply (Permutation_in _ Hperm) in Hi1.
    apply (Permutation_in _ Hperm) in Hi2.
    assert (y1 = v1) by (apply (Hval l1 h1 r1 v1 y1 E); assumption).
    assert (y2 = v2) by (apply (Hval l2 h2 r2 v2 y2 E); assumption).
    subst y1 y2. apply Hord in Hb. cbn [snd] in Hb. congruence.
Qed.

(** What the two lemmas need of the results of the probes. *)
Lemma probed (envs : str -> check_host) (all_pairs : list pair) l h :
  In (l, h) all_pairs ->
  In (h, probe_result envs h)
    (results_of (probe_all envs (hosts_of all_pairs))).
Proof.
  intros Hl. destruct (hosts_of_spec all_pairs) as [Hnd Hin].
  apply (results_of_in envs _ h _ Hnd). split; [|reflexivity].
  apply Hin. apply (in_map snd) in Hl. exact Hl.
Qed.

(** C3, as the code has it.  The collector keeps every occurrence of a
    link, in discovery order, in the pairs it hands on.  The hosts that are
    probed are the distinct hosts of these pairs, one probe for each.  The
    ranked output of a country, read off a table keyed by the link string,
    holds every collected link that has a host exactly once. *)
Theorem ranked_links_are_distinct
  (countries configs : list str) (country : str) (nodes : list str)
  (envs : str -> check_host) (all_pairs : list pair) (hosts ranked : list str) :
  all_pairs = snd (categorize configs countries ([], [])) ->
  hosts = hosts_of all_pairs ->
  sorted_links country nodes all_pairs (results_of (probe_all envs hosts))
  = Ok ranked ->
  all_pairs = pairs_of configs
  /\ NoDup hosts
  /\ (forall h, In h hosts
                <-> exists l, In l configs /\ link_host l = h /\ h <> [])
  /\ map fst (probe_all envs hosts) = hosts
  /\ NoDup ranked
  /\ forall l, In l ranked <-> In l configs /\ link_host l <> [].
Proof.
  intros Hpairs Hhosts H. rewrite categorize_pairs in Hpairs.
  cbn [app] in Hpairs. subst all_pairs hosts.
  destruct (hosts_of_spec (pairs_of configs)) as [Hnd Hin].
  split; [reflexivity|]. split; [exact Hnd|].
  assert (Hhost : forall h,
             In h (hosts_of (pairs_of configs))
             <-> exists l, In l configs /\ link_host l = h /\ h <> []).
  { intros h. rewrite Hin, in_map_iff. split.
    - intros ([l h'] & E & Hp). cbn [snd] in E. subst h'.
      apply pairs_of_in in Hp. destruct Hp as (Hc & -> & Hne).
      exists l. tauto.
    - intros (l & Hc & <- & Hne). exists (l, link_host l).
      split; [reflexivity|]. apply pairs_of_in. tauto. }
  split; [exact Hhost|]. split; [apply probe_all_hosts|].
  unfold sorted_links in H.
  destruct (latency_table country nodes (pairs_of configs)
              (results_of (probe_all envs (hosts_of (pairs_of configs)))) [])
    as [latencies|e] eqn:E; [|discriminate].
  simpl in H. injection H as <-.
  assert (Hperm : Permutation (map fst (sorted snd latencies))
                    (dict_keys latencies)).
  { apply Permutation_map. apply sorted_perm. }
  split.
  - apply (Permutation_NoDup (Permutation_sym Hperm)).
    apply (latency_table_nodup _ _ _ _ _ _ E). constructor.
  - intros l. split.
    + intros Hl. apply (Permutation_in _ Hperm) in Hl.
      apply (latency_table_in _ _ _ _ _ _ l E) in Hl.
      destruct Hl as [[]|(h & Hp & Hh)].
      apply pairs_of_in in Hp. destruct Hp as (Hc & -> & Hne). tauto.
    + intros (Hc & Hne).
      apply (Permutation_in _ (Permutation_sym Hperm)).
      apply (latency_table_in _ _ _ _ _ _ l E). right.
      exists (link_host l). split; [apply pairs_of_in; tauto|].
      rewrite (results_of_keys envs _ Hnd). apply Hhost.
      exists l. tauto.
Qed.



End RankingOrder.

Lemma two_links_functional :
  functional [(link_a, host_a); (link_b, host_b)].
Proof.
  intros l h h' H1 H2. simpl in H1, H2.
  destruct H1 as [H1|[H1|[]]]; destruct H2 as [H2|[H2|[]]];
    try congruence; injection H1 as <- <-; injection H2 as E _;
    discriminate E.
Qed.

Lemma ranked_links_are_distinct_witness :
  [(link_a, host_a); (link_b, host_b); (link_a, host_a)]
  = pairs_of (rt := example_runtime) [link_a; link_b; link_a]
  /\ NoDup [host_a; host_b]
  /\ (forall h, In h [host_a; host_b]
                <-> exists l, In l [link_a; link_b; link_a]
                              /\ link_host (rt := example_runtime) l = h
                              /\ h <> [])
  /\ map fst (probe_all (rt := example_runtime) envs_down [host_a; host_b])
     = [host_a; host_b]
  /\ NoDup [link_a; link_b]
  /\ forall l,
       In l [link_a; link_b]
       <-> In l [link_a; link_b; link_a]
           /\ link_host (rt := example_runtime) l <> [].
Proof.
  apply (ranked_links_are_distinct (rt := example_runtime) [u "de"]
           [link_a; link_b; link_a] (u "de") [u "de1.node.check-host.net"]
           envs_down
           [(link_a, host_a); (link_b, host_b); (link_a, host_a)]
           [host_a; host_b] [link_a; link_b]).
  - vm_compute. reflexivity.
  - vm_compute. reflexivity.
  - vm_compute. reflexivity.
Defined.

(** C3, counterexample: a link collected twice is filed twice by the
    collector and appears once in the ranking and once in [all.txt]. *)
Lemma exact_duplicates_are_collapsed :
  snd (categorize (rt := example_runtime) [link_a; link_a] [u "de"] ([], []))
  = [(link_a, host_a); (link_a, host_a)]
  /\ hosts_of (rt := example_runtime) [(link_a, host_a); (link_a, host_a)]
     = [host_a]
  /\ sorted_links (rt := example_runtime) (u "de")
       [u "de1.node.check-host.net"]
       [(link_a, host_a); (link_a, host_a)]
       (results_of (probe_all (rt := example_runtime) envs_down [host_a]))
     = Ok [link_a]
  /\ occurrences link_a [link_a; link_a] = 2%nat
  /\ occurrences link_a [link_a] = 1%nat
  /\ match main_async (rt := example_runtime) nodes_de [link_a; link_a]
             envs_down [] world0 with
     | (e, fs, _) =>
         e = None
         /\ dict_get (u "configs/de/all.txt") fs
            = Some (u "trojan://a.example.org:443#%F0%9F%8F%B3%EF%B8%8F%20ShatalVPN%20123456")
     end.
Proof.
  split; [|split; [|split; [|split; [|split]]]]; vm_compute; try reflexivity.
  split; reflexivity.
Qed.




(** The ranking sees the rounding of the mean: the samples 0.1, 0.2 and
    0.3 of [host_a] have a mean above the sample 0.2 of [host_b], and
    [link_b] is ranked first. *)
Example ranking_sees_rounding :
  sorted_links (rt := example_runtime) (u "de") [u "de1.node.check-host.net"]
    [(link_a, host_a); (link_b, host_b)] rounded_results
  = Ok [link_b; link_a].
Proof. vm_compute. reflexivity. Qed.

(** ** Categorising: the groups of a country *)

Section Groups.
Context {rt : Runtime}.

Lemma in_dec_str (x : str) l : {In x l} + {~ In x l}.
Proof. apply in_dec. apply str_eq_dec. Qed.

(** One link filed under every country. *)
Lemma add_to_countries_get countries proto p :
  forall categorized c,
    NoDup countries ->
    dict_get c (add_to_countries countries proto p categorized)
    = if in_dec_str c countries
      then Some (dict_modify proto [] (fun l => l ++ [p])
                   (match dict_get c categorized with
                    | Some g => g
                    | None => []
                    end))
      else dict_get c categorized.
Proof.
  unfold add_to_countries.
  induction countries as [|x countries IH]; intros categorized c Hnd.
  - cbn [fold_left]. destruct (in_dec_str c []) as [[]|_]. reflexivity.
  - inversion Hnd as [|? ? Hx Hnd']; subst. cbn [fold_left].
    rewrite (IH _ c Hnd').
    destruct (in_dec_str c countries) as [Hin|Hout];
      destruct (in_dec_str c (x :: countries)) as [Hin'|Hout'].
    + assert (Hne : c <> x) by (intros ->; contradiction).
      rewrite dict_modify_other by exact Hne. reflexivity.
    + exfalso. apply Hout'. right. exact Hin.
    + destruct Hin' as [<-|Hin']; [|contradiction].
      rewrite dict_modify_same. reflexivity.
    + assert (Hne : c <> x) by (intros ->; apply Hout'; left; reflexivity).
      rewrite dict_modify_other by exact Hne. reflexivity.
Qed.

Lemma categorize_fold configs countries :
  forall categorized all_pairs,
    categorize configs countries (categorized, all_pairs)
    = (fold_left
         (fun acc p =>
            add_to_countries countries (detect_protocol (fst p)) p acc)
         (pairs_of configs) categorized,
       all_pairs ++ pairs_of configs).
Proof.
  induction configs as [|link configs IH]; intros categorized all_pairs.
  - cbn. rewrite app_nil_r. reflexivity.
  - cbn [categorize]. unfold pairs_of. cbn [flat_map].
    fold (pairs_of configs). unfold link_host.
    destruct (strip_port (extract_host link (detect_protocol link)))
      as [|c host].
    + cbn [app]. apply IH.
    + rewrite IH. cbn [app fold_left fst]. rewrite <- app_assoc.
      reflexivity.
Qed.

Lemma groups_agree_step countries categorized all_pairs p :
  NoDup countries ->
  groups_agree countries categorized all_pairs ->
  groups_agree countries
    (add_to_countries countries (detect_protocol (fst p)) p categorized)
    (all_pairs ++ [p]).
Proof.
  intros Hnd (H1 & H2 & H3). split; [|split].
  - intros c proto Hc. unfold group.
    rewrite (add_to_countries_get countries _ p categorized c Hnd).
    destruct (in_dec_str c countries) as [_|Hout]; [|contradiction].
    unfold of_protocol. rewrite filter_app. cbn [filter].
    specialize (H1 c proto Hc). unfold group, of_protocol in H1.
    destruct (eqb_str (detect_protocol (fst p)) proto) eqn:Ep.
    + apply eqb_str_eq in Ep. subst proto. rewrite dict_modify_same.
      f_equal. etransitivity; [|exact H1].
      destruct (dict_get c categorized) as [g|]; reflexivity.
    + apply eqb_str_neq in Ep.
      rewrite dict_modify_other by congruence.
      rewrite app_nil_r. etransitivity; [|exact H1].
      destruct (dict_get c categorized) as [g|]; reflexivity.
  - intros c g proto items Hg Hitems.
    rewrite (add_to_countries_get countries _ p categorized c Hnd) in Hg.
    destruct (in_dec_str c countries) as [Hin|Hout];
      [|exact (H2 c g proto items Hg Hitems)].
    injection Hg as <-.
    destruct (str_eq_dec proto (detect_protocol (fst p))) as [->|Hne].
    + rewrite dict_modify_same in Hitems. injection Hitems as <-.
      intros Habs. apply app_eq_nil in Habs. destruct Habs. discriminate.
    + rewrite dict_modify_other in Hitems by exact Hne.
      destruct (dict_get c categorized) as [g|] eqn:Eg.
      * exact (H2 c g proto items Eg Hitems).
      * discriminate.
  - intros c Hc.
    rewrite (add_to_countries_get countries _ p categorized c Hnd).
    destruct (in_dec_str c countries) as [_|Hout]; [|contradiction].
    split; [discriminate|]. intros Habs. apply app_eq_nil in Habs.
    destruct Habs. discriminate.
Qed.

Lemma groups_agree_fold countries pairs :
  forall categorized all_pairs,
    NoDup countries ->
    groups_agree countries categorized all_pairs ->
    groups_agree countries
      (fold_left
         (fun acc p =>
            add_to_countries countries (detect_protocol (fst p)) p acc)
         pairs categorized)
      (all_pairs ++ pairs).
Proof.
  induction pairs as [|p pairs IH]; intros categorized all_pairs Hnd H.
  - cbn [fold_left]. rewrite app_nil_r. exact H.
  - cbn [fold_left].
    replace (all_pairs ++ p :: pairs) with ((all_pairs ++ [p]) ++ pairs)
      by (rewrite <- app_assoc; reflexivity).
    apply IH; [exact Hnd|]. apply groups_agree_step; assumption.
Qed.

(** X28. Every country of the directory gets the same groups: for each
    protocol, the collected pairs of that protocol in the order of
    discovery.  A protocol is a key only if a link has it, and a country
    has an entry only if some link was collected. *)
Theorem categorize_groups_by_protocol
  (configs countries : list str) (country : str) :
  NoDup countries -> In country countries ->
  match dict_get country (fst (categorize configs countries ([], []))) with
  | Some groups =>
      pairs_of configs <> []
      /\ forall proto,
           match dict_get proto groups with
           | Some items =>
               items = of_protocol proto (pairs_of configs) /\ items <> []
           | None => of_protocol proto (pairs_of configs) = []
           end
  | None => pairs_of configs = []
  end.
Proof.
  intros Hnd Hc. rewrite categorize_fold. cbn [fst app].
  assert (H0 : groups_agree countries [] []).
  { split; [|split].
    - intros c proto _. reflexivity.
    - intros c g proto items Hg. discriminate.
    - intros c _. split; reflexivity. }
  pose proof (groups_agree_fold countries (pairs_of configs) [] [] Hnd H0)
    as (H1 & H2 & H3).
  cbn [app] in H1, H3.
  specialize (H3 country Hc).
  destruct (dict_get country
              (fold_left
                 (fun acc p =>
                    add_to_countries countries (detect_protocol (fst p)) p acc)
                 (pairs_of configs) [])) as [groups|] eqn:Eg.
  - split.
    + intros Hnil. apply H3 in Hnil. discriminate.
    + intros proto. specialize (H1 country proto Hc).
      unfold group in H1. rewrite Eg in H1.
      destruct (dict_get proto groups) as [items|] eqn:Ei.
      * split; [exact H1|]. exact (H2 country groups proto items Eg Ei).
      * symmetry. exact H1.
  - apply H3. reflexivity.
Qed.

End Groups.

Lemma categorize_groups_by_protocol_witness :
  match dict_get (u "de")
          (fst (categorize (rt := example_runtime) [link_a; link_b]
                  [u "de"; u "fr"] ([], []))) with
  | Some groups =>
      pairs_of (rt := example_runtime) [link_a; link_b] <> []
      /\ forall proto,
           match dict_get proto groups with
           | Some items =>
               items
               = of_protocol (rt := example_runtime) proto
                   (pairs_of (rt := example_runtime) [link_a; link_b])
               /\ items <> []
           | None =>
               of_protocol (rt := example_runtime) proto
                 (pairs_of (rt := example_runtime) [link_a; link_b]) = []
           end
  | None => pairs_of (rt := example_runtime) [link_a; link_b] = []
  end.
Proof.
  apply (categorize_groups_by_protocol (rt := example_runtime)
           [link_a; link_b] [u "de"; u "fr"] (u "de")).
  - repeat constructor; simpl; intuition discriminate.
  - left. reflexivity.
Defined.

(** ** The user part of a link in the main flow *)

Section UserPart.
Context {rt : Runtime}.

(** X29. A user part is taken for a piece of the host: for a link of a
    protocol other than vmess and shadowsocks whose network location is
    [user@host:port], the name [rename_line] resolves and locates is
    [user@host], and, when neither part holds a colon, that is also the
    host under which the main flow probes the link. *)
Theorem rename_line_keeps_user_part
  (link user host port : str) (w : world) :
  urlsplit_netloc link = Ok (user ++ u "@" ++ host ++ u ":" ++ port) ->
  detect_protocol link <> u "vmess" ->
  detect_protocol link <> u "shadowsocks" ->
  ~ In 58 port ->
  rename_line link w
  = rename_with (detect_protocol link) link (user ++ u "@" ++ host) port w
  /\ (~ In 58 (user ++ u "@" ++ host) ->
      link_host link = user ++ u "@" ++ host).
Proof.
  intros Hnet Hv Hs Hport.
  assert (Hhp : extract_host link (detect_protocol link)
                = (user ++ u "@" ++ host) ++ u ":" ++ port).
  { unfold extract_host, extract_host_body.
    apply eqb_str_neq in Hv. apply eqb_str_neq in Hs.
    rewrite Hv, Hnet, Hs. cbn [bind andb try_except].
    rewrite <- !app_assoc. reflexivity. }
  split.
  - unfold rename_line, rename_with.
    rewrite Hhp, (split_host_port_last_colon _ port Hport).
    destruct user; reflexivity.
  - intros Hcolon. unfold link_host, strip_port. rewrite Hhp.
    assert (Hsplit : split1 (u ":") ((user ++ u "@" ++ host) ++ u ":" ++ port)
                     = [user ++ u "@" ++ host; port])
      by exact (split1_char 58 _ port Hcolon).
    rewrite Hsplit. reflexivity.
Qed.

End UserPart.

Lemma rename_line_keeps_user_part_witness :
  rename_line (rt := example_runtime) (u "trojan://pw@example.org:443/x")
    world0
  = rename_with (rt := example_runtime) (u "trojan")
      (u "trojan://pw@example.org:443/x") (u "pw" ++ u "@" ++ u "example.org")
      (u "443") world0
  /\ (~ In 58 (u "pw" ++ u "@" ++ u "example.org") ->
      link_host (rt := example_runtime) (u "trojan://pw@example.org:443/x")
      = u "pw" ++ u "@" ++ u "example.org").
Proof.
  apply (rename_line_keeps_user_part (rt := example_runtime)
           (u "trojan://pw@example.org:443/x") (u "pw") (u "example.org")
           (u "443") world0).
  - reflexivity.
  - discriminate.
  - discriminate.
  - intros H. vm_compute in H. intuition discriminate.
Defined.

Example rename_line_doubles_user_part :
  fst (rename_line (rt := example_runtime)
         (u "trojan://pw@example.org:443/x") world0)
  = Ok (u "trojan://pw@pw@example.org:443/x#%F0%9F%8F%B3%EF%B8%8F%20ShatalVPN%20123456").
Proof. vm_compute. reflexivity. Qed.

(** ** The files of the protocols *)

Section ProtocolFiles.
Context {rt : Runtime}.

Lemma protocol_file_differs dest_dir p1 p2 :
  ~ In 47 p1 -> ~ In 47 p2 -> p1 <> p2 ->
  protocol_file dest_dir p1 <> protocol_file dest_dir p2.
Proof.
  intros H1 H2 Hne. unfold protocol_file.
  assert (Hstart : forall p, ~ In 47 p ->
                             starts_with (u "/") (p ++ u ".txt") = false).
  { intros p Hp. destruct p as [|c p]; [reflexivity|].
    destruct (starts_with (u "/") ((c :: p) ++ u ".txt")) eqn:E;
      [|reflexivity].
    exfalso. apply Hp. left.
    change (((47 =? c) && true) = true) in E.
    apply andb_true_iff in E. destruct E as [E _].
    apply N.eqb_eq in E. symmetry. exact E. }
  apply path_join_names_differ; [apply Hstart; exact H1
                                | apply Hstart; exact H2 |].
  intros E. apply app_inv_tail in E. contradiction.
Qed.

Lemma write_protocols_other dest_dir ranked path protos :
  forall fs w fs' w',
    write_protocols dest_dir protos ranked fs w = (None, fs', w') ->
    (forall p, In p protos -> protocol_file dest_dir p <> path) ->
    dict_get path fs' = dict_get path fs.
Proof.
  induction protos as [|p protos IH]; intros fs w fs' w' H Hp.
  - cbn [write_protocols] in H. injection H as <- _. reflexivity.
  - cbn [write_protocols] in H.
    destruct (rename_all _ w) as [[renamed|e] w1]; [|discriminate].
    rewrite (IH _ _ _ _ H) by (intros q Hq; apply Hp; right; exact Hq).
    apply save_to_file_other. intros E. apply (Hp p); [left; reflexivity|].
    symmetry. exact E.
Qed.


End ProtocolFiles.

